(** * Satviz: the simulation core of SatMap, embedded in Rocq

    Sources:
    - [satmap/src/utils/geometry.ts]        vector kernel, cones, occultation test
    - [satmap/src/utils/orbitCalculation.ts] Beacon element synthesis
    - [satmap/src/simulationEngine.ts]      the time-stepped handshake/blackout loop
    - [satmap/src/services/tleService.ts]   fetching and parsing of the Iridium elements
    - [satmap/src/components/OrbitInputForm.tsx], [CurrentConnectionsPanel.tsx],
      [SatVisualization.tsx], [ConsolePanel.tsx], [satmap/src/contexts/LogContext.tsx],
      [satmap/src/App.tsx]                  what the interface computes from a run

    Modelling choices:
    - a JavaScript [number] is an IEEE 754 binary64 value: it is the kernel's
      primitive [float], whose operations are the correctly rounded binary64
      ones, so the geometry is computed here bit for bit as the program does;
    - a [Date] is the number it was made from, a whole number of
      milliseconds: [Z].  It is a valid date when that number lies within
      8.64e15 ms of the epoch and an Invalid Date otherwise: its [getTime()]
      is then NaN, its [toISOString()] throws a RangeError and a comparison
      with it is false.  The functions of orbitCalculation.ts are read on
      valid dates;
    - the duration (hours) and the time step (seconds, or minutes) of a run
      are whole numbers, on which the loop's [Date] arithmetic is exact; runs
      with a fractional duration or time step are not covered;
    - a [Set<string>] is a [gset string], the object that maps satellite ids
      to tracks a [gmap string]: [tracks !! id] is the read [tracks[id]] the
      program makes.  The keys of the map are the object's own keys
      ([Object.keys]) unless a satellite is named [__proto__], a name whose
      assignment makes no key;
    - [Math], [Number.prototype], [Date], the satellite.js propagator, the
      constants module and the TLE service are host functions, parameters of
      the embedding; [celestrak] is the TLE service of the repository, a
      function of the answers of its HTTP client;
    - an array is a list: storage is taken as unbounded;
    - the loop is run with a number of iterations computed from its bounds;
      [NeverReturns] stands for a loop that no number of iterations ends;
    - console output is left out, but for the RangeError that printing an
      Invalid Date throws. *)

From stdpp Require Import gmap strings list fin_maps pretty sorting.
From Stdlib Require Import ZArith Bool Ascii Lia.
From Stdlib Require Import Floats.
From Stdlib Require Import Reals Lra.

Set Warnings "-inexact-float".

Set Implicit Arguments.

(** ** Numbers

    The occultation test only uses field operations, a square root and ordered
    comparisons.  It is written once over this interface and read at two
    instances: [float] (what the program runs) and [R] (exact arithmetic). *)

Class Number (N : Type) : Type := {
  num_lit : Z -> N;              (* an integer literal of the source text *)
  num_add : N -> N -> N;
  num_sub : N -> N -> N;
  num_mul : N -> N -> N;
  num_div : N -> N -> N;
  num_neg : N -> N;
  num_sqrt : N -> N;             (* Math.sqrt *)
  num_ltb : N -> N -> bool;      (* x < y   *)
  num_leb : N -> N -> bool       (* x <= y  *)
}.

Declare Scope num_scope.
Delimit Scope num_scope with num.
Notation "x + y" := (num_add x y) : num_scope.
Notation "x - y" := (num_sub x y) : num_scope.
Notation "x * y" := (num_mul x y) : num_scope.
Notation "x / y" := (num_div x y) : num_scope.
Notation "- x" := (num_neg x) : num_scope.
Notation "x <? y" := (num_ltb x y) (at level 70, no associativity) : num_scope.
Notation "x <=? y" := (num_leb x y) (at level 70, no associativity) : num_scope.
Notation "x >? y" := (num_ltb y x) (at level 70, no associativity) : num_scope.
Notation "x >=? y" := (num_leb y x) (at level 70, no associativity) : num_scope.

(** Integer literals of the source as binary64 values (exact below 2^53). *)
Definition float_of_Z (z : Z) : float :=
  match z with
  | Z0 => PrimFloat.zero
  | Zpos _ => PrimFloat.of_uint63 (Uint63.of_Z z)
  | Zneg _ => PrimFloat.opp (PrimFloat.of_uint63 (Uint63.of_Z (Z.opp z)))
  end.

#[export] Instance float_Number : Number float := {|
  num_lit := float_of_Z;
  num_add := PrimFloat.add;
  num_sub := PrimFloat.sub;
  num_mul := PrimFloat.mul;
  num_div := PrimFloat.div;
  num_neg := PrimFloat.opp;
  num_sqrt := PrimFloat.sqrt;
  num_ltb := PrimFloat.ltb;
  num_leb := PrimFloat.leb
|}.

Definition Rltb (x y : R) : bool := if Rlt_dec x y then true else false.
Definition Rleb (x y : R) : bool := if Rle_dec x y then true else false.

#[export] Instance R_Number : Number R := {|
  num_lit := IZR;
  num_add := Rplus;
  num_sub := Rminus;
  num_mul := Rmult;
  num_div := Rdiv;
  num_neg := Ropp;
  num_sqrt := R_sqrt.sqrt;
  num_ltb := Rltb;
  num_leb := Rleb
|}.

(** ** Data model ([types/orbit.ts], [utils/geometry.ts]) *)

(** [CartesianVector] and [Point] are the same structural type [{x, y, z}]. *)
Record Vec3 (N : Type) : Type := mkVec3 { x : N; y : N; z : N }.

Definition Point (N : Type) : Type := Vec3 N.
Definition CartesianVector : Type := Vec3 float.

(** ** Occultation test ([isLineOfSightClear], both copies of geometry.ts) *)

Section LineOfSight.
Context {N : Type} {num : Number N}.
Local Open Scope num_scope.

Local Notation "0" := (num_lit 0%Z) : num_scope.
Local Notation "1" := (num_lit 1%Z) : num_scope.
Local Notation "2" := (num_lit 2%Z) : num_scope.
Local Notation "4" := (num_lit 4%Z) : num_scope.

(** [t >= 0 && t <= 1] *)
Definition onSegment (t : N) : bool := (t >=? 0) && (t <=? 1).

(** The endpoint tests made once an intersection lies on the segment. *)
Definition endpointVerdict (p1DistSq p2DistSq rSq : N) : bool :=
  if ((p1DistSq <? rSq) && (p2DistSq >? rSq)) || ((p1DistSq >? rSq) && (p2DistSq <? rSq))
  then false
  else if (p1DistSq >? rSq) && (p2DistSq >? rSq) then false
  else if (p1DistSq <=? rSq) && (p2DistSq <=? rSq) then true
  else false.

(** The quantities the decision is made on, named as in the source. *)
Definition distSq (p earthCenter : Point N) : N :=
  let v := {| x := p.(x) - earthCenter.(x);
              y := p.(y) - earthCenter.(y);
              z := p.(z) - earthCenter.(z) |} in
  v.(x) * v.(x) + v.(y) * v.(y) + v.(z) * v.(z).

Definition quadA (point1 point2 : Point N) : N :=
  let d := {| x := point2.(x) - point1.(x);
              y := point2.(y) - point1.(y);
              z := point2.(z) - point1.(z) |} in
  d.(x) * d.(x) + d.(y) * d.(y) + d.(z) * d.(z).

Definition quadB (point1 point2 earthCenter : Point N) : N :=
  let d := {| x := point2.(x) - point1.(x);
              y := point2.(y) - point1.(y);
              z := point2.(z) - point1.(z) |} in
  let f := {| x := point1.(x) - earthCenter.(x);
              y := point1.(y) - earthCenter.(y);
              z := point1.(z) - earthCenter.(z) |} in
  2 * (f.(x) * d.(x) + f.(y) * d.(y) + f.(z) * d.(z)).

Definition quadC (point1 earthCenter : Point N) (earthRadius : N) : N :=
  distSq point1 earthCenter - earthRadius * earthRadius.

Definition losDiscriminant (point1 point2 earthCenter : Point N) (earthRadius : N) : N :=
  let a := quadA point1 point2 in
  let b := quadB point1 point2 earthCenter in
  let c := quadC point1 earthCenter earthRadius in
  b * b - 4 * a * c.

Definition losT1 (point1 point2 earthCenter : Point N) (earthRadius : N) : N :=
  (- quadB point1 point2 earthCenter
     - num_sqrt (losDiscriminant point1 point2 earthCenter earthRadius))
  / (2 * quadA point1 point2).

Definition losT2 (point1 point2 earthCenter : Point N) (earthRadius : N) : N :=
  (- quadB point1 point2 earthCenter
     + num_sqrt (losDiscriminant point1 point2 earthCenter earthRadius))
  / (2 * quadA point1 point2).

(** "an intersection lies on the segment" *)
Definition segmentHitsSphere (point1 point2 earthCenter : Point N) (earthRadius : N) : bool :=
  negb (losDiscriminant point1 point2 earthCenter earthRadius <? 0)
  && (onSegment (losT1 point1 point2 earthCenter earthRadius)
      || onSegment (losT2 point1 point2 earthCenter earthRadius)).

Definition isLineOfSightClear
    (point1 point2 earthCenter : Point N) (earthRadius : N) : bool :=
  let d := {| x := point2.(x) - point1.(x);
              y := point2.(y) - point1.(y);
              z := point2.(z) - point1.(z) |} in
  let f := {| x := point1.(x) - earthCenter.(x);
              y := point1.(y) - earthCenter.(y);
              z := point1.(z) - earthCenter.(z) |} in
  let a := d.(x) * d.(x) + d.(y) * d.(y) + d.(z) * d.(z) in
  let b := 2 * (f.(x) * d.(x) + f.(y) * d.(y) + f.(z) * d.(z)) in
  let c := f.(x) * f.(x) + f.(y) * f.(y) + f.(z) * f.(z) - earthRadius * earthRadius in
  let discriminant := b * b - 4 * a * c in
  if discriminant <? 0 then true
  else
    let discriminant := num_sqrt discriminant in
    let t1 := (- b - discriminant) / (2 * a) in
    let t2 := (- b + discriminant) / (2 * a) in
    if onSegment t1 || onSegment t2 then
      let p1DistSq := f.(x) * f.(x) + f.(y) * f.(y) + f.(z) * f.(z) in
      let p2Vec := {| x := point2.(x) - earthCenter.(x);
                      y := point2.(y) - earthCenter.(y);
                      z := point2.(z) - earthCenter.(z) |} in
      let p2DistSq := p2Vec.(x) * p2Vec.(x) + p2Vec.(y) * p2Vec.(y) + p2Vec.(z) * p2Vec.(z) in
      let rSq := earthRadius * earthRadius in
      endpointVerdict p1DistSq p2DistSq rSq
    else true.
End LineOfSight.

(** ** Host functions

    What the program takes from its platform and from modules that are not part
    of the repository's sources: [Math], [Number.prototype], [Date], the
    [satellite.js] propagator, the physical constants module and the TLE
    service.  They are parameters of the embedding: every theorem holds for
    whatever they compute. *)

Class MathHost : Type := {
  Math_acos : float -> float;
  Math_asin : float -> float;
  Math_sin : float -> float;
  Math_cos : float -> float;
  Math_atan2 : float -> float -> float;
  Math_pow : float -> float -> float;
  Math_floor : float -> float;
  Math_round : float -> float;
  number_rem : float -> float -> float;        (* the [%] operator *)
  toFixed : float -> nat -> string;            (* Number.prototype.toFixed *)
  numberToString : float -> string             (* Number.prototype.toString *)
}.

(** A [Date] is the number it was made from, in milliseconds since the epoch:
    [new Date(v)] is a valid date, of time value [v], when [v] lies within
    8.64e15 ms of the epoch, and an Invalid Date otherwise. *)
Definition maxTimeValue : Z := 8640000000000000.

Definition validTime (date : Z) : bool :=
  ((- maxTimeValue <=? date) && (date <=? maxTimeValue))%Z.

(** [date.getTime()]; [None] is NaN, the time value of an Invalid Date. *)
Definition getTime (date : Z) : option Z :=
  if validTime date then Some date else None.

(** [a <= b] on dates compares the time values: it is false when either is
    NaN. *)
Definition dateLeb (a b : Z) : bool :=
  validTime a && validTime b && (a <=? b)%Z.

(** The UTC fields of a valid date. *)
Class DateHost : Type := {
  getUTCFullYear : Z -> Z;
  getUTCMonth : Z -> Z;
  getUTCDate : Z -> Z;
  getUTCHours : Z -> Z;
  getUTCMinutes : Z -> Z;
  getUTCSeconds : Z -> Z;
  getUTCMilliseconds : Z -> Z;
  Date_UTC : Z -> Z -> Z -> Z                  (* Date.UTC(year, month, day, 0, 0, 0, 0) *)
}.

Class Constants : Type := {
  RADIUS_EARTH_KM : float;
  GM_EARTH : float;
  SECONDS_PER_DAY : float
}.

Definition Math_PI : float := 3.141592653589793%float.

(** [Math.min] and [Math.max] of two numbers: NaN if either is NaN, and -0 is
    below +0. *)
Definition Math_min (a b : float) : float :=
  if (is_nan a || is_nan b)%bool then nan
  else if (a <? b)%float then a
  else if (b <? a)%float then b
  else if get_sign a then a else b.

Definition Math_max (a b : float) : float :=
  if (is_nan a || is_nan b)%bool then nan
  else if (a <? b)%float then b
  else if (b <? a)%float then a
  else if get_sign a then b else a.

(** ** Vector kernel ([utils/geometry.ts]) *)

Definition dotProduct (v1 v2 : CartesianVector) : float :=
  (v1.(x) * v2.(x) + v1.(y) * v2.(y) + v1.(z) * v2.(z))%float.

Definition magnitude (v : CartesianVector) : float :=
  PrimFloat.sqrt (v.(x) * v.(x) + v.(y) * v.(y) + v.(z) * v.(z))%float.

Definition normalize (v : CartesianVector) : CartesianVector :=
  let mag := magnitude v in
  if (mag <? 1e-9)%float then {| x := 0%float; y := 0%float; z := 0%float |}
  else {| x := (v.(x) / mag)%float; y := (v.(y) / mag)%float; z := (v.(z) / mag)%float |}.

Definition subtract (v1 v2 : CartesianVector) : CartesianVector :=
  {| x := (v1.(x) - v2.(x))%float; y := (v1.(y) - v2.(y))%float; z := (v1.(z) - v2.(z))%float |}.

Definition add (v1 v2 : CartesianVector) : CartesianVector :=
  {| x := (v1.(x) + v2.(x))%float; y := (v1.(y) + v2.(y))%float; z := (v1.(z) + v2.(z))%float |}.

Definition scale (v : CartesianVector) (scalar : float) : CartesianVector :=
  {| x := (v.(x) * scalar)%float; y := (v.(y) * scalar)%float; z := (v.(z) * scalar)%float |}.

Definition crossProduct (v1 v2 : CartesianVector) : CartesianVector :=
  {| x := (v1.(y) * v2.(z) - v1.(z) * v2.(y))%float;
     y := (v1.(z) * v2.(x) - v1.(x) * v2.(z))%float;
     z := (v1.(x) * v2.(y) - v1.(y) * v2.(x))%float |}.

Record GeometricCone : Type := mkCone {
  tip : CartesianVector;
  axis : CartesianVector;
  halfAngle : float;
  satelliteId : option string
}.

Definition getNadirVector (satelliteEciPos : CartesianVector) : CartesianVector :=
  normalize (scale satelliteEciPos (-1)%float).

Section Cones.
Context {math : MathHost}.

(** The console output of [isPointInCone] is left out; it does not change the
    result. *)
Definition isPointInCone (targetPointEci : CartesianVector) (cone : GeometricCone) : bool :=
  let vectorToTarget := subtract targetPointEci cone.(tip) in
  let normalizedVectorToTarget := normalize vectorToTarget in
  let cosAngle := dotProduct cone.(axis) normalizedVectorToTarget in
  let clampedCosAngle := Math_max (-1)%float (Math_min 1%float cosAngle) in
  let angleToTargetRadians := Math_acos clampedCosAngle in
  (angleToTargetRadians <=? cone.(halfAngle))%float.

End Cones.

Definition createIridiumCone (iridiumEciPos : CartesianVector) (halfAngleRadians : float)
    (satelliteId : option string) : GeometricCone :=
  {| tip := iridiumEciPos;
     axis := getNadirVector iridiumEciPos;
     halfAngle := halfAngleRadians;
     satelliteId := satelliteId |}.

Definition antennaId (entityIdPrefix : option string) (suffix : string) : string :=
  match entityIdPrefix with
  | Some p => if decide (p = "") then "UnknownEntity" +:+ suffix else p +:+ suffix
  | None => "UnknownEntity" +:+ suffix
  end.

Definition createHorizonAlignedAntennaCones
    (satelliteEciPos satelliteEciVelocity : CartesianVector)
    (halfAngleRadians : float) (entityIdPrefix : option string) : list GeometricCone :=
  let zenithVector := normalize satelliteEciPos in
  if (magnitude zenithVector <? 1e-9)%float then []
  else
    let velocityComponentParallelToZenith :=
      scale zenithVector (dotProduct satelliteEciVelocity zenithVector) in
    let horizontalVelocityComponent :=
      subtract satelliteEciVelocity velocityComponentParallelToZenith in
    let magHorizontalVelocity := magnitude horizontalVelocityComponent in
    let fallback : option CartesianVector :=
      if (magHorizontalVelocity <? 1e-9)%float then
        let globalX := {| x := 1%float; y := 0%float; z := 0%float |} in
        let globalY := {| x := 0%float; y := 1%float; z := 0%float |} in
        let arbitraryHorizontalDir :=
          if (PrimFloat.abs (dotProduct zenithVector globalX) <? 0.99)%float
          then normalize (crossProduct zenithVector globalX)
          else normalize (crossProduct zenithVector globalY) in
        if (magnitude arbitraryHorizontalDir <? 1e-9)%float then None
        else Some arbitraryHorizontalDir
      else Some horizontalVelocityComponent in
    match fallback with
    | None => []
    | Some horizontalVelocityComponent =>
        let antennaAxis1 := normalize horizontalVelocityComponent in
        let antennaAxis2 := scale antennaAxis1 (-1)%float in
        let cone1 := {| tip := satelliteEciPos; axis := antennaAxis1;
                        halfAngle := halfAngleRadians;
                        satelliteId := Some (antennaId entityIdPrefix "-Ant1") |} in
        let cone2 := {| tip := satelliteEciPos; axis := antennaAxis2;
                        halfAngle := halfAngleRadians;
                        satelliteId := Some (antennaId entityIdPrefix "-Ant2") |} in
        [cone1; cone2]
    end.

(** ** Orbit data ([types/orbit.ts]) *)

Record SunSynchronousOrbitParams : Type := {
  sso_altitude : float;
  localSolarTimeAtDescendingNode : float
}.

Record NonPolarOrbitParams : Type := {
  np_altitude : float;
  inclination : float;
  raan : option float
}.

Inductive BeaconOrbitParams : Type :=
| SunSynchronous (p : SunSynchronousOrbitParams)
| NonPolar (p : NonPolarOrbitParams).

Definition altitude (beaconParams : BeaconOrbitParams) : float :=
  match beaconParams with
  | SunSynchronous p => sso_altitude p
  | NonPolar p => np_altitude p
  end.

Record GeodeticPosition : Type := {
  latitude : float;
  longitude : float;
  geo_altitude : float
}.

Record SatellitePosition : Type := {
  timestamp : Z;
  positionGeodetic : GeodeticPosition;
  positionEci : CartesianVector;
  velocityEci : CartesianVector
}.

Record TLE : Type := { name : string; line1 : string; line2 : string }.

(** ** The [satellite.js] propagator, as the program uses it *)

Record LookAngles : Type := { la_latitude : float; la_longitude : float; height : float }.

(** What [satellite.propagate] returns when it does not return [false]. *)
Record PositionAndVelocity : Type := {
  position : option CartesianVector;
  velocity : option CartesianVector
}.

Class SatelliteJs : Type := {
  SatRec : Type;
  satrec_error : SatRec -> Z;
  (* [None]: the call throws *)
  twoline2satrec : string -> string -> option SatRec;
  (* [None]: the call returns [false] or throws *)
  satellite_propagate : SatRec -> Z -> option PositionAndVelocity;
  gstime : Z -> float;
  eciToGeodetic : CartesianVector -> float -> LookAngles;
  (* applied to the latitude and the longitude of [eciToGeodetic] and to an
     [atan2], which lie within the range they accept *)
  degreesLat : float -> float;
  degreesLong : float -> float;
  (* [None]: the call throws a RangeError, as it does below -180 and above 180 *)
  radiansLong : float -> option float
}.

(** ** Element synthesis and propagation ([utils/orbitCalculation.ts]) *)

Section OrbitCalculation.
Context {math : MathHost} {dates : DateHost} {consts : Constants} {sat : SatelliteJs}.

Definition initializeSatrecFromTLE (tle : TLE) : option SatRec :=
  match twoline2satrec tle.(line1) tle.(line2) with
  | Some satrec => if decide (satrec_error satrec = 0%Z) then Some satrec else None
  | None => None
  end.

Record PropagationResult : Type := {
  pr_positionEci : CartesianVector;
  pr_velocityEci : CartesianVector;
  pr_positionGeodetic : LookAngles
}.

Definition propagateSatellite (satrec : SatRec) (date : Z) : option PropagationResult :=
  match satellite_propagate satrec date with
  | None => None
  | Some positionAndVelocity =>
      match positionAndVelocity.(position), positionAndVelocity.(velocity) with
      | Some positionEci, Some velocityEci =>
          if (is_nan positionEci.(x) || is_nan positionEci.(y) || is_nan positionEci.(z))%bool
          then None
          else
            let gmst := gstime date in
            Some {| pr_positionEci := positionEci;
                    pr_velocityEci := velocityEci;
                    pr_positionGeodetic := eciToGeodetic positionEci gmst |}
      | _, _ => None
      end
  end.

Definition eciToCartesian (eci : CartesianVector) : CartesianVector :=
  {| x := eci.(x); y := eci.(y); z := eci.(z) |}.

Definition geodeticToPosition (geo : LookAngles) : GeodeticPosition :=
  {| latitude := degreesLat geo.(la_latitude);
     longitude := degreesLong geo.(la_longitude);
     geo_altitude := geo.(height) |}.

Definition getJulianDate (date : Z) : float :=
  let Y0 := getUTCFullYear date in
  let M0 := (getUTCMonth date + 1)%Z in
  let D := (float_of_Z (getUTCDate date)
            + float_of_Z (getUTCHours date) / 24.0
            + float_of_Z (getUTCMinutes date) / (24.0 * 60.0)
            + float_of_Z (getUTCSeconds date) / (24.0 * 60.0 * 60.0)
            + float_of_Z (getUTCMilliseconds date) / (24.0 * 60.0 * 60.0 * 1000.0))%float in
  let Y := float_of_Z (if (M0 <=? 2)%Z then Y0 - 1 else Y0)%Z in
  let M := float_of_Z (if (M0 <=? 2)%Z then M0 + 12 else M0)%Z in
  let A := Math_floor (Y / 100.0)%float in
  let B := (2 - A + Math_floor (A / 4.0))%float in
  (Math_floor (365.25 * (Y + 4716)) + Math_floor (30.6001 * (M + 1)) + D + B - 1524.5)%float.

(** [None]: one of the calls of [radiansLong] throws. *)
Definition getSunRaDec (date : Z) : option (float * float) :=
  let jd := getJulianDate date in
  let n := (jd - 2451545.0)%float in
  let L := number_rem (280.460 + 0.9856474 * n)%float 360%float in
  let L := if (L <? 0)%float then (L + 360)%float else L in
  match radiansLong L with
  | None => None
  | Some L =>
  let g := number_rem (357.528 + 0.9856003 * n)%float 360%float in
  let g := if (g <? 0)%float then (g + 360)%float else g in
  match radiansLong g with
  | None => None
  | Some g =>
  match radiansLong 1.915, radiansLong 0.020 with
  | Some c1, Some c2 =>
  let lambda := (L + c1 * Math_sin g + c2 * Math_sin (2 * g))%float in
  match radiansLong (23.439 - 0.0000004 * n)%float with
  | None => None
  | Some epsilon =>
  let alpha := Math_atan2 (Math_cos epsilon * Math_sin lambda)%float (Math_cos lambda) in
  let delta := Math_asin (Math_sin epsilon * Math_sin lambda)%float in
  Some (alpha, delta)
  end
  | _, _ => None
  end
  end
  end.

(** *** TLE string formatting *)

Definition isDigit (c : ascii) : bool :=
  let n := nat_of_ascii c in (48 <=? n)%nat && (n <=? 57)%nat.

Fixpoint checksumSum (line : string) : nat :=
  match line with
  | EmptyString => 0
  | String c rest =>
      (if isDigit c then nat_of_ascii c - 48
       else if Ascii.eqb c "-"%char then 1 else 0) + checksumSum rest
  end.

Definition calculateTLEChecksum (line : string) : nat := checksumSum line mod 10.

Fixpoint repeatChar (c : ascii) (n : nat) : string :=
  match n with
  | O => EmptyString
  | S k => String c (repeatChar c k)
  end.

Definition padStart (str : string) (len : nat) (padChar : ascii) : string :=
  repeatChar padChar (len - String.length str) +:+ str.

Definition padEnd (str : string) (len : nat) (padChar : ascii) : string :=
  str +:+ repeatChar padChar (len - String.length str).

Definition formatStringPadded (str : string) (len : nat) (padChar : ascii) (padAtStart : bool)
    : string :=
  if (len <? String.length str)%nat then String.substring 0 len str
  else if padAtStart then padStart str len padChar else padEnd str len padChar.

(** [s.split('.')[0]] *)
Fixpoint beforeDot (s : string) : string :=
  match s with
  | EmptyString => EmptyString
  | String c rest => if Ascii.eqb c "."%char then EmptyString else String c (beforeDot rest)
  end.

(** [s.slice(-2)] *)
Definition lastTwo (s : string) : string :=
  String.substring (String.length s - 2) 2 s.

Definition formatAngleForTLE (angleDeg : float) : string :=
  let s := toFixed angleDeg 4 in
  let s := if (8 <? String.length s)%nat
           then let s := toFixed angleDeg 3 in
                if (8 <? String.length s)%nat then toFixed angleDeg 2 else s
           else s in
  formatStringPadded s 8 " "%char true.

Definition formatEccentricityForTLE (ecc : float) : string :=
  padStart (numberToString (Math_round (ecc * 1e7)%float)) 7 "0"%char.

Definition formatMeanMotionForTLE (mmRevPerDay : float) : string :=
  let s := toFixed mmRevPerDay 8 in
  let s := if (2 <? String.length (beforeDot s))%nat
           then let s := toFixed mmRevPerDay 7 in
                if (2 <? String.length (beforeDot s))%nat then toFixed mmRevPerDay 6 else s
           else s in
  formatStringPadded s 11 " "%char true.

Definition formatEpochDayForTLE (epochDay : float) : string :=
  formatStringPadded (toFixed epochDay 8) 12 " "%char true.

Record TLEEpoch : Type := { epochyr : Z; epochdays : float; yearForDesignator : Z }.

Definition getTLEEpochDateTimeUTC (date : Z) : TLEEpoch :=
  let year := getUTCFullYear date in
  let epochyr := Z.rem year 100 in
  let startOfYear := Date_UTC year 0 1 in
  let currentTime := date in
  let msInDay := (24 * 60 * 60 * 1000)%Z in
  {| epochyr := epochyr;
     epochdays := (float_of_Z (currentTime - startOfYear) / float_of_Z msInDay + 1.0)%float;
     yearForDesignator := year |}.

Definition TLE_LINE_LENGTH : nat := 69.
Definition DEFAULT_ECCENTRICITY : float := 0.0000001%float.
Definition DEFAULT_ARG_PERIGEE : float := 0.0%float.
Definition DEFAULT_MEAN_ANOMALY : float := 0.0%float.
Definition DEFAULT_EPHEMERIS_TYPE : Z := 0.
Definition DEFAULT_CLASSIFICATION : string := "U".
Definition DEFAULT_ELEMENT_SET_NO : Z := 999.
Definition SAT_NUM_BEACON : string := "99990".
Definition TLE_ZERO_NDOT_STRING : string := " .00000000".
Definition TLE_ZERO_NDDOT_BSTAR_STRING : string := " 00000-0".

Record ParamsForDebug : Type := {
  altitudeKm : float;
  semiMajorAxisKm : float;
  calculatedInclinationDeg : float;
  calculatedRaanDeg : float;
  meanMotionRevPerDay : float;
  sunRaEpochDeg : float
}.

Record TLEStrings : Type := {
  tle1 : string;
  tle2 : string;
  paramsForDebug : ParamsForDebug
}.

(** The inclination and RAAN chosen for each orbit type; [None] where the
    source returns [null]. *)
Definition inclinationAndRaan (beaconParams : BeaconOrbitParams) (sunRaEpochDeg : float)
    : option (float * float) :=
  match beaconParams with
  | SunSynchronous ssoParams =>
      let lstDNAboveEquatorHours := ssoParams.(localSolarTimeAtDescendingNode) in
      if ((lstDNAboveEquatorHours <? 0)%float || (24 <=? lstDNAboveEquatorHours)%float)%bool
      then None
      else
        let lstANHours := number_rem (lstDNAboveEquatorHours + 12)%float 24%float in
        let raanDeg := number_rem (lstANHours * 15.0 + sunRaEpochDeg)%float 360%float in
        let raanDeg := if (raanDeg <? 0)%float then (raanDeg + 360)%float else raanDeg in
        let inclinationDeg :=
          if (ssoParams.(sso_altitude) <? 500)%float then 97.4%float
          else if (1000 <? ssoParams.(sso_altitude))%float then 99.5%float
          else 98.6%float in
        Some (inclinationDeg, raanDeg)
  | NonPolar npParams =>
      let inclinationDeg := npParams.(inclination) in
      if ((inclinationDeg <? 0)%float || (180 <? inclinationDeg)%float)%bool then None
      else
        let raanDeg := match npParams.(raan) with Some r => r | None => 0.0%float end in
        if ((raanDeg <? 0)%float || (360 <=? raanDeg)%float)%bool then None
        else Some (inclinationDeg, raanDeg)
  end.

Definition tleLine1 (epoch : TLEEpoch) : string :=
  let intlDesigYear := lastTwo (pretty epoch.(yearForDesignator)) in
  let intlDesigLaunchNum := "999" in
  let intlDesigPiece := "A" in
  let satNumPadded := formatStringPadded SAT_NUM_BEACON 5 " "%char true in
  let epochYrStr := formatStringPadded (pretty epoch.(epochyr)) 2 "0"%char true in
  let epochDayStr := formatEpochDayForTLE epoch.(epochdays) in
  let elementSetNumPadded :=
    formatStringPadded (pretty DEFAULT_ELEMENT_SET_NO) 4 " "%char true in
  let line1 :=
    "1 " +:+ satNumPadded +:+ DEFAULT_CLASSIFICATION +:+ " "
    +:+ formatStringPadded intlDesigYear 2 "0"%char true
    +:+ formatStringPadded intlDesigLaunchNum 3 "0"%char true
    +:+ formatStringPadded intlDesigPiece 3 " "%char false
    +:+ " " +:+ epochYrStr +:+ epochDayStr +:+ " "
    +:+ TLE_ZERO_NDOT_STRING +:+ " "
    +:+ TLE_ZERO_NDDOT_BSTAR_STRING +:+ " "
    +:+ TLE_ZERO_NDDOT_BSTAR_STRING +:+ " "
    +:+ pretty DEFAULT_EPHEMERIS_TYPE +:+ " "
    +:+ elementSetNumPadded in
  line1 +:+ pretty (calculateTLEChecksum line1).

Definition tleLine2 (inclinationDeg raanDeg meanMotionRevPerDay : float) : string :=
  let satNumPadded := formatStringPadded SAT_NUM_BEACON 5 " "%char true in
  let line2 :=
    "2 " +:+ satNumPadded +:+ " "
    +:+ formatAngleForTLE inclinationDeg +:+ " "
    +:+ formatAngleForTLE raanDeg +:+ " "
    +:+ formatEccentricityForTLE DEFAULT_ECCENTRICITY +:+ " "
    +:+ formatAngleForTLE DEFAULT_ARG_PERIGEE +:+ " "
    +:+ formatAngleForTLE DEFAULT_MEAN_ANOMALY +:+ " "
    +:+ formatMeanMotionForTLE meanMotionRevPerDay
    +:+ formatStringPadded "0" 5 " "%char true in
  line2 +:+ pretty (calculateTLEChecksum line2).

(** [None]: the source returns [null], as it also does from the [catch] of
    its [try] block when [getSunRaDec] throws. *)
Definition createTLEStringsFromBeaconParams (beaconParams : BeaconOrbitParams) (epochDate : Z)
    : option TLEStrings :=
  let epoch := getTLEEpochDateTimeUTC epochDate in
  let altitudeKm := altitude beaconParams in
  if (altitudeKm <=? 0)%float then None
  else
    let semiMajorAxisKm := (RADIUS_EARTH_KM + altitudeKm)%float in
    let meanMotionRadPerSec :=
      PrimFloat.sqrt (GM_EARTH / Math_pow semiMajorAxisKm 3)%float in
    let meanMotionRevPerDay :=
      (meanMotionRadPerSec * (SECONDS_PER_DAY / (2 * Math_PI)))%float in
    match getSunRaDec epochDate with
    | None => None
    | Some sunRaDecEpoch =>
    let sunRaEpochDeg := degreesLong (fst sunRaDecEpoch) in
    match inclinationAndRaan beaconParams sunRaEpochDeg with
    | None => None
    | Some (inclinationDeg, raanDeg) =>
        let line1 := tleLine1 epoch in
        if negb (String.length line1 =? TLE_LINE_LENGTH)%nat then None
        else
          let line2 := tleLine2 inclinationDeg raanDeg meanMotionRevPerDay in
          if negb (String.length line2 =? TLE_LINE_LENGTH)%nat then None
          else
            Some {| tle1 := line1;
                    tle2 := line2;
                    paramsForDebug :=
                      {| altitudeKm := altitudeKm;
                         semiMajorAxisKm := semiMajorAxisKm;
                         calculatedInclinationDeg := inclinationDeg;
                         calculatedRaanDeg := raanDeg;
                         meanMotionRevPerDay := meanMotionRevPerDay;
                         sunRaEpochDeg := sunRaEpochDeg |} |}
    end
    end.

(** [twoline2satrec] on the generated lines, with the error-code check both
    [createSatrecFor...] functions share. *)
Definition satrecFromGeneratedTLE (tleDataResult : TLEStrings) : option SatRec :=
  match twoline2satrec tleDataResult.(tle1) tleDataResult.(tle2) with
  | Some satrec => if decide (satrec_error satrec = 0%Z) then Some satrec else None
  | None => None
  end.

Definition createSatrecForNonPolarBeacon (params : NonPolarOrbitParams) (epoch : Z)
    : option SatRec :=
  if ((params.(np_altitude) <=? 0)%float || (params.(inclination) <? 0)%float
      || (180 <? params.(inclination))%float)%bool then None
  else if match params.(raan) with
          | Some r => ((r <? 0)%float || (360 <=? r)%float)%bool
          | None => false
          end then None
  else
    match createTLEStringsFromBeaconParams (NonPolar params) epoch with
    | None => None
    | Some tleDataResult => satrecFromGeneratedTLE tleDataResult
    end.

Definition createSatrecForSunSynchronousBeacon (params : SunSynchronousOrbitParams) (epoch : Z)
    : option SatRec :=
  if ((params.(sso_altitude) <=? 0)%float
      || (params.(localSolarTimeAtDescendingNode) <? 0)%float
      || (24 <=? params.(localSolarTimeAtDescendingNode))%float)%bool then None
  else
    match createTLEStringsFromBeaconParams (SunSynchronous params) epoch with
    | None => None
    | Some tleDataResult => satrecFromGeneratedTLE tleDataResult
    end.

End OrbitCalculation.

(** ** Simulation data ([types/orbit.ts]) *)

Inductive HandshakeMode : Type := OneWay | BiDirectional.

(** [simulationDurationHours] and [simulationTimeStepSec] are whole numbers
    here: the loop only uses them through [Date] arithmetic, which is exact on
    whole milliseconds.  A run with a fractional duration or time step is not
    covered. *)
Record SimulationConfig : Type := {
  beaconParams : BeaconOrbitParams;
  iridiumFovDeg : float;
  beaconFovDeg : float;
  simulationDurationHours : Z;
  simulationTimeStepSec : Z;
  iridiumDatasetSources : option (list string);
  handshakeMode : HandshakeMode;
  startTimeISO : option string
}.

Record Handshake : Type := {
  hs_timestamp : Z;
  iridiumSatelliteId : string;
  beaconPosition : GeodeticPosition;
  iridiumPosition : GeodeticPosition
}.

(** [endTime] is a [getTime()] of the clock: [None] is NaN. *)
Record BlackoutPeriod : Type := {
  startTime : Z;
  endTime : option Z;
  duration : float
}.

Record SimulationResults : Type := {
  totalHandshakes : nat;
  handshakeLog : list Handshake;
  activeLinksLog : list (gset string);
  blackoutPeriods : list BlackoutPeriod;
  totalBlackoutDuration : float;
  averageBlackoutDuration : float;
  numberOfBlackouts : nat;
  beaconTrack : list SatellitePosition;
  iridiumTracks : gmap string (list SatellitePosition)
}.

(** [services/tleService]: the fetch, awaited in full before the loop. *)
Class TleService : Type := {
  fetchIridiumTLEs : option (list string) -> list TLE
}.

(** ** The simulation engine ([simulationEngine.ts]) *)

(** [ThrewRangeError]: a [toISOString()] of an Invalid Date throws. *)
Inductive Outcome : Type :=
| Threw (message : string)
| ThrewRangeError
| Returned (results : SimulationResults)
| NeverReturns.

Section SimulationEngine.
Context {math : MathHost} {dates : DateHost} {consts : Constants} {sat : SatelliteJs}
        {tles : TleService}.

Record IridiumSatRec : Type := { id : string; rec : SatRec }.

(** The variables of [runSimulation] that live across iterations. *)
Record SimState : Type := {
  currentTime : Z;
  simulationStepCounter : nat;
  st_totalHandshakes : nat;
  st_handshakeLog : list Handshake;
  st_blackoutPeriods : list BlackoutPeriod;
  st_beaconTrack : list SatellitePosition;
  st_iridiumTracks : gmap string (list SatellitePosition);
  st_activeLinksLog : list (gset string);
  previousConnectedIridiumSatIds : gset string;
  currentBlackout : option Z
}.

(** What the loop over the Iridium satellites updates within one step. *)
Record StepAcc : Type := {
  currentConnectedIridiumSatIdsThisStep : gset string;
  beaconIsInCommunicationThisStep : bool;
  acc_totalHandshakes : nat;
  acc_handshakeLog : list Handshake;
  acc_iridiumTracks : gmap string (list SatellitePosition)
}.

Definition halfAngleRad (fovDeg : float) : float :=
  (fovDeg * (Math_PI / 180.0) / 2.0)%float.

Definition origin : Point float := {| x := 0%float; y := 0%float; z := 0%float |}.

(** The value of [canCommunicate] after the cone tests and the occultation
    test. *)
Definition canCommunicate (config : SimulationConfig)
    (beaconCurrentPosEci beaconCurrentVelEci iridiumCurrentPosEci iridiumCurrentVelEci
       : CartesianVector)
    (iridiumSatId : string) : bool :=
  let canCommunicate :=
    match config.(handshakeMode) with
    | OneWay =>
        let iridiumNadirCone :=
          createIridiumCone iridiumCurrentPosEci (halfAngleRad config.(iridiumFovDeg))
            (Some iridiumSatId) in
        isPointInCone beaconCurrentPosEci iridiumNadirCone
    | BiDirectional =>
        let iridiumHorizonCones :=
          createHorizonAlignedAntennaCones iridiumCurrentPosEci iridiumCurrentVelEci
            (halfAngleRad config.(iridiumFovDeg)) (Some (iridiumSatId +:+ "-HScan")) in
        let beaconHorizonCones :=
          createHorizonAlignedAntennaCones beaconCurrentPosEci beaconCurrentVelEci
            (halfAngleRad config.(beaconFovDeg)) (Some "Beacon-HScan") in
        let beaconInIridiumHorizonCone :=
          existsb (isPointInCone beaconCurrentPosEci) iridiumHorizonCones in
        let iridiumInBeaconHorizonCone :=
          if beaconInIridiumHorizonCone
          then existsb (isPointInCone iridiumCurrentPosEci) beaconHorizonCones
          else false in
        beaconInIridiumHorizonCone && iridiumInBeaconHorizonCone
    end in
  if canCommunicate
  then isLineOfSightClear beaconCurrentPosEci iridiumCurrentPosEci origin RADIUS_EARTH_KM
  else false.

Definition mkHandshake (currentTime : Z) (iridiumSatId : string)
    (beaconCurrentGeodetic iridiumCurrentGeodetic : GeodeticPosition) : Handshake :=
  {| hs_timestamp := currentTime;
     iridiumSatelliteId := iridiumSatId;
     beaconPosition := beaconCurrentGeodetic;
     iridiumPosition := iridiumCurrentGeodetic |}.

(** One iteration of [for (const iridiumSat of iridiumSatRecs)]. *)
Definition evaluateIridiumSat (config : SimulationConfig) (currentTime : Z)
    (beaconPropagation : PropagationResult)
    (previousConnectedIridiumSatIds : gset string)
    (acc : StepAcc) (iridiumSat : IridiumSatRec) : StepAcc :=
  match propagateSatellite iridiumSat.(rec) currentTime with
  | None => acc
  | Some iridiumPropagation =>
      let beaconCurrentPosEci := eciToCartesian beaconPropagation.(pr_positionEci) in
      let beaconCurrentVelEci := eciToCartesian beaconPropagation.(pr_velocityEci) in
      let beaconCurrentGeodetic := geodeticToPosition beaconPropagation.(pr_positionGeodetic) in
      let iridiumCurrentPosEci := eciToCartesian iridiumPropagation.(pr_positionEci) in
      let iridiumCurrentVelEci := eciToCartesian iridiumPropagation.(pr_velocityEci) in
      let iridiumCurrentGeodetic := geodeticToPosition iridiumPropagation.(pr_positionGeodetic) in
      let tracks :=
        alter (fun track => track ++ [{| timestamp := currentTime;
                                         positionGeodetic := iridiumCurrentGeodetic;
                                         positionEci := iridiumCurrentPosEci;
                                         velocityEci := iridiumCurrentVelEci |}])
              iridiumSat.(id) acc.(acc_iridiumTracks) in
      if canCommunicate config beaconCurrentPosEci beaconCurrentVelEci
           iridiumCurrentPosEci iridiumCurrentVelEci iridiumSat.(id)
      then
        let isNew := negb (bool_decide (iridiumSat.(id) ∈ previousConnectedIridiumSatIds)) in
        {| currentConnectedIridiumSatIdsThisStep :=
             {[ iridiumSat.(id) ]} ∪ acc.(currentConnectedIridiumSatIdsThisStep);
           beaconIsInCommunicationThisStep := true;
           acc_totalHandshakes :=
             if isNew then S acc.(acc_totalHandshakes) else acc.(acc_totalHandshakes);
           acc_handshakeLog :=
             if isNew
             then acc.(acc_handshakeLog)
                    ++ [mkHandshake currentTime iridiumSat.(id)
                          beaconCurrentGeodetic iridiumCurrentGeodetic]
             else acc.(acc_handshakeLog);
           acc_iridiumTracks := tracks |}
      else
        {| currentConnectedIridiumSatIdsThisStep := acc.(currentConnectedIridiumSatIdsThisStep);
           beaconIsInCommunicationThisStep := acc.(beaconIsInCommunicationThisStep);
           acc_totalHandshakes := acc.(acc_totalHandshakes);
           acc_handshakeLog := acc.(acc_handshakeLog);
           acc_iridiumTracks := tracks |}
  end.

(** [endTimeMs - startTimeMs], where [endTimeMs] may be NaN. *)
Definition elapsedMs (endTimeMs : option Z) (startTimeMs : Z) : float :=
  match endTimeMs with
  | Some endTimeMs => float_of_Z (endTimeMs - startTimeMs)
  | None => nan
  end.

Definition mkBlackout (blackoutStart : Z) (blackoutEnd : option Z) : BlackoutPeriod :=
  {| startTime := blackoutStart;
     endTime := blackoutEnd;
     duration := (elapsedMs blackoutEnd blackoutStart / 1000)%float |}.

Definition timeStepMs (config : SimulationConfig) : Z :=
  (config.(simulationTimeStepSec) * 1000)%Z.

Definition simulationDurationMs (config : SimulationConfig) : Z :=
  (config.(simulationDurationHours) * 60 * 60 * 1000)%Z.

(** A timestep whose Beacon propagation failed: only the clock (and the step
    counter that throttles the console output) move. *)
Definition skipStep (config : SimulationConfig) (st : SimState) : SimState :=
  {| currentTime := st.(currentTime) + timeStepMs config;
     simulationStepCounter := S st.(simulationStepCounter);
     st_totalHandshakes := st.(st_totalHandshakes);
     st_handshakeLog := st.(st_handshakeLog);
     st_blackoutPeriods := st.(st_blackoutPeriods);
     st_beaconTrack := st.(st_beaconTrack);
     st_iridiumTracks := st.(st_iridiumTracks);
     st_activeLinksLog := st.(st_activeLinksLog);
     previousConnectedIridiumSatIds := st.(previousConnectedIridiumSatIds);
     currentBlackout := st.(currentBlackout) |}.

(** A timestep whose Beacon propagation succeeded.  The clock is a valid date
    within the loop: [now] is its time value. *)
Definition evaluateStep (config : SimulationConfig) (iridiumSatRecs : list IridiumSatRec)
    (beaconPropagation : PropagationResult) (st : SimState) : SimState :=
  let now := st.(currentTime) in
  let beaconEntry :=
    {| timestamp := now;
       positionGeodetic := geodeticToPosition beaconPropagation.(pr_positionGeodetic);
       positionEci := eciToCartesian beaconPropagation.(pr_positionEci);
       velocityEci := eciToCartesian beaconPropagation.(pr_velocityEci) |} in
  let acc :=
    fold_left
      (evaluateIridiumSat config now beaconPropagation st.(previousConnectedIridiumSatIds))
      iridiumSatRecs
      {| currentConnectedIridiumSatIdsThisStep := ∅;
         beaconIsInCommunicationThisStep := false;
         acc_totalHandshakes := st.(st_totalHandshakes);
         acc_handshakeLog := st.(st_handshakeLog);
         acc_iridiumTracks := st.(st_iridiumTracks) |} in
  {| currentTime := now + timeStepMs config;
     simulationStepCounter := S st.(simulationStepCounter);
     st_totalHandshakes := acc.(acc_totalHandshakes);
     st_handshakeLog := acc.(acc_handshakeLog);
     st_blackoutPeriods :=
       if acc.(beaconIsInCommunicationThisStep)
       then match st.(currentBlackout) with
            | Some blackoutStart =>
                st.(st_blackoutPeriods) ++ [mkBlackout blackoutStart (Some now)]
            | None => st.(st_blackoutPeriods)
            end
       else st.(st_blackoutPeriods);
     st_beaconTrack := st.(st_beaconTrack) ++ [beaconEntry];
     st_iridiumTracks := acc.(acc_iridiumTracks);
     st_activeLinksLog :=
       st.(st_activeLinksLog) ++ [acc.(currentConnectedIridiumSatIdsThisStep)];
     previousConnectedIridiumSatIds := acc.(currentConnectedIridiumSatIdsThisStep);
     currentBlackout :=
       if acc.(beaconIsInCommunicationThisStep) then None
       else match st.(currentBlackout) with
            | Some blackoutStart => Some blackoutStart
            | None => Some now
            end |}.

(** The body of [while (currentTime <= endTime)]. *)
Definition simulationStep (config : SimulationConfig) (beaconSatRec : SatRec)
    (iridiumSatRecs : list IridiumSatRec) (st : SimState) : SimState :=
  match propagateSatellite beaconSatRec st.(currentTime) with
  | None => skipStep config st
  | Some beaconPropagation => evaluateStep config iridiumSatRecs beaconPropagation st
  end.

(** The loop, run for at most [fuel] iterations. *)
Fixpoint simulationLoop (fuel : nat) (config : SimulationConfig) (beaconSatRec : SatRec)
    (iridiumSatRecs : list IridiumSatRec) (endTime : Z) (st : SimState) : option SimState :=
  if dateLeb st.(currentTime) endTime then
    match fuel with
    | O => None
    | S fuel' =>
        simulationLoop fuel' config beaconSatRec iridiumSatRecs endTime
          (simulationStep config beaconSatRec iridiumSatRecs st)
    end
  else Some st.

(** Iterations after which a loop with a positive time step has passed
    [endTime], and one with a negative time step has left the range of valid
    dates. *)
Definition loopFuel (startTime endTime step : Z) : nat :=
  if (0 <? step)%Z then Z.to_nat ((endTime - startTime) / step + 1)
  else Z.to_nat ((startTime + maxTimeValue) / (- step) + 1).

(** [iridiumTracks[isat.id] = []] for each satellite: a read of
    [iridiumTracks[isat.id]] then gives the empty track, which is what the map
    records. *)
Definition initialState (startTime : Z) (iridiumSatRecs : list IridiumSatRec) : SimState :=
  {| currentTime := startTime;
     simulationStepCounter := 0;
     st_totalHandshakes := 0;
     st_handshakeLog := [];
     st_blackoutPeriods := [];
     st_beaconTrack := [];
     st_iridiumTracks :=
       fold_left (fun tracks isat => <[ isat.(id) := [] ]> tracks) iridiumSatRecs ∅;
     st_activeLinksLog := [];
     previousConnectedIridiumSatIds := ∅;
     currentBlackout := None |}.

(** "Finalize last blackout period" and "Calculate Final Results". *)
Definition finalResults (st : SimState) : SimulationResults :=
  let blackoutPeriods :=
    match st.(currentBlackout) with
    | Some blackoutStart =>
        st.(st_blackoutPeriods) ++ [mkBlackout blackoutStart (getTime st.(currentTime))]
    | None => st.(st_blackoutPeriods)
    end in
  let totalBlackoutDuration :=
    fold_left (fun total p => (total + p.(duration))%float) blackoutPeriods 0%float in
  let numberOfBlackouts := length blackoutPeriods in
  let averageBlackoutDuration :=
    if (0 <? numberOfBlackouts)%nat
    then (totalBlackoutDuration / float_of_Z (Z.of_nat numberOfBlackouts))%float
    else 0%float in
  {| totalHandshakes := st.(st_totalHandshakes);
     handshakeLog := st.(st_handshakeLog);
     activeLinksLog := st.(st_activeLinksLog);
     blackoutPeriods := blackoutPeriods;
     totalBlackoutDuration := totalBlackoutDuration;
     averageBlackoutDuration := averageBlackoutDuration;
     numberOfBlackouts := numberOfBlackouts;
     beaconTrack := st.(st_beaconTrack);
     iridiumTracks := st.(st_iridiumTracks) |}.

Definition initializeBeacon (config : SimulationConfig) (startTime : Z) : option SatRec :=
  match config.(beaconParams) with
  | SunSynchronous p => createSatrecForSunSynchronousBeacon p startTime
  | NonPolar p => createSatrecForNonPolarBeacon p startTime
  end.

Definition initializeIridium (iridiumTLEs : list TLE) : list IridiumSatRec :=
  omap (fun tle => match initializeSatrecFromTLE tle with
                   | Some r => Some {| id := tle.(name); rec := r |}
                   | None => None
                   end) iridiumTLEs.

(** The source prints [startTime.toISOString()] on entry, and
    [endTime.toISOString()] before the loop. *)
Definition runSimulation (config : SimulationConfig) (startTime : Z) : Outcome :=
  if negb (validTime startTime) then ThrewRangeError
  else
  match initializeBeacon config startTime with
  | None =>
      Threw "Failed to initialize Beacon satellite record. Check console for TLE generation or SatRec initialization errors."
  | Some beaconSatRec =>
      let iridiumTLEs := fetchIridiumTLEs config.(iridiumDatasetSources) in
      if (length iridiumTLEs =? 0)%nat then
        Threw "No Iridium TLEs fetched. Ensure TLE service is working and datasets are selected."
      else
        let iridiumSatRecs := initializeIridium iridiumTLEs in
        if (length iridiumSatRecs =? 0)%nat then
          Threw "Failed to initialize any Iridium SatRecs. Check TLE parsing and SatRec initialization logs."
        else
          let endTime := (startTime + simulationDurationMs config)%Z in
          if negb (validTime endTime) then ThrewRangeError
          else
            match simulationLoop (loopFuel startTime endTime (timeStepMs config))
                    config beaconSatRec iridiumSatRecs endTime
                    (initialState startTime iridiumSatRecs) with
            | Some st => Returned (finalResults st)
            | None => NeverReturns
            end
  end.

End SimulationEngine.

(** ** Orbit track ([getOrbitTrack], utils/orbitCalculation.ts) *)

Section OrbitTrack.
Context {sat : SatelliteJs}.

(** The loop of [getOrbitTrack], run for at most [fuel] iterations. *)
Fixpoint orbitTrackLoop (fuel : nat) (satrec : SatRec) (endTime timeStep : Z)
    (currentTime : Z) (track : list SatellitePosition) : option (list SatellitePosition) :=
  if dateLeb currentTime endTime then
    match fuel with
    | O => None
    | S fuel' =>
        let track :=
          match propagateSatellite satrec currentTime with
          | Some propagationResult =>
              track ++ [{| timestamp := currentTime;
                           positionGeodetic :=
                             geodeticToPosition propagationResult.(pr_positionGeodetic);
                           positionEci := eciToCartesian propagationResult.(pr_positionEci);
                           velocityEci := eciToCartesian propagationResult.(pr_velocityEci) |}]
          | None => track
          end in
        orbitTrackLoop fuel' satrec endTime timeStep (currentTime + timeStep) track
    end
  else Some track.

(** [None]: the loop never exits.  The duration (hours) and the time step
    (minutes) are whole numbers, as those of a run are. *)
Definition getOrbitTrack (satrec : SatRec) (startTime durationHours timeStepMinutes : Z)
    : option (list SatellitePosition) :=
  let endTime := (startTime + durationHours * 60 * 60 * 1000)%Z in
  orbitTrackLoop (loopFuel startTime endTime (timeStepMinutes * 60 * 1000))
    satrec endTime (timeStepMinutes * 60 * 1000) startTime [].

End OrbitTrack.

(** ** TLE service ([services/tleService.ts])

    Text is a string of characters below 256 (a TLE file is ASCII). *)

Module tleService.

Definition IRIDIUM_TLE_URL : string :=
  "https://celestrak.org/NORAD/elements/gp.php?GROUP=iridium&FORMAT=tle".
Definition IRIDIUM_NEXT_TLE_URL : string :=
  "https://celestrak.org/NORAD/elements/gp.php?GROUP=iridium-next&FORMAT=tle".

(** [axios.get(url)]: the text of the response, or [None] when the request
    throws.  The first argument counts the requests of a call: two requests to
    the same address need not be answered alike. *)
Class Axios : Type := {
  axios_get : nat -> string -> option string
}.

(** The characters [String.prototype.trim] removes: TAB, LF, VT, FF, CR, SP and
    NBSP. *)
Definition isWhiteSpace (c : ascii) : bool :=
  let n := nat_of_ascii c in
  (n =? 9)%nat || (n =? 10)%nat || (n =? 11)%nat || (n =? 12)%nat || (n =? 13)%nat
  || (n =? 32)%nat || (n =? 160)%nat.

Fixpoint trimStart (s : string) : string :=
  match s with
  | EmptyString => EmptyString
  | String c rest => if isWhiteSpace c then trimStart rest else s
  end.

Fixpoint trimEnd (s : string) : string :=
  match s with
  | EmptyString => EmptyString
  | String c rest =>
      match trimEnd rest with
      | EmptyString => if isWhiteSpace c then EmptyString else String c EmptyString
      | kept => String c kept
      end
  end.

Definition trim (s : string) : string := trimEnd (trimStart s).

(** [s.startsWith(p)] *)
Definition startsWith (s p : string) : bool := String.prefix p s.

Definition LF : ascii := ascii_of_nat 10.
Definition CR : ascii := ascii_of_nat 13.

(** [s.split(/\r?\n/)] *)
Fixpoint splitLines (s : string) : list string :=
  match s with
  | EmptyString => [EmptyString]
  | String c rest =>
      if Ascii.eqb c LF then EmptyString :: splitLines rest
      else
        match rest with
        | String c' rest' =>
            if Ascii.eqb c CR && Ascii.eqb c' LF then EmptyString :: splitLines rest'
            else match splitLines rest with
                 | line :: lines => String c line :: lines
                 | [] => [String c EmptyString]
                 end
        | EmptyString => [String c EmptyString]
        end
  end.

(** The loop of [parseTleFile], on the lines from index [i] on. *)
Fixpoint parseTleLines (lines : list string) : list TLE :=
  match lines with
  | [] => []
  | line :: rest =>
      let nameLine := trim line in
      if String.eqb nameLine "" || startsWith nameLine "1 " || startsWith nameLine "2 "
         || startsWith nameLine "<"
      then parseTleLines rest
      else
        match rest with
        | next1 :: next2 :: rest' =>
            let line1 := trim next1 in
            let line2 := trim next2 in
            if negb (String.eqb line1 "") && startsWith line1 "1 "
               && (String.length line1 =? 69)%nat
               && negb (String.eqb line2 "") && startsWith line2 "2 "
               && (String.length line2 =? 69)%nat
            then {| name := nameLine; line1 := line1; line2 := line2 |} :: parseTleLines rest'
            else parseTleLines rest
        | _ => []
        end
  end.

Definition parseTleFile (tleFileContent : string) : list TLE :=
  if String.eqb tleFileContent "" then []
  else parseTleLines (splitLines (trim tleFileContent)).

Definition fallbackTle : TLE :=
  {| name := "IRIDIUM 1 (FALLBACK)";
     line1 := "1 24792U 97020A   24150.50000000  .00000000  00000-0  00000-0 0  9999";
     line2 := "2 24792  86.4000   0.0000 0001000   0.0000   0.0000 14.34160000  00006" |}.

Section Fetch.
Context {axios : Axios}.

Record FetchState : Type := {
  allTles : list TLE;
  hasSuccessfullyFetchedAnyData : bool
}.

(** One iteration of [for (const dataset of datasetsToFetch)], the [n]-th. *)
Definition fetchDataset (n : nat) (st : FetchState) (dataset : string) : FetchState :=
  let url := if String.eqb dataset "IRIDIUM" then IRIDIUM_TLE_URL else IRIDIUM_NEXT_TLE_URL in
  match axios_get n url with
  | Some data =>
      let parsedTles := parseTleFile data in
      if (0 <? length parsedTles)%nat
      then {| allTles := st.(allTles) ++ parsedTles; hasSuccessfullyFetchedAnyData := true |}
      else st
  | None => st
  end.

Fixpoint fetchDatasets (n : nat) (datasets : list string) (st : FetchState) : FetchState :=
  match datasets with
  | [] => st
  | dataset :: rest => fetchDatasets (S n) rest (fetchDataset n st dataset)
  end.

Definition fetchIridiumTLEs (datasetsToFetch : option (list string)) : list TLE :=
  let datasetsToFetch := default ["IRIDIUM"; "IRIDIUM-NEXT"] datasetsToFetch in
  let st := fetchDatasets 0 datasetsToFetch
              {| allTles := []; hasSuccessfullyFetchedAnyData := false |} in
  if negb st.(hasSuccessfullyFetchedAnyData) && (length st.(allTles) =? 0)%nat
  then [fallbackTle]
  else st.(allTles).

End Fetch.

End tleService.

(** The service the application runs with. *)
Definition celestrak {axios : tleService.Axios} : TleService :=
  {| fetchIridiumTLEs := tleService.fetchIridiumTLEs |}.

(** ** The input form ([components/OrbitInputForm.tsx]) *)

Module OrbitInputForm.

(** [parseFloat], a host function. *)
Class NumberParsing : Type := {
  parseFloat : string -> float
}.

Inductive OrbitType : Type := OrbitType_SunSynchronous | OrbitType_NonPolar.

(** The configuration handed to [onSubmit].  The numbers are as parsed; the
    start time is the text of its field. *)
Record FullConfig : Type := {
  beaconParams : BeaconOrbitParams;
  iridiumFovDeg : float;
  beaconFovDeg : float;
  simulationDurationHours : float;
  simulationTimeStepSec : float;
  iridiumDatasetSources : list string;
  handshakeMode : HandshakeMode;
  startTimeISO : string
}.

(** What [handleSubmit] ends with: an [alert] and nothing else, or a call of
    [onSubmit]. *)
Inductive Submission : Type :=
| Alert (message : string)
| Submit (fullConfig : FullConfig).

(** The updater [handleDatasetChange] passes to [setSelectedDatasets]. *)
Definition handleDatasetChange (dataset : string) (prev : list string) : list string :=
  if bool_decide (dataset ∈ prev)
  then filter (fun d => d <> dataset) prev
  else prev ++ [dataset].

Section State.
Context {parsing : NumberParsing}.
(** The state of the component. *)
Variables (orbitType : OrbitType)
          (altitude inclination localSolarTime : string)
          (iridiumFovDeg beaconFovDeg : string)
          (simulationDurationHours simulationTimeStepSec simulationStartTime : string)
          (selectedDatasets : list string)
          (handshakeMode : HandshakeMode).

Definition handleSubmit : Submission :=
  let altNum := parseFloat altitude in
  let iridiumFovNum := parseFloat iridiumFovDeg in
  let beaconFovNum := parseFloat beaconFovDeg in
  let durationNum := parseFloat simulationDurationHours in
  let timeStepNum := parseFloat simulationTimeStepSec in
  if is_nan altNum || (altNum <=? 0)%float
  then Alert "Please enter a valid positive altitude."
  else if is_nan iridiumFovNum || (iridiumFovNum <=? 0)%float || (180 <? iridiumFovNum)%float
  then Alert "Please enter a valid Iridium FOV (1-180 degrees)."
  else if is_nan beaconFovNum || (beaconFovNum <=? 0)%float || (180 <? beaconFovNum)%float
  then Alert "Please enter a valid Beacon FOV (1-180 degrees)."
  else if is_nan durationNum || (durationNum <=? 0)%float
  then Alert "Please enter a valid positive simulation duration."
  else if is_nan timeStepNum || (timeStepNum <=? 0)%float
  then Alert "Please enter a valid positive simulation time step."
  else if (length selectedDatasets =? 0)%nat
  then Alert "Please select at least one Iridium dataset source."
  else
    let submit (beaconParams : BeaconOrbitParams) :=
      Submit (Build_FullConfig beaconParams iridiumFovNum beaconFovNum durationNum
                timeStepNum selectedDatasets handshakeMode simulationStartTime) in
    match orbitType with
    | OrbitType_SunSynchronous =>
        let lstNum := parseFloat localSolarTime in
        if is_nan lstNum || (lstNum <? 0)%float || (24 <=? lstNum)%float
        then Alert "Please enter a valid Local Solar Time (0-23.99)."
        else submit (SunSynchronous (Build_SunSynchronousOrbitParams altNum lstNum))
    | OrbitType_NonPolar =>
        let incNum := parseFloat inclination in
        if is_nan incNum || (incNum <? 0)%float || (180 <? incNum)%float
        then Alert "Please enter a valid inclination (0-180 degrees)."
        else submit (NonPolar (Build_NonPolarOrbitParams altNum incNum None))
    end.

End State.

End OrbitInputForm.

(** ** The connections panel ([components/CurrentConnectionsPanel.tsx]) *)

Module CurrentConnectionsPanel.

(** The order of [Array.prototype.sort] without a comparison function, on
    strings of characters below 256. *)
Definition stringLe (a b : string) : Prop := String.leb a b = true.

#[export] Instance stringLe_dec (a b : string) : Decision (stringLe a b).
Proof. unfold stringLe. apply _. Defined.

Definition sort (ids : list string) : list string := merge_sort stringLe ids.

Definition activeLinksAtCurrentTime (results : option SimulationResults)
    (currentTimeIndex : nat) : gset string :=
  match results with
  | Some results => default ∅ (results.(activeLinksLog) !! currentTimeIndex)
  | None => ∅
  end.

Record ConnectionSets : Type := {
  everConnectedOverall : gset string;
  connectedBeforeCurrentTime : gset string
}.

(** The loop over [results.activeLinksLog]. *)
Definition scanActiveLinksLog (currentTimeIndex : nat) (activeLinksLog : list (gset string))
    : ConnectionSets :=
  fold_left
    (fun sets '(i, linksAt_i) =>
       {| everConnectedOverall := sets.(everConnectedOverall) ∪ linksAt_i;
          connectedBeforeCurrentTime :=
            if (i <? currentTimeIndex)%nat
            then sets.(connectedBeforeCurrentTime) ∪ linksAt_i
            else sets.(connectedBeforeCurrentTime) |})
    (imap pair activeLinksLog)
    {| everConnectedOverall := ∅; connectedBeforeCurrentTime := ∅ |}.

(** [Object.keys(results.iridiumTracks)]: each key once.  Their order does
    not show, both lists made of them being sorted. *)
Definition allIridiumIds (results : SimulationResults) : list string :=
  elements (dom results.(iridiumTracks)).

Definition previouslyConnectedIds (results : option SimulationResults) (currentTimeIndex : nat)
    : list string :=
  match results with
  | Some r =>
      let sets := scanActiveLinksLog currentTimeIndex r.(activeLinksLog) in
      sort (filter (fun id => (id ∉ activeLinksAtCurrentTime results currentTimeIndex)
                              /\ (id ∈ sets.(connectedBeforeCurrentTime)))
                   (allIridiumIds r))
  | None => []
  end.

Definition neverConnectedIds (results : option SimulationResults) (currentTimeIndex : nat)
    : list string :=
  match results with
  | Some r =>
      let sets := scanActiveLinksLog currentTimeIndex r.(activeLinksLog) in
      sort (filter (fun id => id ∉ sets.(everConnectedOverall)) (allIridiumIds r))
  | None => []
  end.

End CurrentConnectionsPanel.

(** ** The log buffer ([contexts/LogContext.tsx], [components/ConsolePanel.tsx]) *)

Module LogContext.

Inductive LogType : Type := log | warn | error | info | debug.

Section Logs.
(** The type of what is passed to [console.log] and the like. *)
Variable Any : Type.

Record LogEntry : Type := {
  id : string;
  timestamp : Z;
  type : LogType;
  messages : list Any
}.

(** [logs.slice(0, n)] *)
Definition slice0 (n : nat) (logs : list LogEntry) : list LogEntry := take n logs.

(** The updater [addLog] passes to [setLogs], for the entry it has made. *)
Definition addLog (maxLogs : nat) (newLog : LogEntry) (prevLogs : list LogEntry)
    : list LogEntry :=
  let updatedLogs := newLog :: prevLogs in
  if (maxLogs <? length updatedLogs)%nat then slice0 maxLogs updatedLogs else updatedLogs.

Definition clearLogs : list LogEntry := [].

(** [displayedLogs] of the console panel. *)
Definition displayedLogs (maxDisplayedLogs : nat) (logs : list LogEntry) : list LogEntry :=
  slice0 maxDisplayedLogs logs.

End Logs.

End LogContext.

(** ** Handshake markers of the map ([components/SatVisualization.tsx]) *)

Module SatVisualization.

Record TimeRange : Type := { range_start : nat; range_end : nat }.

(** The handshakes a marker is drawn for.  [currentTimestamp] is the
    timestamp of the Beacon track entry at the current index; when there is no
    such entry the comparison with it fails for every handshake. *)
Definition handshakeMarkers (showHandshakeMarkers : bool) (results : SimulationResults)
    (currentTimeIndex : nat) (selectedTimeRange : TimeRange) : list Handshake :=
  let currentTimestamp := timestamp <$> results.(beaconTrack) !! currentTimeIndex in
  if showHandshakeMarkers && (0 <? length results.(beaconTrack))%nat then
    let rangeStartTime :=
      timestamp <$> results.(beaconTrack) !! selectedTimeRange.(range_start) in
    let rangeEndTime :=
      timestamp <$> results.(beaconTrack) !! selectedTimeRange.(range_end) in
    match rangeStartTime, rangeEndTime with
    | Some rangeStartTime, Some rangeEndTime =>
        filter (fun h => (rangeStartTime <= h.(hs_timestamp))%Z
                         /\ (h.(hs_timestamp) <= rangeEndTime)%Z)
               results.(handshakeLog)
    | _, _ =>
        match currentTimestamp with
        | Some currentTimestamp =>
            filter (fun h => (h.(hs_timestamp) <= currentTimestamp)%Z) results.(handshakeLog)
        | None => []
        end
    end
  else [].

End SatVisualization.

(** The time range [App] selects when a run has returned with a track that
    is not empty ([handleFormSubmit]). *)
Definition fullTimeRange (results : SimulationResults) : SatVisualization.TimeRange :=
  {| SatVisualization.range_start := 0;
     SatVisualization.range_end := length results.(beaconTrack) - 1 |}.

(** * Properties *)

Definition pt (a b c : float) : Point float := mkVec3 a b c.

(** ** The embedding on concrete inputs *)

(** At [float], the occultation test reads as the source does. *)
Lemma isLineOfSightClear_float (point1 point2 earthCenter : Point float) (earthRadius : float) :
  isLineOfSightClear point1 point2 earthCenter earthRadius
  = (let dx := point2.(x) - point1.(x) in
     let dy := point2.(y) - point1.(y) in
     let dz := point2.(z) - point1.(z) in
     let fx := point1.(x) - earthCenter.(x) in
     let fy := point1.(y) - earthCenter.(y) in
     let fz := point1.(z) - earthCenter.(z) in
     let a := dx * dx + dy * dy + dz * dz in
     let b := 2 * (fx * dx + fy * dy + fz * dz) in
     let c := fx * fx + fy * fy + fz * fz - earthRadius * earthRadius in
     let discriminant := b * b - 4 * a * c in
     if discriminant <? 0 then true
     else
       let root := PrimFloat.sqrt discriminant in
       let t1 := (- b - root) / (2 * a) in
       let t2 := (- b + root) / (2 * a) in
       if ((0 <=? t1) && (t1 <=? 1)) || ((0 <=? t2) && (t2 <=? 1)) then
         let p1DistSq := fx * fx + fy * fy + fz * fz in
         let p2x := point2.(x) - earthCenter.(x) in
         let p2y := point2.(y) - earthCenter.(y) in
         let p2z := point2.(z) - earthCenter.(z) in
         let p2DistSq := p2x * p2x + p2y * p2y + p2z * p2z in
         let rSq := earthRadius * earthRadius in
         if ((p1DistSq <? rSq) && (rSq <? p2DistSq)) || ((rSq <? p1DistSq) && (p2DistSq <? rSq))
         then false
         else if (rSq <? p1DistSq) && (rSq <? p2DistSq) then false
         else if (p1DistSq <=? rSq) && (p2DistSq <=? rSq) then true
         else false
       else true)%float.
Proof. reflexivity. Qed.

(** The checksum of two lines of a published element set (ISS, 2008). *)
Example calculateTLEChecksum_iss :
  calculateTLEChecksum "1 25544U 98067A   08264.51782528 -.00002182  00000-0 -11606-4 0  292" = 7
  /\ calculateTLEChecksum "2 25544  51.6416 247.4627 0006703 130.5360 325.0288 15.7212539156353" = 7.
Proof. split; reflexivity. Qed.

Example formatStringPadded_cases :
  formatStringPadded "A" 3 " "%char false = "A  "
  /\ formatStringPadded "999" 4 " "%char true = " 999"
  /\ formatStringPadded "12345678901" 8 " "%char true = "12345678"
  /\ lastTwo "2025" = "25".
Proof. repeat split. Qed.

Example clamp_cases :
  Math_max (-1) (Math_min 1 nan) = nan
  /\ Math_max (-1) (Math_min 1 2) = 1%float
  /\ Math_max (-1) (Math_min 1 (-3)) = (-1)%float
  /\ Math_max (-1) (Math_min 1 0.25) = 0.25%float.
Proof. repeat split. Qed.

(** ** Facts about binary64 comparisons *)

Section FloatOrder.
Import SpecFloat.

Lemma SFcompare_antisym (a b : spec_float) :
  SFcompare b a = option_map CompOpp (SFcompare a b).
Proof.
  destruct a as [sa|sa| |sa ma ea], b as [sb|sb| |sb mb eb]; simpl;
    try reflexivity;
    try (destruct sa; reflexivity);
    try (destruct sb; reflexivity);
    try (destruct sa, sb; reflexivity).
  f_equal.
  assert (Hm : Pos.compare_cont Eq mb ma = CompOpp (Pos.compare_cont Eq ma mb))
    by (rewrite Pos.compare_cont_antisym; reflexivity).
  destruct sa, sb; simpl; try reflexivity;
    rewrite (Z.compare_antisym ea eb);
    destruct (ea ?= eb)%Z; simpl; try reflexivity;
    rewrite Hm; destruct (Pos.compare_cont Eq ma mb); reflexivity.
Qed.

Lemma float_leb_not_gtb (a b : float) :
  PrimFloat.leb a b = true -> PrimFloat.ltb b a = false.
Proof.
  rewrite leb_spec, ltb_spec. unfold SFleb, SFltb.
  rewrite (SFcompare_antisym (Prim2SF a) (Prim2SF b)).
  destruct (SFcompare (Prim2SF a) (Prim2SF b)) as [[ | | ]|]; simpl; congruence.
Qed.

Lemma float_ltb_leb (a b : float) :
  PrimFloat.ltb a b = true -> PrimFloat.leb a b = true.
Proof.
  rewrite leb_spec, ltb_spec. unfold SFleb, SFltb.
  destruct (SFcompare (Prim2SF a) (Prim2SF b)) as [[ | | ]|]; simpl; congruence.
Qed.

Lemma float_eqb_leb (a b : float) :
  PrimFloat.eqb a b = true -> PrimFloat.leb a b = true.
Proof.
  rewrite leb_spec, eqb_spec. unfold SFleb, SFeqb.
  destruct (SFcompare (Prim2SF a) (Prim2SF b)) as [[ | | ]|]; simpl; congruence.
Qed.

Lemma SFcompare_some (a b : spec_float) :
  a <> S754_nan -> b <> S754_nan -> exists c, SFcompare a b = Some c.
Proof.
  intros Ha Hb.
  destruct a as [sa|sa| |sa ma ea], b as [sb|sb| |sb mb eb];
    try congruence; simpl; eauto.
Qed.

Lemma float_not_nan (a : float) : is_nan a = false -> Prim2SF a <> S754_nan.
Proof.
  unfold is_nan. rewrite eqb_spec. unfold SFeqb. intros H E.
  rewrite E in H. simpl in H. discriminate.
Qed.

Lemma float_ltb_not_nan (a b : float) :
  PrimFloat.ltb a b = true -> is_nan a = false /\ is_nan b = false.
Proof.
  unfold is_nan. rewrite ltb_spec, !eqb_spec. unfold SFltb, SFeqb.
  destruct (Prim2SF a) as [sa|sa| |sa ma ea], (Prim2SF b) as [sb|sb| |sb mb eb];
    simpl; try discriminate; intros _;
    rewrite ?Z.compare_refl, ?Pos.compare_cont_refl;
    repeat match goal with s : bool |- _ => destruct s end; split; reflexivity.
Qed.

(** Two numbers, neither NaN and neither below the other, compare equal. *)
Lemma float_not_lt_leb (a b : float) :
  is_nan a = false -> is_nan b = false ->
  PrimFloat.ltb a b = false -> PrimFloat.ltb b a = false ->
  PrimFloat.leb a b = true /\ PrimFloat.leb b a = true.
Proof.
  intros Ha Hb. apply float_not_nan in Ha, Hb.
  rewrite !ltb_spec, !leb_spec. unfold SFltb, SFleb.
  rewrite (SFcompare_antisym (Prim2SF a) (Prim2SF b)).
  destruct (SFcompare_some Ha Hb) as [c ->].
  destruct c; simpl; intros; split; congruence.
Qed.

(** The same facts, read at the [Number] instance. *)
Lemma num_leb_not_gtb (a b : float) : num_leb a b = true -> num_ltb b a = false.
Proof. exact (@float_leb_not_gtb a b). Qed.
End FloatOrder.

(** ** The decision table of the occultation test *)

Section DecisionTable.
Local Open Scope num_scope.
Variables (point1 point2 earthCenter : Point float) (earthRadius : float).

Let disc := losDiscriminant point1 point2 earthCenter earthRadius.
Let t1 := losT1 point1 point2 earthCenter earthRadius.
Let t2 := losT2 point1 point2 earthCenter earthRadius.
Let p1DistSq := distSq point1 earthCenter.
Let p2DistSq := distSq point2 earthCenter.
Let rSq := earthRadius * earthRadius.

(** The source function, read through the named quantities. *)
Lemma isLineOfSightClear_unfold :
  isLineOfSightClear point1 point2 earthCenter earthRadius =
  if disc <? num_lit 0 then true
  else if onSegment t1 || onSegment t2 then endpointVerdict p1DistSq p2DistSq rSq
  else true.
Proof. reflexivity. Qed.

(** The four rows of the endpoint test. *)
Definition oneInsideOneOutside : bool :=
  ((p1DistSq <? rSq) && (p2DistSq >? rSq)) || ((p1DistSq >? rSq) && (p2DistSq <? rSq)).
Definition bothOutside : bool := (p1DistSq >? rSq) && (p2DistSq >? rSq).
Definition bothInsideOrOn : bool := (p1DistSq <=? rSq) && (p2DistSq <=? rSq).

Lemma endpointVerdict_rows :
  (oneInsideOneOutside = true -> endpointVerdict p1DistSq p2DistSq rSq = false)
  /\ (bothOutside = true -> endpointVerdict p1DistSq p2DistSq rSq = false)
  /\ (bothInsideOrOn = true -> endpointVerdict p1DistSq p2DistSq rSq = true)
  /\ (oneInsideOneOutside = false -> bothOutside = false -> bothInsideOrOn = false ->
      endpointVerdict p1DistSq p2DistSq rSq = false).
Proof.
  unfold oneInsideOneOutside, bothOutside, bothInsideOrOn, endpointVerdict.
  repeat split.
  - intros ->. reflexivity.
  - intros ->. destruct (_ || _); reflexivity.
  - intros H. apply andb_prop in H. destruct H as [H1 H2].
    rewrite (num_leb_not_gtb H1), (num_leb_not_gtb H2), H1, H2.
    rewrite !andb_false_r. reflexivity.
  - intros -> -> ->. reflexivity.
Qed.
End DecisionTable.

(** C1.  [isLineOfSightClear] follows the decision table: clear when the
    discriminant is negative; clear when neither intersection parameter lies in
    [0,1]; and, when one does, blocked if one endpoint is strictly inside and the
    other strictly outside, blocked if both are strictly outside, clear if both
    are inside or on the surface, blocked in every remaining case. *)
Theorem isLineOfSightClear_decision_table
    (point1 point2 earthCenter : Point float) (earthRadius : float) :
  let disc := losDiscriminant point1 point2 earthCenter earthRadius in
  let t1 := losT1 point1 point2 earthCenter earthRadius in
  let t2 := losT2 point1 point2 earthCenter earthRadius in
  let result := isLineOfSightClear point1 point2 earthCenter earthRadius in
  (PrimFloat.ltb disc 0 = true -> result = true)
  /\ (PrimFloat.ltb disc 0 = false -> onSegment t1 = false -> onSegment t2 = false ->
      result = true)
  /\ (PrimFloat.ltb disc 0 = false -> onSegment t1 || onSegment t2 = true ->
      (oneInsideOneOutside point1 point2 earthCenter earthRadius = true -> result = false)
      /\ (bothOutside point1 point2 earthCenter earthRadius = true -> result = false)
      /\ (bothInsideOrOn point1 point2 earthCenter earthRadius = true -> result = true)
      /\ (oneInsideOneOutside point1 point2 earthCenter earthRadius = false ->
          bothOutside point1 point2 earthCenter earthRadius = false ->
          bothInsideOrOn point1 point2 earthCenter earthRadius = false ->
          result = false)).
Proof.
  intros disc t1 t2 result. subst result.
  rewrite isLineOfSightClear_unfold. fold disc t1 t2.
  change (num_ltb disc (num_lit 0)) with (PrimFloat.ltb disc 0).
  split; [|split].
  - intros ->. reflexivity.
  - intros -> -> ->. reflexivity.
  - intros -> ->. apply endpointVerdict_rows.
Qed.

(** One concrete segment for each row of the table, around the unit sphere at
    the origin: a segment that misses the line's intersections altogether, one
    beyond them, one leaving the sphere from its centre, one through the sphere,
    one from the surface to the centre, and one from the surface outwards. *)
Lemma isLineOfSightClear_decision_table_witness :
  isLineOfSightClear (pt (-3) 2 0) (pt 3 2 0) origin 1%float = true
  /\ isLineOfSightClear (pt 2 0 0) (pt 3 0 0) origin 1%float = true
  /\ isLineOfSightClear (pt 0 0 0) (pt 3 0 0) origin 1%float = false
  /\ isLineOfSightClear (pt (-3) 0 0) (pt 3 0 0) origin 1%float = false
  /\ isLineOfSightClear (pt 1 0 0) (pt 0 0 0) origin 1%float = true
  /\ isLineOfSightClear (pt 1 0 0) (pt 3 0 0) origin 1%float = false.
Proof.
  refine (conj _ (conj _ (conj _ (conj _ (conj _ _))))).
  - apply (proj1 (isLineOfSightClear_decision_table (pt (-3) 2 0) (pt 3 2 0) origin 1%float)).
    vm_compute. reflexivity.
  - apply (proj1 (proj2 (isLineOfSightClear_decision_table (pt 2 0 0) (pt 3 0 0) origin 1%float)));
      vm_compute; reflexivity.
  - refine (proj1 (proj2 (proj2 (isLineOfSightClear_decision_table
              (pt 0 0 0) (pt 3 0 0) origin 1%float)) _ _) _);
      vm_compute; reflexivity.
  - refine (proj1 (proj2 (proj2 (proj2 (isLineOfSightClear_decision_table
              (pt (-3) 0 0) (pt 3 0 0) origin 1%float)) _ _)) _);
      vm_compute; reflexivity.
  - refine (proj1 (proj2 (proj2 (proj2 (proj2 (isLineOfSightClear_decision_table
              (pt 1 0 0) (pt 0 0 0) origin 1%float)) _ _))) _);
      vm_compute; reflexivity.
  - refine (proj2 (proj2 (proj2 (proj2 (proj2 (isLineOfSightClear_decision_table
              (pt 1 0 0) (pt 3 0 0) origin 1%float)) _ _))) _ _ _);
      vm_compute; reflexivity.
Defined.

(** ** Symmetry of the occultation test *)

Section EndpointSymmetry.
Context {N : Type} {num : Number N}.

(** The endpoint tests do not depend on the order of the endpoints. *)
Lemma endpointVerdict_sym (p1DistSq p2DistSq rSq : N) :
  endpointVerdict p1DistSq p2DistSq rSq = endpointVerdict p2DistSq p1DistSq rSq.
Proof.
  unfold endpointVerdict.
  destruct (num_ltb p1DistSq rSq), (num_ltb rSq p2DistSq),
           (num_ltb rSq p1DistSq), (num_ltb p2DistSq rSq),
           (num_leb p1DistSq rSq), (num_leb p2DistSq rSq); reflexivity.
Qed.

Lemma isLineOfSightClear_as_hits (point1 point2 earthCenter : Point N) (earthRadius : N) :
  isLineOfSightClear point1 point2 earthCenter earthRadius =
  if segmentHitsSphere point1 point2 earthCenter earthRadius
  then endpointVerdict (distSq point1 earthCenter) (distSq point2 earthCenter)
                       (num_mul earthRadius earthRadius)
  else true.
Proof.
  unfold isLineOfSightClear, segmentHitsSphere, losT1, losT2, losDiscriminant,
    quadA, quadB, quadC, distSq; cbn [x y z].
  match goal with |- context [if ?b then true else _] => destruct b end; reflexivity.
Qed.

(** Whenever both argument orders agree on "an intersection lies on the
    segment", they agree on the verdict. *)
Lemma isLineOfSightClear_sym_of_hits (point1 point2 earthCenter : Point N) (earthRadius : N) :
  segmentHitsSphere point1 point2 earthCenter earthRadius =
  segmentHitsSphere point2 point1 earthCenter earthRadius ->
  isLineOfSightClear point1 point2 earthCenter earthRadius =
  isLineOfSightClear point2 point1 earthCenter earthRadius.
Proof.
  intros H. rewrite !isLineOfSightClear_as_hits, H, endpointVerdict_sym. reflexivity.
Qed.
End EndpointSymmetry.

(** In exact arithmetic the two argument orders always agree. *)
Section ExactSymmetry.
Local Open Scope R_scope.
Variables (p1 p2 c : Point R) (r : R).

Lemma Rleb_true_iff (a b : R) : Rleb a b = true <-> a <= b.
Proof. unfold Rleb. destruct (Rle_dec a b); split; intros; congruence || lra. Qed.

Lemma Rltb_true_iff (a b : R) : Rltb a b = true <-> a < b.
Proof. unfold Rltb. destruct (Rlt_dec a b); split; intros; congruence || lra. Qed.

Lemma onSegment_R_iff (t : R) : onSegment t = true <-> 0 <= t <= 1.
Proof.
  unfold onSegment; simpl. rewrite andb_true_iff, !Rleb_true_iff. tauto.
Qed.

Lemma onSegment_R_flip (t : R) : onSegment (1 - t) = onSegment t.
Proof.
  apply eq_true_iff_eq. rewrite !onSegment_R_iff. split; intros; lra.
Qed.

Lemma quadA_R_sym : quadA p2 p1 = quadA p1 p2.
Proof. unfold quadA; simpl. ring. Qed.

Lemma quadB_R_sym : quadB p2 p1 c = - quadB p1 p2 c - 2 * quadA p1 p2.
Proof. unfold quadB, quadA; simpl. ring. Qed.

Lemma losDiscriminant_R_sym : losDiscriminant p2 p1 c r = losDiscriminant p1 p2 c r.
Proof. unfold losDiscriminant, quadA, quadB, quadC, distSq; simpl. ring. Qed.

Lemma losT1_R_sym : quadA p1 p2 <> 0 -> losT1 p2 p1 c r = 1 - losT2 p1 p2 c r.
Proof.
  intros Ha. unfold losT1, losT2.
  rewrite losDiscriminant_R_sym, quadB_R_sym, quadA_R_sym. simpl. field. exact Ha.
Qed.

Lemma losT2_R_sym : quadA p1 p2 <> 0 -> losT2 p2 p1 c r = 1 - losT1 p1 p2 c r.
Proof.
  intros Ha. unfold losT1, losT2.
  rewrite losDiscriminant_R_sym, quadB_R_sym, quadA_R_sym. simpl. field. exact Ha.
Qed.

Lemma quadA_R_zero : quadA p1 p2 = 0 -> p2 = p1.
Proof.
  unfold quadA; simpl. intros H.
  destruct p1 as [x1 y1 z1], p2 as [x2 y2 z2]; simpl in *.
  pose proof (Rle_0_sqr (x2 - x1)) as Hx.
  pose proof (Rle_0_sqr (y2 - y1)) as Hy.
  pose proof (Rle_0_sqr (z2 - z1)) as Hz.
  unfold Rsqr in Hx, Hy, Hz.
  assert (Ex : (x2 - x1) * (x2 - x1) = 0) by lra.
  assert (Ey : (y2 - y1) * (y2 - y1) = 0) by lra.
  assert (Ez : (z2 - z1) * (z2 - z1) = 0) by lra.
  apply Rsqr_0_uniq in Ex, Ey, Ez.
  f_equal; lra.
Qed.

Lemma segmentHitsSphere_R_sym :
  segmentHitsSphere p1 p2 c r = segmentHitsSphere p2 p1 c r.
Proof.
  destruct (Req_dec (quadA p1 p2) 0) as [Ha|Ha].
  - rewrite (quadA_R_zero Ha). reflexivity.
  - unfold segmentHitsSphere.
    rewrite losDiscriminant_R_sym, (losT1_R_sym Ha), (losT2_R_sym Ha),
      !onSegment_R_flip.
    f_equal. apply orb_comm.
Qed.
End ExactSymmetry.

(** C7, as the program computes it.  The segment from (-3, 1, 0) to (0.1, 1, 0)
    grazes the unit sphere at (0, 1, 0).  From the first endpoint the rounded
    discriminant is not negative and the contact lies on the segment, so the
    link is blocked; from the second the rounded discriminant is negative and
    the link is clear. *)
Lemma isLineOfSightClear_grazing_asymmetry :
  losDiscriminant (pt (-3) 1 0) (pt 0.1 1 0) origin 1%float = 0%float
  /\ losT1 (pt (-3) 1 0) (pt 0.1 1 0) origin 1%float = 0.9677419354838709%float
  /\ (losDiscriminant (pt 0.1 1 0) (pt (-3) 1 0) origin 1%float <? 0)%float = true
  /\ isLineOfSightClear (pt (-3) 1 0) (pt 0.1 1 0) origin 1%float = false
  /\ isLineOfSightClear (pt 0.1 1 0) (pt (-3) 1 0) origin 1%float = true
  /\ isLineOfSightClear (pt (-3) 1 0) (pt 0.1 1 0) origin 1%float
     <> isLineOfSightClear (pt 0.1 1 0) (pt (-3) 1 0) origin 1%float.
Proof. vm_compute. repeat split; discriminate. Qed.

(** The same with an Earth radius of 6378.137 km and two points 18000 km up. *)
Example isLineOfSightClear_grazing_earth :
  isLineOfSightClear (pt (-18000) 6378.137 (-24000)) (pt 13500 6378.137 18000)
    origin 6378.137%float = false
  /\ isLineOfSightClear (pt 13500 6378.137 18000) (pt (-18000) 6378.137 (-24000))
       origin 6378.137%float = true.
Proof. vm_compute. split; reflexivity. Qed.

(** C7, amended.  In exact arithmetic [isLineOfSightClear] is symmetric in its
    endpoints for every pair of points and every sphere.  In binary64 the
    endpoint tests are symmetric, and the two argument orders give the same
    verdict whenever they agree on whether an intersection lies on the segment. *)
Theorem isLineOfSightClear_symmetric :
  (forall (p1 p2 c : Point R) (r : R),
      isLineOfSightClear p1 p2 c r = isLineOfSightClear p2 p1 c r)
  /\ (forall (p1 p2 c : Point float) (r : float),
      segmentHitsSphere p1 p2 c r = segmentHitsSphere p2 p1 c r ->
      isLineOfSightClear p1 p2 c r = isLineOfSightClear p2 p1 c r)
  /\ (forall (p1 p2 c : Point float) (r : float),
      endpointVerdict (distSq p1 c) (distSq p2 c) (r * r)%float
      = endpointVerdict (distSq p2 c) (distSq p1 c) (r * r)%float).
Proof.
  split; [|split].
  - intros p1 p2 c r. apply isLineOfSightClear_sym_of_hits, segmentHitsSphere_R_sym.
  - intros p1 p2 c r. apply isLineOfSightClear_sym_of_hits.
  - intros p1 p2 c r. apply endpointVerdict_sym.
Qed.

Lemma isLineOfSightClear_symmetric_witness :
  isLineOfSightClear (pt (-3) 0 0) (pt 3 0.5 0) origin 1%float
  = isLineOfSightClear (pt 3 0.5 0) (pt (-3) 0 0) origin 1%float.
Proof.
  apply (proj1 (proj2 isLineOfSightClear_symmetric)). vm_compute. reflexivity.
Defined.

(** ** The cone test *)

(** [Math.min(1, v)] is NaN or at most 1, and then [Math.max(-1, _)] is NaN or
    within [-1, 1]. *)
Lemma Math_min_1_range (v : float) :
  is_nan v = false ->
  is_nan (Math_min 1%float v) = false /\ (Math_min 1%float v <=? 1)%float = true.
Proof.
  intros Hv. unfold Math_min.
  replace (is_nan 1%float) with false by reflexivity. rewrite Hv. simpl orb. cbv iota.
  destruct (1 <? v)%float eqn:E1.
  - split; reflexivity.
  - destruct (v <? 1)%float eqn:E2.
    + split; [exact Hv | apply float_ltb_leb; exact E2].
    + replace (get_sign 1%float) with false by reflexivity.
      split; [exact Hv|].
      apply (float_not_lt_leb (a := 1%float) (b := v)); [reflexivity | exact Hv | exact E1 | exact E2].
Qed.

Lemma Math_max_m1_range (m : float) :
  is_nan m = false -> (m <=? 1)%float = true ->
  (-1 <=? Math_max (-1)%float m)%float = true /\ (Math_max (-1)%float m <=? 1)%float = true.
Proof.
  intros Hm Hle. unfold Math_max.
  replace (is_nan (-1)%float) with false by reflexivity. rewrite Hm. simpl orb. cbv iota.
  destruct (-1 <? m)%float eqn:E1.
  - split; [apply float_ltb_leb; exact E1 | exact Hle].
  - destruct (m <? -1)%float eqn:E2.
    + split; reflexivity.
    + replace (get_sign (-1)%float) with true by reflexivity.
      split; [|exact Hle].
      apply (float_not_lt_leb (a := (-1)%float) (b := m)); [reflexivity | exact Hm | exact E1 | exact E2].
Qed.

Lemma clamp_range (v : float) :
  let c := Math_max (-1)%float (Math_min 1%float v) in
  is_nan c = true \/ ((-1 <=? c)%float = true /\ (c <=? 1)%float = true).
Proof.
  intros c. subst c. destruct (is_nan v) eqn:Hv.
  - left. unfold Math_min. rewrite Hv, orb_true_r. reflexivity.
  - right. destruct (Math_min_1_range v Hv) as [Hn Hle].
    apply Math_max_m1_range; assumption.
Qed.

Section ConeTest.
Context {math : MathHost}.

(** The normalized vector of the claim: the vector divided by its
    magnitude. *)
Definition unitVector (v : CartesianVector) : CartesianVector :=
  {| x := (v.(x) / PrimFloat.sqrt (v.(x) * v.(x) + v.(y) * v.(y) + v.(z) * v.(z)))%float;
     y := (v.(y) / PrimFloat.sqrt (v.(x) * v.(x) + v.(y) * v.(y) + v.(z) * v.(z)))%float;
     z := (v.(z) / PrimFloat.sqrt (v.(x) * v.(x) + v.(y) * v.(y) + v.(z) * v.(z)))%float |}.

Definition zeroVector : CartesianVector := {| x := 0%float; y := 0%float; z := 0%float |}.

(** The dot product of the cone axis with a direction, clamped to [-1, 1], and
    its [acos]. *)
Definition clampedCosine (cone : GeometricCone) (direction : CartesianVector) : float :=
  Math_max (-1)%float (Math_min 1%float (dotProduct cone.(axis) direction)).

Definition angleBetween (cone : GeometricCone) (direction : CartesianVector) : float :=
  Math_acos (clampedCosine cone direction).

(** The angle the claim speaks of, measured to the normalized vector from the
    tip to the target. *)
Definition angleToTarget (target : CartesianVector) (cone : GeometricCone) : float :=
  angleBetween cone (unitVector (subtract target cone.(tip))).

(** The distance from the tip to the target is below [1e-9]. *)
Definition nearTip (target : CartesianVector) (cone : GeometricCone) : bool :=
  (magnitude (subtract target cone.(tip)) <? 1e-9)%float.

(** C6, amended.  For a target that is not within [1e-9] of the tip,
    [isPointInCone] is true exactly when the measured angle is at most the
    half-angle, and at a measured angle equal to the half-angle it is true.
    For a target within [1e-9] of the tip, distinct from it or not, the angle
    is measured to the zero vector instead.  The clamped cosine is NaN or
    within [-1, 1]. *)
Theorem isPointInCone_iff_angle (target : CartesianVector) (cone : GeometricCone) :
  (nearTip target cone = false ->
   (isPointInCone target cone = true <->
    (angleToTarget target cone <=? cone.(halfAngle))%float = true)
   /\ ((angleToTarget target cone =? cone.(halfAngle))%float = true ->
       isPointInCone target cone = true))
  /\ (nearTip target cone = true ->
      isPointInCone target cone = (angleBetween cone zeroVector <=? cone.(halfAngle))%float)
  /\ (forall direction,
        let c := clampedCosine cone direction in
        is_nan c = true \/ ((-1 <=? c)%float = true /\ (c <=? 1)%float = true)).
Proof.
  unfold nearTip. split; [|split].
  - intros Hfar.
    assert (E : isPointInCone target cone
                = (angleToTarget target cone <=? cone.(halfAngle))%float).
    { unfold isPointInCone, normalize. cbv zeta. rewrite Hfar. reflexivity. }
    rewrite E. split; [reflexivity|].
    intros H. apply float_eqb_leb in H. exact H.
  - intros Hnear. unfold isPointInCone, normalize. cbv zeta. rewrite Hnear. reflexivity.
  - intros direction. apply clamp_range.
Qed.

End ConeTest.

(** ** Example hosts

    Small hosts for running the embedding on concrete inputs. *)

(** [Math.acos] at the three arguments the examples need. *)
Definition tableAcos (c : float) : float :=
  if (c =? 1)%float then 0%float
  else if (c =? 0)%float then 1.5707963267948966%float
  else if (c =? -1)%float then Math_PI
  else nan.

(** [Math.floor] of a number below 2^63 in magnitude, and [%] on finite
    numbers, both exact. *)
Definition exactFloor (v : float) : float :=
  match Prim2SF v with
  | S754_finite s m e =>
      if (0 <=? e)%Z then v
      else float_of_Z (Z.shiftr (if s then Z.neg m else Z.pos m) (- e))
  | _ => v
  end.

Definition exactRem (a b : float) : float :=
  match Prim2SF a, Prim2SF b with
  | S754_finite sa ma ea, S754_finite _ mb eb =>
      let e := Z.min ea eb in
      let r := ((Z.pos ma * 2 ^ (ea - e)) mod (Z.pos mb * 2 ^ (eb - e)))%Z in
      let r := Z.ldexp (float_of_Z r) e in
      if sa then (- r)%float else r
  | S754_zero _, S754_finite _ _ _ => a
  | S754_finite _ _ _, S754_infinity _ => a
  | _, _ => nan
  end.

Definition exampleMath : MathHost :=
  {| Math_acos := tableAcos;
     Math_asin := fun _ => nan;
     Math_sin := fun _ => nan;
     Math_cos := fun _ => nan;
     Math_atan2 := fun _ _ => nan;
     Math_pow := fun b _ => (b * b * b)%float;
     Math_floor := exactFloor;
     Math_round := fun v => v;
     number_rem := exactRem;
     toFixed := fun _ _ => "0.0000";
     numberToString := fun _ => "1" |}.

(** A target on the axis of a cone of half-angle 0: the measured angle equals
    the half-angle, and the target is in the cone. *)
Lemma isPointInCone_iff_angle_witness :
  isPointInCone (math := exampleMath) (pt 2 0 0)
    (mkCone (pt 0 0 0) (pt 1 0 0) 0%float None) = true.
Proof.
  refine (proj2 (proj1 (isPointInCone_iff_angle (math := exampleMath) (pt 2 0 0)
                          (mkCone (pt 0 0 0) (pt 1 0 0) 0%float None)) _) _).
  - vm_compute. reflexivity.
  - vm_compute. reflexivity.
Defined.

(** C6, as the program computes it.  A target 2^-40 km from the tip, on the
    axis of a cone of half-angle 0.5: it is distinct from the tip and the
    angle to its normalized vector is 0, yet it is not in the cone, because
    the program measures the angle to the zero vector, a right angle. *)
Definition tipCone : GeometricCone := mkCone (pt 0 0 0) (pt 1 0 0) 0.5%float None.

Definition targetNearTip : CartesianVector := pt 0x1p-40%float 0 0.

Lemma isPointInCone_near_tip_is_right_angle :
  targetNearTip <> tipCone.(tip)
  /\ magnitude tipCone.(axis) = 1%float
  /\ unitVector (subtract targetNearTip tipCone.(tip)) = pt 1 0 0
  /\ angleToTarget (math := exampleMath) targetNearTip tipCone = 0%float
  /\ (angleToTarget (math := exampleMath) targetNearTip tipCone <=? tipCone.(halfAngle))%float
     = true
  /\ isPointInCone (math := exampleMath) targetNearTip tipCone = false.
Proof.
  split; [discriminate|]. repeat split; vm_compute; reflexivity.
Qed.

(** ** Beacon element synthesis *)

Lemma float_ltb_not_geb (a b : float) :
  PrimFloat.ltb a b = true -> PrimFloat.leb b a = false.
Proof.
  rewrite leb_spec, ltb_spec. unfold SpecFloat.SFleb, SpecFloat.SFltb.
  rewrite (SFcompare_antisym (Prim2SF a) (Prim2SF b)).
  destruct (SpecFloat.SFcompare (Prim2SF a) (Prim2SF b)) as [[ | | ]|]; simpl; congruence.
Qed.


Lemma length_append (s1 s2 : string) :
  String.length (s1 +:+ s2) = String.length s1 + String.length s2.
Proof. induction s1 as [|c s1 IH]; simpl; [reflexivity | rewrite IH; reflexivity]. Qed.

Lemma length_repeatChar (c : ascii) (n : nat) : String.length (repeatChar c n) = n.
Proof. induction n as [|n IH]; simpl; [reflexivity | rewrite IH; reflexivity]. Qed.

Lemma length_substring_0 (n : nat) (s : string) :
  n <= String.length s -> String.length (String.substring 0 n s) = n.
Proof.
  revert s. induction n as [|n IH]; intros s Hn.
  - destruct s; reflexivity.
  - destruct s as [|c s]; simpl in *; [lia|]. rewrite IH by lia. reflexivity.
Qed.

Lemma length_formatStringPadded (str : string) (len : nat) (padChar : ascii) (padAtStart : bool) :
  String.length (formatStringPadded str len padChar padAtStart) = len.
Proof.
  unfold formatStringPadded, padStart, padEnd.
  destruct (len <? String.length str)%nat eqn:E.
  - apply Nat.ltb_lt in E. apply length_substring_0. lia.
  - apply Nat.ltb_ge in E.
    destruct padAtStart; rewrite length_append, length_repeatChar; lia.
Qed.

Lemma length_checksum_digit (line : string) :
  String.length (pretty (calculateTLEChecksum line)) = 1.
Proof.
  unfold calculateTLEChecksum.
  pose proof (Nat.mod_upper_bound (checksumSum line) 10 ltac:(lia)) as H.
  destruct (checksumSum line mod 10) as [|[|[|[|[|[|[|[|[|[|n]]]]]]]]]];
    try reflexivity; lia.
Qed.

Section Synthesis.
Context {math : MathHost} {dates : DateHost} {consts : Constants} {sat : SatelliteJs}.

Lemma length_formatAngleForTLE (angleDeg : float) :
  String.length (formatAngleForTLE angleDeg) = 8.
Proof. apply length_formatStringPadded. Qed.

Lemma length_formatMeanMotionForTLE (mm : float) :
  String.length (formatMeanMotionForTLE mm) = 11.
Proof. apply length_formatStringPadded. Qed.

(** Line 1 has 69 characters whatever the epoch. *)
Lemma length_tleLine1 (epoch : TLEEpoch) : String.length (tleLine1 epoch) = TLE_LINE_LENGTH.
Proof.
  unfold tleLine1, formatEpochDayForTLE.
  rewrite !length_append, length_checksum_digit, !length_formatStringPadded.
  reflexivity.
Qed.

(** The eccentricity field is padded, never cut: it has its 7 characters when
    the rounded number prints in at most 7 (for the fixed eccentricity it
    prints as one digit). *)
Definition eccentricityFits : Prop :=
  String.length (numberToString (Math_round (DEFAULT_ECCENTRICITY * 1e7)%float)) <= 7.

Lemma length_formatEccentricityForTLE :
  eccentricityFits -> String.length (formatEccentricityForTLE DEFAULT_ECCENTRICITY) = 7.
Proof.
  unfold eccentricityFits, formatEccentricityForTLE, padStart. intros H.
  rewrite length_append, length_repeatChar. lia.
Qed.

(** Line 2 has 69 characters as soon as the eccentricity field has its 7. *)
Lemma length_tleLine2 (inclinationDeg raanDeg mm : float) :
  eccentricityFits ->
  String.length (tleLine2 inclinationDeg raanDeg mm) = TLE_LINE_LENGTH.
Proof.
  intros Hecc. unfold tleLine2.
  rewrite !length_append, length_checksum_digit, !length_formatAngleForTLE,
    length_formatMeanMotionForTLE, !length_formatStringPadded,
    (length_formatEccentricityForTLE Hecc).
  reflexivity.
Qed.





End Synthesis.

(** ** The simulation loop *)

Section Engine.
Context {math : MathHost} {dates : DateHost} {consts : Constants} {sat : SatelliteJs}
        {tles : TleService}.
Variable config : SimulationConfig.

(** "The link of [iridiumSat] is active at instant [t]", the Beacon being at
    [beaconPropagation]: the satellite propagates and [canCommunicate] ends up
    true. *)
Definition linkActive (t : Z) (beaconPropagation : PropagationResult)
    (iridiumSat : IridiumSatRec) : bool :=
  match propagateSatellite iridiumSat.(rec) t with
  | None => false
  | Some iridiumPropagation =>
      canCommunicate config
        (eciToCartesian beaconPropagation.(pr_positionEci))
        (eciToCartesian beaconPropagation.(pr_velocityEci))
        (eciToCartesian iridiumPropagation.(pr_positionEci))
        (eciToCartesian iridiumPropagation.(pr_velocityEci))
        iridiumSat.(id)
  end.

(** The handshake record of [iridiumSat] at instant [t], if one is due. *)
Definition handshakeFor (t : Z) (beaconPropagation : PropagationResult)
    (previous : gset string) (iridiumSat : IridiumSatRec) : option Handshake :=
  match propagateSatellite iridiumSat.(rec) t with
  | None => None
  | Some iridiumPropagation =>
      if linkActive t beaconPropagation iridiumSat
         && negb (bool_decide (iridiumSat.(id) ∈ previous))
      then Some (mkHandshake t iridiumSat.(id)
                   (geodeticToPosition beaconPropagation.(pr_positionGeodetic))
                   (geodeticToPosition iridiumPropagation.(pr_positionGeodetic)))
      else None
  end.

(** The ids of the satellites whose link is active at instant [t]. *)
Definition activeIds (t : Z) (beaconPropagation : PropagationResult)
    (iridiumSatRecs : list IridiumSatRec) : gset string :=
  list_to_set (map id (filter (fun isat => linkActive t beaconPropagation isat = true)
                              iridiumSatRecs)).

Lemma elem_of_activeIds (t : Z) (bp : PropagationResult) (sats : list IridiumSatRec)
    (i : string) :
  i ∈ activeIds t bp sats <->
  exists isat, isat ∈ sats /\ isat.(id) = i /\ linkActive t bp isat = true.
Proof.
  unfold activeIds. rewrite elem_of_list_to_set, list_elem_of_fmap.
  split.
  - intros (isat & -> & Hin). apply list_elem_of_filter in Hin as [Hact Hin]. eauto.
  - intros (isat & Hin & <- & Hact). exists isat. split; [reflexivity|].
    apply list_elem_of_filter. auto.
Qed.

(** *** One satellite within a step *)

Lemma evaluateIridiumSat_failed (t : Z) (bp : PropagationResult) (previous : gset string)
    (acc : StepAcc) (isat : IridiumSatRec) :
  propagateSatellite isat.(rec) t = None ->
  evaluateIridiumSat config t bp previous acc isat = acc.
Proof. unfold evaluateIridiumSat. intros ->. reflexivity. Qed.

Lemma evaluateIridiumSat_connected (t : Z) (bp : PropagationResult) (previous : gset string)
    (acc : StepAcc) (isat : IridiumSatRec) :
  currentConnectedIridiumSatIdsThisStep (evaluateIridiumSat config t bp previous acc isat)
  = if linkActive t bp isat
    then {[ isat.(id) ]} ∪ acc.(currentConnectedIridiumSatIdsThisStep)
    else acc.(currentConnectedIridiumSatIdsThisStep).
Proof.
  unfold evaluateIridiumSat, linkActive.
  destruct (propagateSatellite isat.(rec) t) as [ip|]; [|reflexivity].
  destruct (canCommunicate _ _ _ _ _ _); reflexivity.
Qed.

Lemma evaluateIridiumSat_inComm (t : Z) (bp : PropagationResult) (previous : gset string)
    (acc : StepAcc) (isat : IridiumSatRec) :
  beaconIsInCommunicationThisStep (evaluateIridiumSat config t bp previous acc isat)
  = linkActive t bp isat || acc.(beaconIsInCommunicationThisStep).
Proof.
  unfold evaluateIridiumSat, linkActive.
  destruct (propagateSatellite isat.(rec) t) as [ip|]; [|reflexivity].
  destruct (canCommunicate _ _ _ _ _ _); reflexivity.
Qed.

Lemma evaluateIridiumSat_log (t : Z) (bp : PropagationResult) (previous : gset string)
    (acc : StepAcc) (isat : IridiumSatRec) :
  acc_handshakeLog (evaluateIridiumSat config t bp previous acc isat)
  = acc.(acc_handshakeLog) ++ option_list (handshakeFor t bp previous isat).
Proof.
  unfold evaluateIridiumSat, handshakeFor, linkActive.
  destruct (propagateSatellite isat.(rec) t) as [ip|]; [|symmetry; apply app_nil_r].
  destruct (canCommunicate _ _ _ _ _ _); [|symmetry; apply app_nil_r].
  cbn [acc_handshakeLog andb].
  destruct (negb (bool_decide (id isat ∈ previous))); [reflexivity|symmetry; apply app_nil_r].
Qed.

Lemma evaluateIridiumSat_total (t : Z) (bp : PropagationResult) (previous : gset string)
    (acc : StepAcc) (isat : IridiumSatRec) :
  acc_totalHandshakes (evaluateIridiumSat config t bp previous acc isat)
  = acc.(acc_totalHandshakes) + length (option_list (handshakeFor t bp previous isat)).
Proof.
  unfold evaluateIridiumSat, handshakeFor, linkActive.
  destruct (propagateSatellite isat.(rec) t) as [ip|]; [|simpl; lia].
  destruct (canCommunicate _ _ _ _ _ _); [|simpl; lia].
  cbn [acc_totalHandshakes andb].
  destruct (negb (bool_decide (id isat ∈ previous))); simpl; lia.
Qed.

(** *** All satellites within a step *)

Definition foldSats (t : Z) (bp : PropagationResult) (previous : gset string)
    (sats : list IridiumSatRec) (acc : StepAcc) : StepAcc :=
  fold_left (evaluateIridiumSat config t bp previous) sats acc.

Lemma foldSats_connected (t : Z) (bp : PropagationResult) (previous : gset string)
    (sats : list IridiumSatRec) (acc : StepAcc) :
  currentConnectedIridiumSatIdsThisStep (foldSats t bp previous sats acc)
  = activeIds t bp sats ∪ acc.(currentConnectedIridiumSatIdsThisStep).
Proof.
  unfold foldSats. revert acc.
  induction sats as [|isat sats IH]; intros acc; simpl.
  - unfold activeIds. simpl. rewrite (left_id_L ∅ (∪)). reflexivity.
  - rewrite IH, evaluateIridiumSat_connected. unfold activeIds.
    rewrite filter_cons. destruct (linkActive t bp isat) eqn:E.
    + rewrite decide_True by reflexivity. csimpl.
      rewrite (assoc_L (∪)). f_equal. apply (comm_L (∪)).
    + rewrite decide_False by discriminate. reflexivity.
Qed.

Lemma foldSats_inComm (t : Z) (bp : PropagationResult) (previous : gset string)
    (sats : list IridiumSatRec) (acc : StepAcc) :
  beaconIsInCommunicationThisStep (foldSats t bp previous sats acc)
  = existsb (linkActive t bp) sats || acc.(beaconIsInCommunicationThisStep).
Proof.
  unfold foldSats. revert acc.
  induction sats as [|isat sats IH]; intros acc; simpl; [reflexivity|].
  rewrite IH, evaluateIridiumSat_inComm.
  destruct (linkActive t bp isat), (existsb (linkActive t bp) sats); reflexivity.
Qed.

Lemma foldSats_log (t : Z) (bp : PropagationResult) (previous : gset string)
    (sats : list IridiumSatRec) (acc : StepAcc) :
  acc_handshakeLog (foldSats t bp previous sats acc)
  = acc.(acc_handshakeLog) ++ omap (handshakeFor t bp previous) sats.
Proof.
  unfold foldSats. revert acc.
  induction sats as [|isat sats IH]; intros acc; csimpl; [symmetry; apply app_nil_r|].
  rewrite IH, evaluateIridiumSat_log, <- app_assoc. f_equal.
  destruct (handshakeFor t bp previous isat); reflexivity.
Qed.

Lemma foldSats_total (t : Z) (bp : PropagationResult) (previous : gset string)
    (sats : list IridiumSatRec) (acc : StepAcc) :
  acc_totalHandshakes (foldSats t bp previous sats acc)
  = acc.(acc_totalHandshakes) + length (omap (handshakeFor t bp previous) sats).
Proof.
  unfold foldSats. revert acc.
  induction sats as [|isat sats IH]; intros acc; csimpl; [lia|].
  rewrite IH, evaluateIridiumSat_total.
  destruct (handshakeFor t bp previous isat); csimpl; lia.
Qed.

End Engine.

Section EngineStep.
Context {math : MathHost} {dates : DateHost} {consts : Constants} {sat : SatelliteJs}
        {tles : TleService}.
Variables (config : SimulationConfig) (beaconSatRec : SatRec)
          (iridiumSatRecs : list IridiumSatRec).

Local Abbreviation step := (simulationStep config beaconSatRec iridiumSatRecs).

Lemma simulationStep_skipped (st : SimState) :
  propagateSatellite beaconSatRec st.(currentTime) = None ->
  step st = skipStep config st.
Proof. unfold simulationStep. intros ->. reflexivity. Qed.

Lemma simulationStep_evaluated (st : SimState) (bp : PropagationResult) :
  propagateSatellite beaconSatRec st.(currentTime) = Some bp ->
  step st = evaluateStep config iridiumSatRecs bp st.
Proof. unfold simulationStep. intros ->. reflexivity. Qed.

Lemma simulationStep_time (st : SimState) :
  currentTime (step st) = (st.(currentTime) + timeStepMs config)%Z.
Proof.
  unfold simulationStep.
  destruct (propagateSatellite beaconSatRec st.(currentTime)); reflexivity.
Qed.

Lemma evaluateStep_log (bp : PropagationResult) (st : SimState) :
  st_handshakeLog (evaluateStep config iridiumSatRecs bp st)
  = st.(st_handshakeLog)
    ++ omap (handshakeFor config st.(currentTime) bp st.(previousConnectedIridiumSatIds))
            iridiumSatRecs.
Proof. unfold evaluateStep. cbn [st_handshakeLog]. apply (foldSats_log config). Qed.

Lemma evaluateStep_total (bp : PropagationResult) (st : SimState) :
  st_totalHandshakes (evaluateStep config iridiumSatRecs bp st)
  = st.(st_totalHandshakes)
    + length (omap (handshakeFor config st.(currentTime) bp
                      st.(previousConnectedIridiumSatIds)) iridiumSatRecs).
Proof. unfold evaluateStep. cbn [st_totalHandshakes]. apply (foldSats_total config). Qed.

Lemma evaluateStep_previous (bp : PropagationResult) (st : SimState) :
  previousConnectedIridiumSatIds (evaluateStep config iridiumSatRecs bp st)
  = activeIds config st.(currentTime) bp iridiumSatRecs.
Proof.
  unfold evaluateStep. cbn [previousConnectedIridiumSatIds].
  etransitivity; [apply (foldSats_connected config)|].
  cbn [currentConnectedIridiumSatIdsThisStep]. apply (right_id_L ∅ (∪)).
Qed.

Lemma evaluateStep_activeLinksLog (bp : PropagationResult) (st : SimState) :
  st_activeLinksLog (evaluateStep config iridiumSatRecs bp st)
  = st.(st_activeLinksLog) ++ [activeIds config st.(currentTime) bp iridiumSatRecs].
Proof.
  unfold evaluateStep. cbn [st_activeLinksLog]. f_equal. f_equal.
  etransitivity; [apply (foldSats_connected config)|].
  cbn [currentConnectedIridiumSatIdsThisStep]. apply (right_id_L ∅ (∪)).
Qed.

Lemma evaluateStep_inComm (bp : PropagationResult) (st : SimState) :
  beaconIsInCommunicationThisStep
    (foldSats config st.(currentTime) bp st.(previousConnectedIridiumSatIds) iridiumSatRecs
       {| currentConnectedIridiumSatIdsThisStep := ∅;
          beaconIsInCommunicationThisStep := false;
          acc_totalHandshakes := st.(st_totalHandshakes);
          acc_handshakeLog := st.(st_handshakeLog);
          acc_iridiumTracks := st.(st_iridiumTracks) |})
  = existsb (linkActive config st.(currentTime) bp) iridiumSatRecs.
Proof. rewrite foldSats_inComm. apply orb_false_r. Qed.

(** A handshake record is due exactly on an inactive-to-active edge. *)
Lemma handshakeFor_Some_iff (t : Z) (bp : PropagationResult) (previous : gset string)
    (isat : IridiumSatRec) :
  (exists h, handshakeFor config t bp previous isat = Some h)
  <-> linkActive config t bp isat = true /\ isat.(id) ∉ previous.
Proof.
  unfold handshakeFor, linkActive.
  destruct (propagateSatellite isat.(rec) t) as [ip|].
  - destruct (canCommunicate _ _ _ _ _ _); cbn [andb].
    + destruct (bool_decide_reflect (id isat ∈ previous)) as [Hin|Hin]; cbn [negb].
      * split; [intros [h Hh]; discriminate | intros [_ Hn]; contradiction].
      * split; [intros _; auto | intros _; eauto].
    + split; [intros [h Hh]; discriminate | intros [Hf _]; discriminate].
  - split; [intros [h Hh]; discriminate | intros [Hf _]; discriminate].
Qed.

Lemma handshakeFor_fields (t : Z) (bp : PropagationResult) (previous : gset string)
    (isat : IridiumSatRec) (h : Handshake) :
  handshakeFor config t bp previous isat = Some h ->
  h.(hs_timestamp) = t /\ h.(iridiumSatelliteId) = isat.(id).
Proof.
  unfold handshakeFor.
  destruct (propagateSatellite isat.(rec) t) as [ip|]; [|discriminate].
  destruct (_ && _); [|discriminate].
  intros [= <-]. split; reflexivity.
Qed.

(** No record is made for an id that was connected at the previous evaluated
    step. *)
Lemma no_handshake_for_connected (t : Z) (bp : PropagationResult) (previous : gset string)
    (sats : list IridiumSatRec) (i : string) :
  i ∈ previous ->
  Forall (fun h => h.(iridiumSatelliteId) <> i) (omap (handshakeFor config t bp previous) sats).
Proof.
  intros Hin. apply Forall_forall. intros h Hh.
  apply list_elem_of_omap in Hh as (isat & _ & Hsome).
  destruct (handshakeFor_fields _ _ _ _ Hsome) as [_ Hid].
  assert (Hedge : linkActive config t bp isat = true /\ isat.(id) ∉ previous)
    by (apply handshakeFor_Some_iff; eauto).
  destruct Hedge as [_ Hnot]. cbn beta. rewrite Hid. intros E. rewrite E in Hnot. contradiction.
Qed.

(** *** Skipped steps *)

(** [k] consecutive instants from that of [st] at which the Beacon fails to
    propagate. *)
Definition beaconFailsFor (k : nat) (st : SimState) : Prop :=
  forall j : nat, j < k ->
    propagateSatellite beaconSatRec (st.(currentTime) + Z.of_nat j * timeStepMs config)%Z = None.

(** The state after [k] skipped steps. *)
Definition afterSkips (k : nat) (st : SimState) : SimState :=
  {| currentTime := st.(currentTime) + Z.of_nat k * timeStepMs config;
     simulationStepCounter := k + st.(simulationStepCounter);
     st_totalHandshakes := st.(st_totalHandshakes);
     st_handshakeLog := st.(st_handshakeLog);
     st_blackoutPeriods := st.(st_blackoutPeriods);
     st_beaconTrack := st.(st_beaconTrack);
     st_iridiumTracks := st.(st_iridiumTracks);
     st_activeLinksLog := st.(st_activeLinksLog);
     previousConnectedIridiumSatIds := st.(previousConnectedIridiumSatIds);
     currentBlackout := st.(currentBlackout) |}.

Lemma afterSkips_0 (st : SimState) : afterSkips 0 st = st.
Proof.
  destruct st. unfold afterSkips. cbn. f_equal. lia.
Qed.

Lemma skipped_steps (k : nat) (st : SimState) :
  beaconFailsFor k st -> Nat.iter k step st = afterSkips k st.
Proof.
  induction k as [|k IH]; intros Hfail.
  - symmetry. apply afterSkips_0.
  - change (Nat.iter (S k) step st) with (step (Nat.iter k step st)).
    rewrite IH by (intros j Hj; apply Hfail; lia).
    rewrite simulationStep_skipped.
    + unfold skipStep, afterSkips. cbn. f_equal. lia.
    + cbn [afterSkips currentTime]. apply Hfail. lia.
Qed.

End EngineStep.

Section EngineClaims.
Context {math : MathHost} {dates : DateHost} {consts : Constants} {sat : SatelliteJs}
        {tles : TleService}.
Variables (config : SimulationConfig) (beaconSatRec : SatRec)
          (iridiumSatRecs : list IridiumSatRec).

Local Abbreviation step := (simulationStep config beaconSatRec iridiumSatRecs).

(** The records appended by the step taken from [st], the Beacon being at [bp]. *)
Definition appendedHandshakes (st : SimState) (bp : PropagationResult) : list Handshake :=
  omap (handshakeFor config st.(currentTime) bp st.(previousConnectedIridiumSatIds))
       iridiumSatRecs.

(** C2.  At an evaluated step a handshake record is appended for a satellite
    exactly when its link is active at that step and its id is not in the set
    of the previous evaluated step; that set is the set of ids active at the
    previous evaluated step, skipped steps leave it alone, and a link that is
    active at two consecutive evaluated steps gets no second record. *)
Theorem handshake_iff_activation_edge (st : SimState) (bp : PropagationResult) :
  propagateSatellite beaconSatRec st.(currentTime) = Some bp ->
  let t := st.(currentTime) in
  let previous := st.(previousConnectedIridiumSatIds) in
  let st' := step st in
  st_handshakeLog st' = st.(st_handshakeLog) ++ appendedHandshakes st bp
  /\ (forall isat,
        (exists h, handshakeFor config t bp previous isat = Some h)
        <-> linkActive config t bp isat = true /\ isat.(id) ∉ previous)
  /\ (forall isat h, handshakeFor config t bp previous isat = Some h ->
        h.(hs_timestamp) = t /\ h.(iridiumSatelliteId) = isat.(id))
  /\ (forall i, i ∈ previousConnectedIridiumSatIds st'
        <-> exists isat, isat ∈ iridiumSatRecs /\ isat.(id) = i
                         /\ linkActive config t bp isat = true)
  /\ (forall (k : nat) (bp2 : PropagationResult) (isat : IridiumSatRec),
        isat ∈ iridiumSatRecs -> linkActive config t bp isat = true ->
        beaconFailsFor config beaconSatRec k st' ->
        propagateSatellite beaconSatRec (currentTime (Nat.iter k step st')) = Some bp2 ->
        st_handshakeLog (Nat.iter k step st') = st_handshakeLog st'
        /\ Forall (fun h => h.(iridiumSatelliteId) <> isat.(id))
                  (appendedHandshakes (Nat.iter k step st') bp2)).
Proof.
  intros Hbp t previous st'. subst st'.
  erewrite simulationStep_evaluated by exact Hbp.
  split; [apply evaluateStep_log|].
  split; [intros isat; apply handshakeFor_Some_iff|].
  split; [intros isat h; apply handshakeFor_fields|].
  split.
  - intros i. rewrite evaluateStep_previous. apply elem_of_activeIds.
  - intros k bp2 isat Hin Hact Hfail Hbp2.
    rewrite skipped_steps by exact Hfail. cbn [afterSkips st_handshakeLog].
    split; [reflexivity|].
    unfold appendedHandshakes. cbn [afterSkips previousConnectedIridiumSatIds].
    apply no_handshake_for_connected.
    rewrite evaluateStep_previous. apply elem_of_activeIds. eauto.
Qed.

(** C9.  A step at which the Beacon fails to propagate moves the clock (and the
    counter that throttles the console output) and nothing else: no blackout is
    opened or closed, the previously-connected set and every log and track
    stay as they were; so after any number of such steps the next evaluated
    step makes no record for an id of that set. *)
Theorem skipped_step_changes_only_time (st : SimState) :
  propagateSatellite beaconSatRec st.(currentTime) = None ->
  let st' := step st in
  currentTime st' = (st.(currentTime) + timeStepMs config)%Z
  /\ simulationStepCounter st' = S st.(simulationStepCounter)
  /\ st_blackoutPeriods st' = st.(st_blackoutPeriods)
  /\ currentBlackout st' = st.(currentBlackout)
  /\ previousConnectedIridiumSatIds st' = st.(previousConnectedIridiumSatIds)
  /\ st_totalHandshakes st' = st.(st_totalHandshakes)
  /\ st_handshakeLog st' = st.(st_handshakeLog)
  /\ st_beaconTrack st' = st.(st_beaconTrack)
  /\ st_iridiumTracks st' = st.(st_iridiumTracks)
  /\ st_activeLinksLog st' = st.(st_activeLinksLog)
  /\ (forall (k : nat) (bp : PropagationResult) (i : string),
        beaconFailsFor config beaconSatRec k st ->
        propagateSatellite beaconSatRec (currentTime (Nat.iter k step st)) = Some bp ->
        i ∈ st.(previousConnectedIridiumSatIds) ->
        st_handshakeLog (Nat.iter k step st) = st.(st_handshakeLog)
        /\ Forall (fun h => h.(iridiumSatelliteId) <> i)
                  (appendedHandshakes (Nat.iter k step st) bp)).
Proof.
  intros Hnone st'. subst st'. rewrite simulationStep_skipped by exact Hnone.
  repeat (split; [reflexivity|]).
  intros k bp i Hfail Hbp Hin.
  rewrite skipped_steps by exact Hfail. split; [reflexivity|].
  unfold appendedHandshakes. cbn [afterSkips previousConnectedIridiumSatIds].
  apply no_handshake_for_connected. exact Hin.
Qed.

(** Satellites that fail to propagate are passed over; the others are
    evaluated as if the failing ones were not in the list. *)
Lemma foldSats_skips_failed (t : Z) (bp : PropagationResult) (previous : gset string)
    (sats : list IridiumSatRec) (acc : StepAcc) :
  fold_left (evaluateIridiumSat config t bp previous) sats acc
  = fold_left (evaluateIridiumSat config t bp previous)
      (filter (fun isat => is_Some (propagateSatellite isat.(rec) t)) sats) acc.
Proof.
  revert acc. induction sats as [|isat sats IH]; intros acc; [reflexivity|].
  rewrite filter_cons. cbn [fold_left].
  destruct (decide (is_Some (propagateSatellite isat.(rec) t))) as [Hs|Hn].
  - cbn [fold_left]. apply IH.
  - rewrite evaluateIridiumSat_failed; [apply IH|].
    destruct (propagateSatellite isat.(rec) t); [|reflexivity].
    exfalso. apply Hn. eauto.
Qed.

End EngineClaims.

(** ** Instants visited by a time-stepped loop *)

Lemma dateLeb_true (a b : Z) :
  dateLeb a b = true <-> (- maxTimeValue <= a <= b)%Z /\ (b <= maxTimeValue)%Z.
Proof.
  unfold dateLeb, validTime. rewrite !andb_true_iff, !Z.leb_le. lia.
Qed.

Lemma dateLeb_false (a b : Z) :
  dateLeb a b = false <-> ~ ((- maxTimeValue <= a <= b)%Z /\ (b <= maxTimeValue)%Z).
Proof.
  rewrite <- dateLeb_true. destruct (dateLeb a b); split; congruence.
Qed.

Lemma validTime_true (t : Z) :
  validTime t = true <-> (- maxTimeValue <= t <= maxTimeValue)%Z.
Proof. unfold validTime. rewrite andb_true_iff, !Z.leb_le. reflexivity. Qed.

(** The first [n] instants from [start], [timeStep] apart. *)
Definition instantsFrom (start timeStep : Z) (n : nat) : list Z :=
  map (fun j : nat => (start + Z.of_nat j * timeStep)%Z) (seq 0 n).

(** The number of iterations a loop [while (t <= endTime) t += timeStep] on
    dates makes from [t], when [timeStep] is not 0: with a positive time step
    it ends beyond [endTime], with a negative one below the first valid
    date. *)
Definition stepsLeft (endTime timeStep t : Z) : nat :=
  if dateLeb t endTime then
    if (0 <? timeStep)%Z then Z.to_nat ((endTime - t) / timeStep + 1)
    else Z.to_nat ((t + maxTimeValue) / (- timeStep) + 1)
  else 0.

Lemma stepsLeft_succ (endTime timeStep t : Z) :
  timeStep <> 0%Z -> dateLeb t endTime = true ->
  stepsLeft endTime timeStep t = S (stepsLeft endTime timeStep (t + timeStep)).
Proof.
  intros Hstep Hle. unfold stepsLeft. rewrite Hle.
  apply dateLeb_true in Hle.
  destruct (Z.ltb_spec 0 timeStep) as [Hpos|Hneg].
  - assert (Hq : (0 <= (endTime - t) / timeStep)%Z) by (apply Z.div_pos; lia).
    destruct (dateLeb (t + timeStep) endTime) eqn:Hle2.
    + apply dateLeb_true in Hle2.
      replace (endTime - (t + timeStep))%Z with ((endTime - t) + (-1) * timeStep)%Z by lia.
      rewrite Z.div_add by lia.
      assert ((1 <= (endTime - t) / timeStep)%Z) by (apply Z.div_le_lower_bound; lia).
      lia.
    + apply dateLeb_false in Hle2.
      rewrite Z.div_small by lia. reflexivity.
  - assert (Hq : (0 <= (t + maxTimeValue) / - timeStep)%Z) by (apply Z.div_pos; lia).
    destruct (dateLeb (t + timeStep) endTime) eqn:Hle2.
    + apply dateLeb_true in Hle2.
      replace (t + timeStep + maxTimeValue)%Z
        with ((t + maxTimeValue) + (-1) * (- timeStep))%Z by lia.
      rewrite Z.div_add by lia.
      assert ((1 <= (t + maxTimeValue) / - timeStep)%Z)
        by (apply Z.div_le_lower_bound; lia).
      lia.
    + apply dateLeb_false in Hle2.
      rewrite Z.div_small by lia. reflexivity.
Qed.

Lemma stepsLeft_exit (endTime timeStep t : Z) :
  dateLeb t endTime = false -> stepsLeft endTime timeStep t = 0.
Proof. unfold stepsLeft. intros ->. reflexivity. Qed.

Lemma stepsLeft_le_loopFuel (startTime endTime timeStep : Z) :
  stepsLeft endTime timeStep startTime <= loopFuel startTime endTime timeStep.
Proof.
  unfold stepsLeft, loopFuel.
  destruct (dateLeb startTime endTime); destruct (0 <? timeStep)%Z; lia.
Qed.

Section EngineRun.
Context {math : MathHost} {dates : DateHost} {consts : Constants} {sat : SatelliteJs}
        {tles : TleService}.
Variables (config : SimulationConfig) (beaconSatRec : SatRec)
          (iridiumSatRecs : list IridiumSatRec) (endTime : Z).

Local Abbreviation step := (simulationStep config beaconSatRec iridiumSatRecs).
Local Abbreviation loop :=
  (fun fuel => simulationLoop fuel config beaconSatRec iridiumSatRecs endTime).

(** A property kept by every iteration holds when the loop exits. *)
Lemma simulationLoop_invariant (P : SimState -> Prop) :
  (forall st, P st -> dateLeb st.(currentTime) endTime = true -> P (step st)) ->
  forall fuel st st', P st -> loop fuel st = Some st' ->
  P st' /\ dateLeb st'.(currentTime) endTime = false.
Proof.
  intros Hstep fuel. induction fuel as [|fuel IH]; intros st st' HP Hloop; cbn in Hloop.
  - destruct (dateLeb st.(currentTime) endTime) eqn:Hle; [discriminate|].
    injection Hloop as <-. auto.
  - destruct (dateLeb st.(currentTime) endTime) eqn:Hle.
    + apply (IH _ _ (Hstep _ HP Hle) Hloop).
    + injection Hloop as <-. auto.
Qed.

(** *** Termination *)

(** The number of iterations left from instant [t]. *)
Definition iterationsLeft (t : Z) : nat := stepsLeft endTime (timeStepMs config) t.

Lemma iter_step_time (k : nat) (st : SimState) :
  currentTime (Nat.iter k step st) = (st.(currentTime) + Z.of_nat k * timeStepMs config)%Z.
Proof.
  induction k as [|k IH].
  - cbn. lia.
  - change (Nat.iter (S k) step st) with (step (Nat.iter k step st)).
    rewrite simulationStep_time, IH. lia.
Qed.

(** With a time step other than 0 and enough fuel the loop makes exactly the
    iterations left and exits. *)
Lemma simulationLoop_closed_form (fuel : nat) (st : SimState) :
  timeStepMs config <> 0%Z ->
  iterationsLeft st.(currentTime) <= fuel ->
  loop fuel st = Some (Nat.iter (iterationsLeft st.(currentTime)) step st).
Proof.
  intros Hstep. unfold iterationsLeft. revert st.
  induction fuel as [|fuel IH]; intros st Hfuel; cbn [simulationLoop].
  - destruct (dateLeb st.(currentTime) endTime) eqn:Hle.
    + rewrite (stepsLeft_succ _ _ Hstep Hle) in Hfuel. lia.
    + rewrite (stepsLeft_exit _ _ _ Hle). reflexivity.
  - destruct (dateLeb st.(currentTime) endTime) eqn:Hle.
    + rewrite (stepsLeft_succ _ _ Hstep Hle) in *.
      rewrite IH by (rewrite simulationStep_time; lia).
      rewrite simulationStep_time.
      rewrite <- Nat.iter_succ_r. reflexivity.
    + rewrite (stepsLeft_exit _ _ _ Hle). reflexivity.
Qed.

(** With a time step of 0 the loop, once entered, never exits. *)
Lemma simulationLoop_diverges (fuel : nat) (st : SimState) :
  timeStepMs config = 0%Z -> dateLeb st.(currentTime) endTime = true ->
  loop fuel st = None.
Proof.
  intros Hzero. revert st.
  induction fuel as [|fuel IH]; intros st Hle; cbn [simulationLoop]; rewrite Hle;
    [reflexivity|].
  apply IH. rewrite simulationStep_time, Hzero, Z.add_0_r. exact Hle.
Qed.

End EngineRun.

Section RunClaims.
Context {math : MathHost} {dates : DateHost} {consts : Constants} {sat : SatelliteJs}
        {tles : TleService}.
Variable config : SimulationConfig.

Definition fetchedSatRecs : list IridiumSatRec :=
  initializeIridium (fetchIridiumTLEs config.(iridiumDatasetSources)).

Definition runEndTime (startTime : Z) : Z := (startTime + simulationDurationMs config)%Z.

Lemma length_zero_nil {A : Type} (l : list A) : (length l =? 0) = true <-> l = [].
Proof. destruct l; cbn; split; intros; congruence. Qed.

(** What a returned result is made of. *)
Lemma runSimulation_Returned (startTime : Z) (r : SimulationResults) :
  runSimulation config startTime = Returned r ->
  exists beaconSatRec st,
    initializeBeacon config startTime = Some beaconSatRec
    /\ simulationLoop (loopFuel startTime (runEndTime startTime) (timeStepMs config))
         config beaconSatRec fetchedSatRecs (runEndTime startTime)
         (initialState startTime fetchedSatRecs) = Some st
    /\ r = finalResults st
    /\ validTime startTime = true
    /\ validTime (runEndTime startTime) = true.
Proof.
  unfold runSimulation, fetchedSatRecs, runEndTime.
  destruct (validTime startTime); [|discriminate]. cbn [negb].
  destruct (initializeBeacon config startTime) as [b|]; [|discriminate].
  destruct (length (fetchIridiumTLEs _) =? 0); [discriminate|].
  destruct (length (initializeIridium _) =? 0); [discriminate|].
  destruct (validTime (startTime + simulationDurationMs config)); [|discriminate].
  cbn [negb].
  destruct (simulationLoop _ _ _ _ _ _) as [st|] eqn:Hloop; [|discriminate].
  intros [= <-]. exists b, st. auto.
Qed.

(** [propagateSatellite] gives no result exactly when the propagator returns
    [false] or throws, or leaves out the position or the velocity, or a
    coordinate of the position is NaN. *)
Lemma propagateSatellite_None_iff (satrec : SatRec) (t : Z) :
  propagateSatellite satrec t = None
  <-> satellite_propagate satrec t = None
      \/ exists pv, satellite_propagate satrec t = Some pv
           /\ (pv.(position) = None \/ pv.(velocity) = None
               \/ exists p, pv.(position) = Some p
                    /\ (is_nan p.(x) || is_nan p.(y) || is_nan p.(z)) = true).
Proof.
  unfold propagateSatellite.
  destruct (satellite_propagate satrec t) as [pv|]; [|split; auto].
  destruct pv.(position) as [p|] eqn:Hp.
  - destruct pv.(velocity) as [v|] eqn:Hv.
    + destruct (is_nan p.(x) || is_nan p.(y) || is_nan p.(z)) eqn:Hnan.
      * split; [intros _|reflexivity]. right. exists pv. split; [reflexivity|].
        right. right. exists p. rewrite Hp. auto.
      * split; [discriminate|].
        intros [H|(pv' & [= <-] & [H|[H|(p' & Hp' & Hn)]])]; try congruence.
    + split; [intros _|reflexivity]. right. exists pv. rewrite Hp, Hv. eauto.
  - split; [intros _|reflexivity]. right. exists pv. rewrite Hp. eauto.
Qed.

(** C4, amended.  The run throws an [Error] exactly when its start is a valid
    date and the Beacon record cannot be initialized, or no Iridium TLE is
    fetched, or none of the fetched TLEs initializes.  It throws a RangeError
    exactly when its start is an Invalid Date, or all three have succeeded and
    the end of the run, start + duration, is an Invalid Date.  A Beacon
    propagation that fails or gives a NaN position coordinate makes the step a
    skipped step, after which the loop goes on from the next instant; such an
    Iridium propagation leaves the step's accumulators as they are, and the
    other satellites are evaluated as if the failing one were not there. *)
Theorem runSimulation_throws_only_on_preconditions (startTime : Z) :
  ((exists message, runSimulation config startTime = Threw message)
   <-> validTime startTime = true
       /\ (initializeBeacon config startTime = None
           \/ fetchIridiumTLEs config.(iridiumDatasetSources) = []
           \/ fetchedSatRecs = []))
  /\ (runSimulation config startTime = ThrewRangeError
      <-> validTime startTime = false
          \/ (is_Some (initializeBeacon config startTime)
              /\ fetchedSatRecs <> []
              /\ validTime (runEndTime startTime) = false))
  /\ (forall satrec t,
        propagateSatellite satrec t = None
        <-> satellite_propagate satrec t = None
            \/ exists pv, satellite_propagate satrec t = Some pv
                 /\ (pv.(position) = None \/ pv.(velocity) = None
                     \/ exists p, pv.(position) = Some p
                          /\ (is_nan p.(x) || is_nan p.(y) || is_nan p.(z)) = true))
  /\ (forall beaconSatRec iridiumSatRecs st,
        propagateSatellite beaconSatRec st.(currentTime) = None ->
        simulationStep config beaconSatRec iridiumSatRecs st = skipStep config st
        /\ currentTime (skipStep config st) = (st.(currentTime) + timeStepMs config)%Z)
  /\ (forall t bp previous acc isat,
        propagateSatellite isat.(rec) t = None ->
        evaluateIridiumSat config t bp previous acc isat = acc)
  /\ (forall t bp previous iridiumSatRecs acc,
        fold_left (evaluateIridiumSat config t bp previous) iridiumSatRecs acc
        = fold_left (evaluateIridiumSat config t bp previous)
            (filter (fun isat => is_Some (propagateSatellite isat.(rec) t)) iridiumSatRecs)
            acc).
Proof.
  assert (Hnil : fetchIridiumTLEs config.(iridiumDatasetSources) = [] -> fetchedSatRecs = [])
    by (unfold fetchedSatRecs; intros ->; reflexivity).
  split; [|split; [|split; [exact propagateSatellite_None_iff|split; [|split]]]].
  - unfold runSimulation. fold (runEndTime startTime).
    destruct (validTime startTime); cbn [negb];
      [|split; [intros [m [=]]|intros [[=] _]]].
    destruct (initializeBeacon config startTime) as [b|]; [|split; eauto].
    fold fetchedSatRecs.
    destruct (length (fetchIridiumTLEs _) =? 0) eqn:E1.
    { apply length_zero_nil in E1. split; eauto. }
    destruct (length fetchedSatRecs =? 0) eqn:E2.
    { apply length_zero_nil in E2. split; eauto. }
    assert (N1 : fetchIridiumTLEs (iridiumDatasetSources config) <> [])
      by (intros H; apply length_zero_nil in H; congruence).
    assert (N2 : fetchedSatRecs <> [])
      by (intros H; apply length_zero_nil in H; congruence).
    split.
    + intros [m Hm]. destruct (validTime (runEndTime startTime)); [|discriminate].
      cbn [negb] in Hm. destruct (simulationLoop _ _ _ _ _ _); discriminate.
    + intros [_ [H|[H|H]]]; [discriminate | contradiction | contradiction].
  - unfold runSimulation. fold (runEndTime startTime).
    destruct (validTime startTime); cbn [negb];
      [|split; [intros _; left; reflexivity|reflexivity]].
    destruct (initializeBeacon config startTime) as [b|].
    2:{ split; [discriminate|]. intros [[=]|([? [=]] & _)]. }
    fold fetchedSatRecs.
    destruct (length (fetchIridiumTLEs _) =? 0) eqn:E1.
    { apply length_zero_nil in E1. split; [discriminate|].
      intros [[=]|(_ & N & _)]. elim N. auto. }
    destruct (length fetchedSatRecs =? 0) eqn:E2.
    { apply length_zero_nil in E2. split; [discriminate|].
      intros [[=]|(_ & N & _)]. contradiction. }
    assert (N2 : fetchedSatRecs <> [])
      by (intros H; apply length_zero_nil in H; congruence).
    destruct (validTime (runEndTime startTime)); cbn [negb].
    + split; [|intros [[=]|(_ & _ & [=])]].
      destruct (simulationLoop _ _ _ _ _ _); discriminate.
    + split; [|reflexivity]. intros _. right. eauto.
  - intros b sats st Hnone. split; [|reflexivity].
    apply simulationStep_skipped. exact Hnone.
  - intros t bp previous acc isat. apply evaluateIridiumSat_failed.
  - intros t bp previous sats acc. apply foldSats_skips_failed.
Qed.

(** *** The track and the per-step link sets *)

(** Every entry of the active-links log stands beside a Beacon track entry and
    holds the ids active at that entry's instant. *)
Definition tracksAligned (beaconSatRec : SatRec) (iridiumSatRecs : list IridiumSatRec)
    (track : list SatellitePosition) (links : list (gset string)) : Prop :=
  Forall2 (fun bt s =>
             exists bp, propagateSatellite beaconSatRec bt.(timestamp) = Some bp
                        /\ s = activeIds config bt.(timestamp) bp iridiumSatRecs)
          track links.

Lemma step_keeps_tracksAligned (b : SatRec) (sats : list IridiumSatRec) (st : SimState) :
  tracksAligned b sats st.(st_beaconTrack) st.(st_activeLinksLog) ->
  tracksAligned b sats (st_beaconTrack (simulationStep config b sats st))
                       (st_activeLinksLog (simulationStep config b sats st)).
Proof.
  intros Hal. unfold simulationStep.
  destruct (propagateSatellite b st.(currentTime)) as [bp|] eqn:Hbp; [|exact Hal].
  rewrite evaluateStep_activeLinksLog. unfold evaluateStep. cbn [st_beaconTrack].
  apply Forall2_app; [exact Hal|].
  constructor; [|constructor]. cbn [timestamp]. eauto.
Qed.

Lemma evaluateIridiumSat_dom (t : Z) (bp : PropagationResult) (previous : gset string)
    (acc : StepAcc) (isat : IridiumSatRec) :
  dom (acc_iridiumTracks (evaluateIridiumSat config t bp previous acc isat))
  = dom acc.(acc_iridiumTracks).
Proof.
  unfold evaluateIridiumSat.
  destruct (propagateSatellite isat.(rec) t) as [ip|]; [|reflexivity].
  destruct (canCommunicate _ _ _ _ _ _); cbn [acc_iridiumTracks]; apply dom_alter_L.
Qed.

Lemma foldSats_dom (t : Z) (bp : PropagationResult) (previous : gset string)
    (sats : list IridiumSatRec) (acc : StepAcc) :
  dom (acc_iridiumTracks (fold_left (evaluateIridiumSat config t bp previous) sats acc))
  = dom acc.(acc_iridiumTracks).
Proof.
  revert acc. induction sats as [|isat sats IH]; intros acc; [reflexivity|].
  cbn [fold_left]. rewrite IH. apply evaluateIridiumSat_dom.
Qed.

Lemma step_keeps_track_keys (b : SatRec) (sats : list IridiumSatRec) (st : SimState) :
  dom (st_iridiumTracks (simulationStep config b sats st)) = dom st.(st_iridiumTracks).
Proof.
  unfold simulationStep.
  destruct (propagateSatellite b st.(currentTime)) as [bp|]; [|reflexivity].
  unfold evaluateStep. cbn [st_iridiumTracks]. apply foldSats_dom.
Qed.

Lemma initial_track_keys (sats : list IridiumSatRec) (tracks : gmap string (list SatellitePosition)) :
  dom (fold_left (fun tracks isat => <[ isat.(id) := [] ]> tracks) sats tracks)
  = list_to_set (map id sats) ∪ dom tracks.
Proof.
  revert tracks. induction sats as [|isat sats IH]; intros tracks; cbn [fold_left map].
  - cbn. symmetry. apply (left_id_L ∅ (∪)).
  - rewrite IH, dom_insert_L, list_to_set_cons.
    rewrite (assoc_L (∪)). f_equal. apply (comm_L (∪)).
Qed.

(** C3.  When the run returns, [beaconTrack] and [activeLinksLog] have the same
    length; entry [i] of the log is the set of ids whose link is active at the
    instant of entry [i] of the track, an instant at which the Beacon
    propagated; a skipped step adds to neither; and every initialized
    satellite has its track, possibly empty. *)
Theorem activeLinksLog_matches_beaconTrack (startTime : Z) (r : SimulationResults) :
  runSimulation config startTime = Returned r ->
  exists beaconSatRec,
    initializeBeacon config startTime = Some beaconSatRec
    /\ length r.(beaconTrack) = length r.(activeLinksLog)
    /\ (forall (i : nat) (bt : SatellitePosition) (s : gset string),
          r.(beaconTrack) !! i = Some bt -> r.(activeLinksLog) !! i = Some s ->
          exists bp,
            propagateSatellite beaconSatRec bt.(timestamp) = Some bp
            /\ forall satId : string,
                 satId ∈ s <->
                 exists isat, isat ∈ fetchedSatRecs /\ isat.(id) = satId
                              /\ linkActive config bt.(timestamp) bp isat = true)
    /\ (forall st, propagateSatellite beaconSatRec st.(currentTime) = None ->
          st_beaconTrack (simulationStep config beaconSatRec fetchedSatRecs st)
            = st.(st_beaconTrack)
          /\ st_activeLinksLog (simulationStep config beaconSatRec fetchedSatRecs st)
              = st.(st_activeLinksLog))
    /\ (forall isat, isat ∈ fetchedSatRecs -> is_Some (r.(iridiumTracks) !! isat.(id))).
Proof.
  intros Hrun. destruct (runSimulation_Returned _ Hrun) as (b & st & Hb & Hloop & -> & _).
  exists b. split; [exact Hb|].
  pose (P := fun st : SimState =>
    tracksAligned b fetchedSatRecs st.(st_beaconTrack) st.(st_activeLinksLog)
    /\ dom st.(st_iridiumTracks) = list_to_set (map id fetchedSatRecs)).
  assert (HP : P st).
  { eapply proj1, simulationLoop_invariant with (P := P); [| |exact Hloop].
    - intros st0 [Hal Hdom] _. split.
      + apply step_keeps_tracksAligned. exact Hal.
      + rewrite step_keeps_track_keys. exact Hdom.
    - split.
      + constructor.
      + cbn [initialState st_iridiumTracks]. rewrite initial_track_keys.
        rewrite dom_empty_L. apply (right_id_L ∅ (∪)). }
  destruct HP as [Hal Hdom]. cbn [finalResults beaconTrack activeLinksLog iridiumTracks].
  split; [exact (Forall2_length _ _ _ Hal)|].
  split.
  - intros i bt s Hbt Hs.
    destruct (Forall2_lookup_lr _ _ _ _ _ _ Hal Hbt Hs) as (bp & Hbp & ->).
    exists bp. split; [exact Hbp|]. intros satId. apply elem_of_activeIds.
  - split.
    + intros st0 Hnone. rewrite simulationStep_skipped by exact Hnone. split; reflexivity.
    + intros isat Hin. apply elem_of_dom. rewrite Hdom.
      apply elem_of_list_to_set, list_elem_of_fmap. eauto.
Qed.

(** *** Consistency of the returned totals *)

(** [duration] is ([endTime] - [startTime]) / 1000, which is NaN when
    [endTime] is. *)
Definition blackoutWellFormed (p : BlackoutPeriod) : Prop :=
  match p.(endTime) with
  | Some endTimeMs => p.(duration) = (float_of_Z (endTimeMs - p.(startTime)) / 1000)%float
  | None => is_nan p.(duration) = true
  end.

(** The sum of the [duration] fields, added up from 0 in log order. *)
Definition sumOfDurations (periods : list BlackoutPeriod) : float :=
  fold_left PrimFloat.add (map duration periods) 0%float.

Lemma sumOfDurations_fold (periods : list BlackoutPeriod) (z : float) :
  fold_left (fun total p => (total + p.(duration))%float) periods z
  = fold_left PrimFloat.add (map duration periods) z.
Proof.
  revert z. induction periods as [|p periods IH]; intros z; [reflexivity|].
  cbn [fold_left map]. apply IH.
Qed.

Lemma step_keeps_count (b : SatRec) (sats : list IridiumSatRec) (st : SimState) :
  st.(st_totalHandshakes) = length st.(st_handshakeLog) ->
  st_totalHandshakes (simulationStep config b sats st)
  = length (st_handshakeLog (simulationStep config b sats st)).
Proof.
  intros Hc. unfold simulationStep.
  destruct (propagateSatellite b st.(currentTime)) as [bp|]; [|exact Hc].
  rewrite evaluateStep_total, evaluateStep_log, length_app, Hc. reflexivity.
Qed.

Lemma step_keeps_blackouts_wellFormed (b : SatRec) (sats : list IridiumSatRec) (st : SimState) :
  Forall blackoutWellFormed st.(st_blackoutPeriods) ->
  Forall blackoutWellFormed (st_blackoutPeriods (simulationStep config b sats st)).
Proof.
  intros Hw. unfold simulationStep.
  destruct (propagateSatellite b st.(currentTime)) as [bp|]; [|exact Hw].
  unfold evaluateStep. cbn [st_blackoutPeriods].
  destruct (beaconIsInCommunicationThisStep _); [|exact Hw].
  destruct st.(currentBlackout) as [blackoutStart|]; [|exact Hw].
  apply Forall_app. split; [exact Hw|]. constructor; [reflexivity|constructor].
Qed.

(** C10.  In a returned result [totalHandshakes] is the length of
    [handshakeLog], [numberOfBlackouts] the length of [blackoutPeriods],
    [totalBlackoutDuration] the sum of the periods' durations,
    [averageBlackoutDuration] that total divided by the number of periods, or 0
    when there is none, and each period's duration is (endTime - startTime) /
    1000. *)
Theorem results_internally_consistent (startTime : Z) (r : SimulationResults) :
  runSimulation config startTime = Returned r ->
  r.(totalHandshakes) = length r.(handshakeLog)
  /\ r.(numberOfBlackouts) = length r.(blackoutPeriods)
  /\ r.(totalBlackoutDuration) = sumOfDurations r.(blackoutPeriods)
  /\ r.(averageBlackoutDuration)
     = (if (0 <? r.(numberOfBlackouts))%nat
        then (r.(totalBlackoutDuration) / float_of_Z (Z.of_nat r.(numberOfBlackouts)))%float
        else 0%float)
  /\ Forall blackoutWellFormed r.(blackoutPeriods).
Proof.
  intros Hrun. destruct (runSimulation_Returned _ Hrun) as (b & st & Hb & Hloop & -> & _).
  pose (P := fun st : SimState =>
    st.(st_totalHandshakes) = length st.(st_handshakeLog)
    /\ Forall blackoutWellFormed st.(st_blackoutPeriods)).
  assert (HP : P st).
  { eapply proj1, simulationLoop_invariant with (P := P); [| |exact Hloop].
    - intros st0 [Hc Hw] _. split.
      + apply step_keeps_count. exact Hc.
      + apply step_keeps_blackouts_wellFormed. exact Hw.
    - split; [reflexivity|constructor]. }
  destruct HP as [Hc Hw]. unfold finalResults.
  cbn [totalHandshakes handshakeLog numberOfBlackouts blackoutPeriods
       totalBlackoutDuration averageBlackoutDuration].
  split; [exact Hc|]. split; [reflexivity|].
  split; [apply sumOfDurations_fold|]. split; [reflexivity|].
  destruct st.(currentBlackout) as [blackoutStart|]; [|exact Hw].
  apply Forall_app. split; [exact Hw|]. constructor; [|constructor].
  unfold blackoutWellFormed. destruct (getTime st.(currentTime)); reflexivity.
Qed.

End RunClaims.

(** ** Runs without any active link *)

Section NoLinkRun.
Context {math : MathHost} {dates : DateHost} {consts : Constants} {sat : SatelliteJs}
        {tles : TleService}.
Variables (config : SimulationConfig) (beaconSatRec : SatRec)
          (iridiumSatRecs : list IridiumSatRec) (start : Z).

Local Abbreviation step := (simulationStep config beaconSatRec iridiumSatRecs).


(** The first [n] instants the loop visits. *)
Definition loopInstants (n : nat) : list Z :=
  map (fun j : nat => (start + Z.of_nat j * timeStepMs config)%Z) (seq 0 n).







Lemma evaluateStep_blackoutPeriods (bp : PropagationResult) (st : SimState) :
  st_blackoutPeriods (evaluateStep config iridiumSatRecs bp st)
  = if existsb (linkActive config st.(currentTime) bp) iridiumSatRecs
    then match st.(currentBlackout) with
         | Some blackoutStart =>
             st.(st_blackoutPeriods) ++ [mkBlackout blackoutStart (Some st.(currentTime))]
         | None => st.(st_blackoutPeriods)
         end
    else st.(st_blackoutPeriods).
Proof.
  pose proof (evaluateStep_inComm config iridiumSatRecs bp st) as H.
  unfold foldSats in H. unfold evaluateStep. cbn [st_blackoutPeriods].
  rewrite H. reflexivity.
Qed.

Lemma evaluateStep_currentBlackout (bp : PropagationResult) (st : SimState) :
  currentBlackout (evaluateStep config iridiumSatRecs bp st)
  = if existsb (linkActive config st.(currentTime) bp) iridiumSatRecs then None
    else match st.(currentBlackout) with
         | Some blackoutStart => Some blackoutStart
         | None => Some st.(currentTime)
         end.
Proof.
  pose proof (evaluateStep_inComm config iridiumSatRecs bp st) as H.
  unfold foldSats in H. unfold evaluateStep. cbn [currentBlackout].
  rewrite H. reflexivity.
Qed.


End NoLinkRun.

Section NoLinkClaim.
Context {math : MathHost} {dates : DateHost} {consts : Constants} {sat : SatelliteJs}
        {tles : TleService}.
Variable config : SimulationConfig.

Lemma iterationsLeft_le_loopFuel (startTime endTime : Z) :
  iterationsLeft config endTime startTime <= loopFuel startTime endTime (timeStepMs config).
Proof. apply stepsLeft_le_loopFuel. Qed.

(** With a time step other than 0, valid dates and its preconditions met, the
    run returns. *)
Lemma runSimulation_returns (startTime : Z) (b : SatRec) :
  timeStepMs config <> 0%Z ->
  validTime startTime = true ->
  validTime (runEndTime config startTime) = true ->
  initializeBeacon config startTime = Some b ->
  fetchIridiumTLEs config.(iridiumDatasetSources) <> [] ->
  fetchedSatRecs config <> [] ->
  runSimulation config startTime
  = Returned (finalResults
      (Nat.iter (iterationsLeft config (runEndTime config startTime) startTime)
         (simulationStep config b (fetchedSatRecs config))
         (initialState startTime (fetchedSatRecs config)))).
Proof.
  intros Hstep Hvs Hve Hb Hf Hs. unfold runSimulation. rewrite Hvs, Hb. cbn [negb].
  destruct (length (fetchIridiumTLEs _) =? 0) eqn:E1;
    [apply length_zero_nil in E1; contradiction|].
  fold (fetchedSatRecs config).
  destruct (length (fetchedSatRecs config) =? 0) eqn:E2;
    [apply length_zero_nil in E2; contradiction|].
  fold (runEndTime config startTime). rewrite Hve. cbn [negb].
  rewrite simulationLoop_closed_form;
    [reflexivity | exact Hstep | apply iterationsLeft_le_loopFuel].
Qed.

(** The run fails to return exactly when, its preconditions met and its dates
    valid, the loop is entered with a time step of 0: no bound on the number
    of iterations lets such a loop exit. *)
Lemma runSimulation_NeverReturns_iff (startTime : Z) :
  runSimulation config startTime = NeverReturns
  <-> validTime startTime = true
      /\ validTime (runEndTime config startTime) = true
      /\ is_Some (initializeBeacon config startTime)
      /\ fetchIridiumTLEs config.(iridiumDatasetSources) <> []
      /\ fetchedSatRecs config <> []
      /\ timeStepMs config = 0%Z
      /\ (0 <= simulationDurationMs config)%Z.
Proof.
  split.
  - intros Hrun.
    destruct (validTime startTime) eqn:Hvs;
      [|unfold runSimulation in Hrun; rewrite Hvs in Hrun; discriminate].
    destruct (initializeBeacon config startTime) as [b|] eqn:Hb;
      [|unfold runSimulation in Hrun; rewrite Hvs, Hb in Hrun; discriminate].
    destruct (decide (fetchIridiumTLEs config.(iridiumDatasetSources) = [])) as [Hf|Hf];
      [unfold runSimulation in Hrun; rewrite Hvs, Hb, Hf in Hrun; discriminate|].
    destruct (decide (fetchedSatRecs config = [])) as [Hs|Hs].
    { unfold runSimulation in Hrun. rewrite Hvs, Hb in Hrun.
      fold (fetchedSatRecs config) in Hrun. rewrite Hs in Hrun.
      destruct (length (fetchIridiumTLEs _) =? 0); discriminate. }
    destruct (validTime (runEndTime config startTime)) eqn:Hve.
    2:{ unfold runSimulation in Hrun. rewrite Hvs, Hb in Hrun.
        fold (fetchedSatRecs config) (runEndTime config startTime) in Hrun.
        rewrite Hve in Hrun.
        destruct (length (fetchIridiumTLEs _) =? 0); [discriminate|].
        destruct (length (fetchedSatRecs config) =? 0); discriminate. }
    destruct (decide (timeStepMs config = 0%Z)) as [Hzero|Hstep].
    2:{ rewrite (runSimulation_returns startTime Hstep Hvs Hve Hb Hf Hs) in Hrun.
        discriminate. }
    destruct (Z.lt_ge_cases (simulationDurationMs config) 0) as [Hd|Hd];
      [|repeat split; eauto].
    exfalso. unfold runSimulation in Hrun. rewrite Hvs, Hb in Hrun.
    fold (fetchedSatRecs config) (runEndTime config startTime) in Hrun.
    rewrite Hve in Hrun.
    destruct (length (fetchIridiumTLEs _) =? 0); [discriminate|].
    destruct (length (fetchedSatRecs config) =? 0); [discriminate|].
    assert (Hle : dateLeb startTime (runEndTime config startTime) = false)
      by (apply dateLeb_false; unfold runEndTime; lia).
    cbn [negb] in Hrun.
    destruct (loopFuel _ _ _); cbn [simulationLoop initialState currentTime] in Hrun;
      rewrite Hle in Hrun; discriminate.
  - intros (Hvs & Hve & [b Hb] & Hf & Hs & Hzero & Hd). unfold runSimulation.
    rewrite Hvs, Hb. cbn [negb].
    destruct (length (fetchIridiumTLEs _) =? 0) eqn:E1;
      [apply length_zero_nil in E1; contradiction|].
    fold (fetchedSatRecs config).
    destruct (length (fetchedSatRecs config) =? 0) eqn:E2;
      [apply length_zero_nil in E2; contradiction|].
    fold (runEndTime config startTime). rewrite Hve. cbn [negb].
    rewrite simulationLoop_diverges; [reflexivity | exact Hzero |].
    cbn [initialState currentTime]. apply dateLeb_true.
    apply validTime_true in Hvs, Hve. unfold runEndTime in *. lia.
Qed.



End NoLinkClaim.

(** ** Example scenarios *)

(** The UTC fields of [exampleStart]. *)
Definition exampleDates : DateHost :=
  {| getUTCFullYear := fun _ => 2025%Z;
     getUTCMonth := fun _ => 4%Z;
     getUTCDate := fun _ => 1%Z;
     getUTCHours := fun _ => 0%Z;
     getUTCMinutes := fun _ => 0%Z;
     getUTCSeconds := fun _ => 0%Z;
     getUTCMilliseconds := fun _ => 0%Z;
     Date_UTC := fun _ _ _ => 1735689600000%Z |}.

Definition exampleConstants : Constants :=
  {| RADIUS_EARTH_KM := 6378.137%float;
     GM_EARTH := 398600.4418%float;
     SECONDS_PER_DAY := 86400%float |}.

(** 2025-05-01T00:00:00Z *)
Definition exampleStart : Z := 1746057600000%Z.

(** A propagator whose satellite records are trajectories: the Beacon's is
    returned for the generated Beacon lines, an Iridium one is looked up by
    its first line. *)
Definition Trajectory : Type := Z -> option PositionAndVelocity.

Definition fixedAt (p v : CartesianVector) : Trajectory :=
  fun _ => Some {| position := Some p; velocity := Some v |}.

Definition scenarioSat (beacon : Trajectory) (iridium : list (string * Trajectory))
    : SatelliteJs :=
  {| SatRec := Trajectory;
     satrec_error := fun _ => 0%Z;
     twoline2satrec := fun l1 _ =>
       if String.prefix "1 99990" l1 then Some beacon
       else snd <$> List.find (fun p => String.eqb (fst p) l1) iridium;
     satellite_propagate := fun rec t => rec t;
     gstime := fun _ => 0%float;
     eciToGeodetic := fun _ _ => {| la_latitude := 0; la_longitude := 0; height := 0 |};
     degreesLat := fun v => v;
     degreesLong := fun v => v;
     radiansLong := fun degrees =>
       if ((degrees <? -180)%float || (180 <? degrees)%float)%bool then None
       else Some (degrees * (Math_PI / 180))%float |}.

Definition scenarioTles (iridium : list (string * Trajectory)) : TleService :=
  {| fetchIridiumTLEs := fun _ =>
       map (fun p => {| name := fst p; line1 := fst p; line2 := "2" |}) iridium |}.

Definition exampleConfig (hours stepSec : Z) : SimulationConfig :=
  {| beaconParams := NonPolar {| np_altitude := 550; inclination := 53; raan := None |};
     iridiumFovDeg := 62;
     beaconFovDeg := 62;
     simulationDurationHours := hours;
     simulationTimeStepSec := stepSec;
     iridiumDatasetSources := None;
     handshakeMode := OneWay;
     startTimeISO := None |}.

Definition beaconTrajectory : Trajectory := fixedAt (pt 7000 0 0) (pt 0 7.5 0).

(** Scenario "far side": the only Iridium satellite stays on the other side of
    the Earth; the Beacon is on its nadir axis, and the Earth is in between. *)
Definition farSideIridium : list (string * Trajectory) :=
  [("IRIDIUM 1", fixedAt (pt (-7200) 0 0) (pt 0 (-7.4) 0))].

Definition emptyResults : SimulationResults :=
  {| totalHandshakes := 0; handshakeLog := []; activeLinksLog := [];
     blackoutPeriods := []; totalBlackoutDuration := 0; averageBlackoutDuration := 0;
     numberOfBlackouts := 0; beaconTrack := []; iridiumTracks := ∅ |}.

Definition resultsOf (o : Outcome) : SimulationResults :=
  match o with Returned r => r | _ => emptyResults end.

Definition farSideRun : Outcome :=
  runSimulation (math := exampleMath) (dates := exampleDates) (consts := exampleConstants)
    (sat := scenarioSat beaconTrajectory farSideIridium)
    (tles := scenarioTles farSideIridium)
    (exampleConfig 1 60) exampleStart.

Definition farSideResults : SimulationResults := Eval vm_compute in resultsOf farSideRun.



(** Scenario "far side" in one step of 10^13 s: the clock after the first
    instant is an Invalid Date, and the open blackout is closed at NaN. *)
Definition longStepRun : Outcome :=
  runSimulation (math := exampleMath) (dates := exampleDates) (consts := exampleConstants)
    (sat := scenarioSat beaconTrajectory farSideIridium)
    (tles := scenarioTles farSideIridium)
    (exampleConfig 1 10000000000000) exampleStart.

Definition longStepResults : SimulationResults := Eval vm_compute in resultsOf longStepRun.

Example no_link_run_closed_at_NaN :
  longStepRun = Returned longStepResults
  /\ map timestamp longStepResults.(beaconTrack) = [exampleStart]
  /\ longStepResults.(blackoutPeriods)
     = [{| startTime := exampleStart; endTime := None; duration := nan |}]
  /\ longStepResults.(totalBlackoutDuration) = nan
  /\ longStepResults.(averageBlackoutDuration) = nan.
Proof.
  split; [vm_cast_no_check (@eq_refl Outcome (Returned longStepResults))|].
  repeat split; vm_compute; reflexivity.
Qed.

(** Scenario "gap": three instants half an hour apart.  The Beacon fails to
    propagate at the second.  IRIDIUM 7 is 200 km above the Beacon throughout;
    IRIDIUM 9 is behind the Earth until the third instant, then 300 km above
    the Beacon. *)
Definition gapBeacon : Trajectory :=
  fun t => if (t =? exampleStart + 1800000)%Z then None else beaconTrajectory t.

Definition iridium7 : Trajectory := fixedAt (pt 7200 0 0) (pt 0 7.4 0).

Definition iridium9 : Trajectory :=
  fun t => if (t <? exampleStart + 3600000)%Z
           then fixedAt (pt (-7200) 0 0) (pt 0 (-7.4) 0) t
           else fixedAt (pt 7300 0 0) (pt 0 7.4 0) t.

Definition gapIridium : list (string * Trajectory) :=
  [("IRIDIUM 7", iridium7); ("IRIDIUM 9", iridium9)].

Definition gapSat : SatelliteJs := scenarioSat gapBeacon gapIridium.
Definition gapTles : TleService := scenarioTles gapIridium.
Definition gapConfig : SimulationConfig := exampleConfig 1 1800.

Definition gapSatRecs : list (IridiumSatRec (sat := gapSat)) :=
  [@Build_IridiumSatRec gapSat "IRIDIUM 7" iridium7;
   @Build_IridiumSatRec gapSat "IRIDIUM 9" iridium9].

Example gapSatRecs_fetched :
  fetchedSatRecs (sat := gapSat) (tles := gapTles) gapConfig = gapSatRecs.
Proof. reflexivity. Qed.

Definition gapRun : Outcome :=
  runSimulation (math := exampleMath) (dates := exampleDates) (consts := exampleConstants)
    (sat := gapSat) (tles := gapTles) gapConfig exampleStart.

Definition gapResults : SimulationResults := Eval vm_compute in resultsOf gapRun.

Definition gapStep : SimState -> SimState :=
  simulationStep (math := exampleMath) (consts := exampleConstants) (sat := gapSat)
    gapConfig gapBeacon gapSatRecs.

Definition gapBeaconFix : PropagationResult :=
  {| pr_positionEci := pt 7000 0 0;
     pr_velocityEci := pt 0 7.5 0;
     pr_positionGeodetic := {| la_latitude := 0; la_longitude := 0; height := 0 |} |}.

(** The run of the scenario: IRIDIUM 7 shakes hands at the first instant and
    not again at the third, across the skipped second; IRIDIUM 9 shakes hands
    at the third. *)
Example gap_run :
  gapRun = Returned gapResults
  /\ map (fun h => (h.(hs_timestamp), h.(iridiumSatelliteId))) gapResults.(handshakeLog)
     = [(exampleStart, "IRIDIUM 7"); ((exampleStart + 3600000)%Z, "IRIDIUM 9")]
  /\ map timestamp gapResults.(beaconTrack) = [exampleStart; (exampleStart + 3600000)%Z]
  /\ gapResults.(activeLinksLog) = [{[ "IRIDIUM 7" ]}; {[ "IRIDIUM 7"; "IRIDIUM 9" ]}]
  /\ gapResults.(blackoutPeriods) = [].
Proof.
  split; [vm_cast_no_check (@eq_refl Outcome (Returned gapResults))|].
  repeat split; vm_compute; reflexivity.
Qed.

Lemma handshake_iff_activation_edge_witness :
  st_handshakeLog (gapStep (initialState exampleStart gapSatRecs))
  = appendedHandshakes (math := exampleMath) (consts := exampleConstants) gapConfig gapSatRecs
      (initialState exampleStart gapSatRecs) gapBeaconFix.
Proof.
  refine (proj1 (handshake_iff_activation_edge
                   (math := exampleMath) (consts := exampleConstants) (sat := gapSat)
                   gapConfig gapBeacon gapSatRecs
                   (initialState exampleStart gapSatRecs) (bp := gapBeaconFix) _)).
  vm_compute. reflexivity.
Defined.

(** The state after the first instant of the scenario, whose next step is
    skipped. *)
Definition gapAfterFirst : SimState :=
  gapStep (initialState exampleStart gapSatRecs).

Lemma skipped_step_changes_only_time_witness :
  previousConnectedIridiumSatIds (gapStep gapAfterFirst)
  = previousConnectedIridiumSatIds gapAfterFirst
  /\ currentBlackout (gapStep gapAfterFirst) = currentBlackout gapAfterFirst.
Proof.
  pose proof (skipped_step_changes_only_time
                (math := exampleMath) (consts := exampleConstants) (sat := gapSat)
                gapConfig gapBeacon gapSatRecs gapAfterFirst) as H.
  destruct H as (_ & _ & _ & Hb & Hp & _).
  - vm_compute. reflexivity.
  - split; [exact Hp | exact Hb].
Defined.

Lemma activeLinksLog_matches_beaconTrack_witness :
  length gapResults.(beaconTrack) = length gapResults.(activeLinksLog).
Proof.
  destruct (activeLinksLog_matches_beaconTrack
              (math := exampleMath) (dates := exampleDates) (consts := exampleConstants)
              (sat := gapSat) (tles := gapTles) gapConfig exampleStart (r := gapResults))
    as (b & _ & Hlen & _).
  - vm_cast_no_check (@eq_refl Outcome (Returned gapResults)).
  - exact Hlen.
Defined.

Lemma results_internally_consistent_witness :
  gapResults.(totalHandshakes) = length gapResults.(handshakeLog)
  /\ farSideResults.(totalBlackoutDuration) = sumOfDurations farSideResults.(blackoutPeriods).
Proof.
  split.
  - refine (proj1 (results_internally_consistent
                     (math := exampleMath) (dates := exampleDates) (consts := exampleConstants)
                     (sat := gapSat) (tles := gapTles) gapConfig exampleStart
                     (r := gapResults) _)).
    vm_cast_no_check (@eq_refl Outcome (Returned gapResults)).
  - refine (proj1 (proj2 (proj2 (results_internally_consistent
                     (math := exampleMath) (dates := exampleDates) (consts := exampleConstants)
                     (sat := scenarioSat beaconTrajectory farSideIridium)
                     (tles := scenarioTles farSideIridium) (exampleConfig 1 60) exampleStart
                     (r := farSideResults) _)))).
    vm_cast_no_check (@eq_refl Outcome (Returned farSideResults)).
Defined.


(** On 2025-01-01 the Sun's mean longitude, about 281 degrees, is above 180:
    [radiansLong] throws and no lines are generated. *)
Definition januaryDates : DateHost :=
  {| getUTCFullYear := fun _ => 2025%Z;
     getUTCMonth := fun _ => 0%Z;
     getUTCDate := fun _ => 1%Z;
     getUTCHours := fun _ => 0%Z;
     getUTCMinutes := fun _ => 0%Z;
     getUTCSeconds := fun _ => 0%Z;
     getUTCMilliseconds := fun _ => 0%Z;
     Date_UTC := fun _ _ _ => 1735689600000%Z |}.

Example createTLEStrings_null_in_january :
  getSunRaDec (math := exampleMath) (dates := januaryDates) (sat := gapSat) 1735689600000
  = None
  /\ createTLEStringsFromBeaconParams
       (math := exampleMath) (dates := januaryDates) (consts := exampleConstants)
       (sat := gapSat)
       (SunSynchronous {| sso_altitude := 700; localSolarTimeAtDescendingNode := 10.5 |})
       1735689600000 = None.
Proof. split; vm_compute; reflexivity. Qed.

(** Scenario "overflow": the propagator returns an infinite x coordinate for
    the Beacon.  It is not NaN, so the step is evaluated, not skipped, and the
    infinite position enters the track. *)
Definition overflowBeacon : Trajectory := fixedAt (pt infinity 0 0) (pt 0 7.5 0).

Definition overflowSat : SatelliteJs := scenarioSat overflowBeacon farSideIridium.

Definition overflowSatRecs : list (IridiumSatRec (sat := overflowSat)) :=
  [@Build_IridiumSatRec overflowSat "IRIDIUM 1" (fixedAt (pt (-7200) 0 0) (pt 0 (-7.4) 0))].

Definition overflowStep : SimState -> SimState :=
  simulationStep (math := exampleMath) (consts := exampleConstants) (sat := overflowSat)
    (exampleConfig 1 60) overflowBeacon overflowSatRecs.

(** C4, as the program computes it: a non-finite Beacon output that is not NaN
    does not make the step a skipped one. *)
Lemma infinite_beacon_position_is_not_skipped :
  is_finite (x (pt infinity 0 0)) = false
  /\ overflowStep (initialState exampleStart overflowSatRecs)
     <> skipStep (exampleConfig 1 60) (initialState exampleStart overflowSatRecs)
  /\ map (fun bt => (bt.(timestamp), bt.(positionEci)))
         (st_beaconTrack (overflowStep (initialState exampleStart overflowSatRecs)))
     = [(exampleStart, pt infinity 0 0)].
Proof.
  split; [reflexivity|]. split.
  - intros H. apply (f_equal (fun st => length st.(st_beaconTrack))) in H.
    vm_compute in H. discriminate.
  - vm_compute. reflexivity.
Qed.

Lemma runSimulation_throws_only_on_preconditions_witness :
  ~ (exists message, gapRun = Threw message)
  /\ gapStep gapAfterFirst = skipStep gapConfig gapAfterFirst.
Proof.
  pose proof (runSimulation_throws_only_on_preconditions
                (math := exampleMath) (dates := exampleDates) (consts := exampleConstants)
                (sat := gapSat) (tles := gapTles) gapConfig exampleStart)
    as (Hthrow & _ & _ & Hskip & _).
  split.
  - intros Hex. apply Hthrow in Hex.
    destruct Hex as [_ [H|[H|H]]].
    + assert (Hb : initializeBeacon (math := exampleMath) (dates := exampleDates)
                     (consts := exampleConstants) (sat := gapSat) gapConfig exampleStart
                   = Some gapBeacon) by reflexivity.
      rewrite Hb in H. discriminate.
    + vm_compute in H. discriminate.
    + rewrite gapSatRecs_fetched in H. discriminate.
  - apply Hskip. vm_compute. reflexivity.
Defined.

(** A run of 10^10 hours ends beyond the last valid date: the satellite
    records are initialized, and printing the end of the run throws.  So does
    printing a start that is an Invalid Date. *)
Example runSimulation_throws_RangeError :
  runSimulation (math := exampleMath) (dates := exampleDates) (consts := exampleConstants)
    (sat := gapSat) (tles := gapTles) (exampleConfig 10000000000 60) exampleStart
  = ThrewRangeError
  /\ initializeBeacon (math := exampleMath) (dates := exampleDates)
       (consts := exampleConstants) (sat := gapSat) (exampleConfig 10000000000 60) exampleStart
     = Some gapBeacon
  /\ runSimulation (math := exampleMath) (dates := exampleDates) (consts := exampleConstants)
       (sat := gapSat) (tles := gapTles) gapConfig (maxTimeValue + 1)
     = ThrewRangeError.
Proof. repeat split; vm_compute; reflexivity. Qed.

(** * Further properties *)

(** ** TLE parsing and fetching *)

Section TleParsing.
Import tleService.

Lemma trimStart_idemp (s : string) : trimStart (trimStart s) = trimStart s.
Proof.
  induction s as [|c s IH]; [reflexivity|]. cbn [trimStart].
  destruct (isWhiteSpace c) eqn:E; [exact IH|]. cbn [trimStart]. rewrite E. reflexivity.
Qed.

Lemma trimEnd_cons (c : ascii) (s : string) :
  trimEnd (String c s)
  = if String.eqb (trimEnd s) "" && isWhiteSpace c then EmptyString
    else String c (trimEnd s).
Proof.
  cbn [trimEnd]. destruct (trimEnd s); cbn; [destruct (isWhiteSpace c)|]; reflexivity.
Qed.

Lemma trimEnd_idemp (s : string) : trimEnd (trimEnd s) = trimEnd s.
Proof.
  induction s as [|c s IH]; [reflexivity|].
  rewrite trimEnd_cons.
  destruct (String.eqb (trimEnd s) "" && isWhiteSpace c) eqn:E; [reflexivity|].
  rewrite trimEnd_cons, IH, E. reflexivity.
Qed.

Lemma trimStart_trimEnd (s : string) : trimStart (trimEnd s) = trimEnd (trimStart s).
Proof.
  induction s as [|c s IH]; [reflexivity|].
  rewrite trimEnd_cons. cbn [trimStart].
  destruct (isWhiteSpace c) eqn:Ec.
  - rewrite andb_true_r. destruct (String.eqb_spec (trimEnd s) "") as [E|E].
    + rewrite <- IH, E. reflexivity.
    + cbn [trimStart]. rewrite Ec. exact IH.
  - rewrite andb_false_r. cbn [trimStart]. rewrite Ec.
    rewrite trimEnd_cons, Ec, andb_false_r. reflexivity.
Qed.

Lemma trim_idemp (s : string) : trim (trim s) = trim s.
Proof.
  unfold trim. rewrite trimStart_trimEnd, trimStart_idemp, trimEnd_idemp. reflexivity.
Qed.

(** What [parseTleFile] requires of a record before it keeps it. *)
Definition isNameLine (nameLine : string) : Prop :=
  nameLine <> "" /\ startsWith nameLine "1 " = false /\ startsWith nameLine "2 " = false
  /\ startsWith nameLine "<" = false.

Definition isElementLine (lineNumber : string) (line : string) : Prop :=
  startsWith line (lineNumber +:+ " ") = true /\ String.length line = 69.

Definition trimmed (s : string) : Prop := trim s = s.

Definition wellFormedTle (tle : TLE) : Prop :=
  isNameLine tle.(name) /\ trimmed tle.(name)
  /\ isElementLine "1" tle.(line1) /\ trimmed tle.(line1)
  /\ isElementLine "2" tle.(line2) /\ trimmed tle.(line2).

Lemma nameTest_false (nameLine : string) :
  String.eqb nameLine "" || startsWith nameLine "1 " || startsWith nameLine "2 "
  || startsWith nameLine "<" = false
  <-> isNameLine nameLine.
Proof.
  unfold isNameLine. rewrite !orb_false_iff.
  destruct (String.eqb_spec nameLine ""); intuition congruence.
Qed.

Lemma lineTest_true (line1 line2 : string) :
  negb (String.eqb line1 "") && startsWith line1 "1 " && (String.length line1 =? 69)%nat
  && negb (String.eqb line2 "") && startsWith line2 "2 " && (String.length line2 =? 69)%nat
  = true
  <-> isElementLine "1" line1 /\ isElementLine "2" line2.
Proof.
  unfold isElementLine. rewrite !andb_true_iff, !Nat.eqb_eq, !negb_true_iff.
  change ("1" +:+ " ") with "1 ". change ("2" +:+ " ") with "2 ".
  split; [intuition|].
  intros [[H1 L1] [H2 L2]].
  assert (N1 : String.eqb line1 "" = false)
    by (destruct (String.eqb_spec line1 ""); [subst; discriminate|reflexivity]).
  assert (N2 : String.eqb line2 "" = false)
    by (destruct (String.eqb_spec line2 ""); [subst; discriminate|reflexivity]).
  intuition.
Qed.

(** Induction on a list of lines, as the loop consumes it: one line or three
    at a time. *)
Lemma lines_ind (P : list string -> Prop) :
  (forall lines, (forall shorter, length shorter < length lines -> P shorter) -> P lines) ->
  forall lines, P lines.
Proof.
  intros Hstep lines.
  assert (H : forall n shorter, length shorter < n -> P shorter).
  { induction n as [|n IH]; intros shorter Hlt; [lia|].
    apply Hstep. intros l Hl. apply IH. lia. }
  apply (H (S (length lines))). lia.
Qed.

Lemma parseTleLines_wellFormed (lines : list string) :
  Forall wellFormedTle (parseTleLines lines).
Proof.
  induction lines as [lines IH] using lines_ind.
  destruct lines as [|line rest]; [constructor|].
  cbn [parseTleLines].
  destruct (_ || _ || _ || _) eqn:En; [apply IH; cbn; lia|].
  apply nameTest_false in En.
  destruct rest as [|next1 [|next2 rest']]; [constructor|constructor|].
  destruct (_ && _ && _ && _ && _ && _) eqn:El.
  - apply lineTest_true in El. constructor.
    + unfold wellFormedTle, trimmed. cbn [name line1 line2].
      rewrite !trim_idemp. tauto.
    + apply IH. cbn. lia.
  - apply IH. cbn. lia.
Qed.

(** The lines of a file that holds the records [tles] and nothing else. *)
Definition linesOf (tles : list TLE) : list string :=
  flat_map (fun tle => [tle.(name); tle.(line1); tle.(line2)]) tles.

Lemma parseTleLines_linesOf (tles : list TLE) :
  Forall wellFormedTle tles -> parseTleLines (linesOf tles) = tles.
Proof.
  induction 1 as [|tle tles Hwf _ IH]; [reflexivity|].
  destruct Hwf as (Hn & Tn & H1 & T1 & H2 & T2).
  cbn [linesOf flat_map app parseTleLines]. fold (linesOf tles).
  rewrite Tn, T1, T2.
  rewrite (proj2 (nameTest_false _) Hn), (proj2 (lineTest_true _ _) (conj H1 H2)), IH.
  destruct tle; reflexivity.
Qed.


(** *** The text of a file *)

(** [lines.join(separator)] *)
Fixpoint joinLines (separator : string) (lines : list string) : string :=
  match lines with
  | [] => EmptyString
  | [line] => line
  | line :: rest => line +:+ separator +:+ joinLines separator rest
  end.

Fixpoint noLineFeed (s : string) : Prop :=
  match s with
  | EmptyString => True
  | String c rest => c <> LF /\ noLineFeed rest
  end.

Fixpoint endsWithCR (s : string) : bool :=
  match s with
  | EmptyString => false
  | String c EmptyString => Ascii.eqb c CR
  | String _ rest => endsWithCR rest
  end.

Lemma splitLines_single (line : string) :
  noLineFeed line -> splitLines line = [line].
Proof.
  induction line as [|c line IH]; [reflexivity|].
  intros [Hc Hrest]. cbn [splitLines].
  destruct (Ascii.eqb_spec c LF) as [E|_]; [contradiction|].
  destruct line as [|c' line']; [reflexivity|].
  destruct Hrest as [Hc' Hrest'].
  destruct (Ascii.eqb_spec c' LF) as [E|_]; [contradiction|].
  rewrite andb_false_r. rewrite IH by (split; assumption). reflexivity.
Qed.

Lemma splitLines_LF (line rest : string) :
  noLineFeed line -> endsWithCR line = false ->
  splitLines (line +:+ String LF rest) = line :: splitLines rest.
Proof.
  induction line as [|c line IH]; intros Hno Hcr.
  - reflexivity.
  - destruct Hno as [Hc Hno].
    change (String c line +:+ String LF rest) with (String c (line +:+ String LF rest)).
    cbn [splitLines].
    destruct (Ascii.eqb_spec c LF) as [E|_]; [contradiction|].
    destruct line as [|c' line'].
    + change ("" +:+ String LF rest) with (String LF rest). cbv beta iota.
      cbn [endsWithCR] in Hcr. rewrite Hcr. cbn [andb].
      change (splitLines (String LF rest)) with (EmptyString :: splitLines rest).
      reflexivity.
    + change (String c' line' +:+ String LF rest)
        with (String c' (line' +:+ String LF rest)).
      destruct Hno as [Hc' Hno'].
      destruct (Ascii.eqb_spec c' LF) as [E|_]; [contradiction|].
      rewrite andb_false_r.
      change (String c' (line' +:+ String LF rest))
        with (String c' line' +:+ String LF rest).
      rewrite IH; [reflexivity | split; assumption | exact Hcr].
Qed.

Lemma splitLines_CRLF (line rest : string) :
  noLineFeed line ->
  splitLines (line +:+ String CR (String LF rest)) = line :: splitLines rest.
Proof.
  induction line as [|c line IH]; intros Hno.
  - reflexivity.
  - destruct Hno as [Hc Hno].
    change (String c line +:+ String CR (String LF rest))
      with (String c (line +:+ String CR (String LF rest))).
    cbn [splitLines].
    destruct (Ascii.eqb_spec c LF) as [E|_]; [contradiction|].
    destruct line as [|c' line'].
    + change ("" +:+ String CR (String LF rest)) with (String CR (String LF rest)).
      cbv beta iota.
      replace (Ascii.eqb c CR && Ascii.eqb CR LF) with false
        by (rewrite andb_false_r; reflexivity).
      change (splitLines (String CR (String LF rest))) with (EmptyString :: splitLines rest).
      reflexivity.
    + change (String c' line' +:+ String CR (String LF rest))
        with (String c' (line' +:+ String CR (String LF rest))).
      destruct Hno as [Hc' Hno'].
      destruct (Ascii.eqb_spec c' LF) as [E|_]; [contradiction|].
      rewrite andb_false_r.
      change (String c' (line' +:+ String CR (String LF rest)))
        with (String c' line' +:+ String CR (String LF rest)).
      rewrite IH by (split; assumption). reflexivity.
Qed.

Lemma trimmed_trimStart (s : string) : trimmed s -> trimStart s = s.
Proof.
  unfold trimmed, trim. intros H. rewrite <- H at 1.
  rewrite trimStart_trimEnd, trimStart_idemp. exact H.
Qed.

Lemma trimmed_trimEnd (s : string) : trimmed s -> trimEnd s = s.
Proof.
  unfold trimmed, trim. intros H. rewrite <- H at 1. rewrite trimEnd_idemp. exact H.
Qed.

Lemma trimEnd_endsWithCR (s : string) : trimEnd s = s -> endsWithCR s = false.
Proof.
  induction s as [|c s IH]; [reflexivity|].
  rewrite trimEnd_cons.
  destruct (String.eqb_spec (trimEnd s) "") as [E|E]; cbn [andb].
  - destruct (isWhiteSpace c) eqn:Ec; [discriminate|].
    intros [= Hs]. rewrite Hs in E. subst s. cbn [endsWithCR].
    destruct (Ascii.eqb_spec c CR) as [->|]; [discriminate Ec|reflexivity].
  - intros [= Hs]. destruct s as [|c' s']; [contradiction E; reflexivity|].
    cbn [endsWithCR]. apply IH. exact Hs.
Qed.

Lemma trimEnd_app (a b : string) :
  trimEnd b <> "" -> trimEnd (a +:+ b) = a +:+ trimEnd b.
Proof.
  intros Hb. induction a as [|c a IH]; [reflexivity|].
  change (String c a +:+ b) with (String c (a +:+ b)).
  rewrite trimEnd_cons, IH.
  destruct (String.eqb_spec (a +:+ trimEnd b) "") as [E|E]; [|reflexivity].
  exfalso. destruct a; cbn in E; [contradiction|discriminate].
Qed.

Lemma length_trimStart (s : string) : String.length (trimStart s) <= String.length s.
Proof.
  induction s as [|c s IH]; [reflexivity|]. cbn [trimStart].
  destruct (isWhiteSpace c); cbn [String.length]; lia.
Qed.

Lemma trimStart_app (a b : string) :
  a <> "" -> trimStart a = a -> trimStart (a +:+ b) = a +:+ b.
Proof.
  destruct a as [|c a]; [contradiction|]. intros _ H.
  change (String c a +:+ b) with (String c (a +:+ b)).
  cbn [trimStart] in *.
  destruct (isWhiteSpace c) eqn:Ec; [|reflexivity].
  exfalso. pose proof (length_trimStart a) as Hl. rewrite H in Hl.
  cbn [String.length] in Hl. lia.
Qed.

Definition lineFeed : string := String LF EmptyString.
Definition carriageReturnLineFeed : string := String CR (String LF EmptyString).

Lemma joinLines_cons (separator line next : string) (rest : list string) :
  joinLines separator (line :: next :: rest)
  = line +:+ separator +:+ joinLines separator (next :: rest).
Proof. reflexivity. Qed.

Lemma app_nonempty (a b : string) : a <> "" -> a +:+ b <> "".
Proof. destruct a; [contradiction|discriminate]. Qed.

Lemma joinLines_nonempty (separator line : string) (rest : list string) :
  line <> "" -> joinLines separator (line :: rest) <> "".
Proof.
  intros Hl. destruct rest as [|next rest]; [exact Hl|].
  rewrite joinLines_cons. apply app_nonempty. exact Hl.
Qed.

Lemma splitLines_joinLines_LF (lines : list string) :
  lines <> [] ->
  Forall (fun line => noLineFeed line /\ endsWithCR line = false) lines ->
  splitLines (joinLines lineFeed lines) = lines.
Proof.
  induction lines as [|line rest IH]; [contradiction|]. intros _ Hall.
  apply Forall_cons in Hall as [[Hno Hcr] Hrest].
  destruct rest as [|next rest].
  - apply splitLines_single. exact Hno.
  - rewrite joinLines_cons.
    change (lineFeed +:+ joinLines lineFeed (next :: rest))
      with (String LF (joinLines lineFeed (next :: rest))).
    rewrite splitLines_LF by assumption. rewrite IH; [reflexivity|discriminate|exact Hrest].
Qed.

Lemma splitLines_joinLines_CRLF (lines : list string) :
  lines <> [] -> Forall noLineFeed lines ->
  splitLines (joinLines carriageReturnLineFeed lines) = lines.
Proof.
  induction lines as [|line rest IH]; [contradiction|]. intros _ Hall.
  apply Forall_cons in Hall as [Hno Hrest].
  destruct rest as [|next rest].
  - apply splitLines_single. exact Hno.
  - rewrite joinLines_cons.
    change (carriageReturnLineFeed +:+ joinLines carriageReturnLineFeed (next :: rest))
      with (String CR (String LF (joinLines carriageReturnLineFeed (next :: rest)))).
    rewrite splitLines_CRLF by assumption. rewrite IH; [reflexivity|discriminate|exact Hrest].
Qed.

Lemma trim_joinLines (separator : string) (lines : list string) :
  Forall (fun line => trimmed line /\ line <> "") lines ->
  trim (joinLines separator lines) = joinLines separator lines.
Proof.
  intros Hall. unfold trim.
  assert (Hs : trimStart (joinLines separator lines) = joinLines separator lines).
  { destruct Hall as [|line rest [Ht Hn] Hrest]; [reflexivity|].
    destruct rest as [|next rest]; [apply trimmed_trimStart; exact Ht|].
    rewrite joinLines_cons. apply trimStart_app; [exact Hn|apply trimmed_trimStart; exact Ht]. }
  rewrite Hs.
  induction Hall as [|line rest [Ht Hn] Hrest IH]; [reflexivity|].
  destruct rest as [|next rest]; [apply trimmed_trimEnd; exact Ht|].
  rewrite joinLines_cons.
  assert (Hj : joinLines separator (next :: rest) <> "")
    by (apply joinLines_nonempty; apply Forall_cons in Hrest as [[_ Hn'] _]; exact Hn').
  assert (IH' : trimEnd (joinLines separator (next :: rest)) = joinLines separator (next :: rest)).
  { apply IH. destruct Hrest as [|l r [Ht' Hn'] Hr']; [reflexivity|].
    destruct r as [|n r]; [apply trimmed_trimStart; exact Ht'|].
    rewrite joinLines_cons. apply trimStart_app; [exact Hn'|apply trimmed_trimStart; exact Ht']. }
  rewrite trimEnd_app.
  - rewrite trimEnd_app by (rewrite IH'; exact Hj). rewrite IH'. reflexivity.
  - rewrite trimEnd_app by (rewrite IH'; exact Hj). rewrite IH'.
    intros E. destruct separator; [exact (Hj E)|discriminate E].
Qed.

(** No field of the record spans two lines. *)
Definition onOneLine (tle : TLE) : Prop :=
  noLineFeed tle.(name) /\ noLineFeed tle.(line1) /\ noLineFeed tle.(line2).

Lemma isElementLine_nonempty (lineNumber line : string) :
  isElementLine lineNumber line -> line <> "".
Proof. intros [_ Hl] ->. discriminate Hl. Qed.

Lemma linesOf_trimmed (tles : list TLE) :
  Forall wellFormedTle tles ->
  Forall (fun line => trimmed line /\ line <> "") (linesOf tles).
Proof.
  induction 1 as [|tle tles (Hn & Tn & H1 & T1 & H2 & T2) _ IH]; [constructor|].
  cbn [linesOf flat_map app]. fold (linesOf tles).
  repeat constructor; try assumption.
  - exact (proj1 Hn).
  - exact (isElementLine_nonempty H1).
  - exact (isElementLine_nonempty H2).
Qed.

Lemma linesOf_noLineFeed (tles : list TLE) :
  Forall onOneLine tles -> Forall noLineFeed (linesOf tles).
Proof.
  induction 1 as [|tle tles (Hn & H1 & H2) _ IH]; [constructor|].
  cbn [linesOf flat_map app]. fold (linesOf tles). repeat constructor; assumption.
Qed.

Lemma parseTleFile_joinLines (separator : string) (tles : list TLE) :
  Forall wellFormedTle tles ->
  splitLines (joinLines separator (linesOf tles)) = linesOf tles ->
  parseTleFile (joinLines separator (linesOf tles)) = tles.
Proof.
  intros Hwf Hsplit. unfold parseTleFile.
  destruct (String.eqb_spec (joinLines separator (linesOf tles)) "") as [E|_].
  - destruct Hwf as [|tle tles (Hn & _) _]; [reflexivity|].
    exfalso. revert E. cbn [linesOf flat_map app]. apply joinLines_nonempty. exact (proj1 Hn).
  - rewrite trim_joinLines by (apply linesOf_trimmed; exact Hwf).
    rewrite Hsplit. apply parseTleLines_linesOf. exact Hwf.
Qed.

Lemma length_parseTleLines (lines : list string) :
  3 * length (parseTleLines lines) <= length lines.
Proof.
  induction lines as [lines IH] using lines_ind.
  destruct lines as [|line rest]; [cbn; lia|].
  cbn [parseTleLines].
  destruct (_ || _ || _ || _).
  { specialize (IH rest ltac:(cbn; lia)). cbn [length]. lia. }
  destruct rest as [|next1 [|next2 rest']]; [cbn; lia|cbn; lia|].
  destruct (_ && _ && _ && _ && _ && _).
  - specialize (IH rest' ltac:(cbn; lia)). cbn [length] in *. lia.
  - specialize (IH (next1 :: next2 :: rest') ltac:(cbn; lia)). cbn [length] in *. lia.
Qed.

Lemma parseTleFile_wellFormed (tleFileContent : string) :
  Forall wellFormedTle (parseTleFile tleFileContent).
Proof.
  unfold parseTleFile. destruct (String.eqb tleFileContent ""); [constructor|].
  apply parseTleLines_wellFormed.
Qed.

(** [parseTleFile] keeps a record only if its name is not blank and does
    not look like an element line or a tag, and its two lines start with "1 "
    and "2 " and have 69 characters, all three taken without surrounding white
    space; it makes at most one record out of three lines, and none out of an
    empty text. *)
Theorem parseTleFile_keeps_wellFormed_records (tleFileContent : string) :
  Forall wellFormedTle (parseTleFile tleFileContent)
  /\ 3 * length (parseTleFile tleFileContent) <= length (splitLines (trim tleFileContent))
  /\ parseTleFile "" = [].
Proof.
  unfold parseTleFile. destruct (String.eqb tleFileContent "").
  - split; [constructor|]. split; [cbn; lia|reflexivity].
  - split; [apply parseTleLines_wellFormed|]. split; [apply length_parseTleLines|reflexivity].
Qed.

(** A text that holds well-formed records and nothing else, each field on
    a line of its own, lines ended by LF or by CR LF, parses back to exactly
    those records, in order. *)
Theorem parseTleFile_reads_back_records (tles : list TLE) :
  Forall wellFormedTle tles -> Forall onOneLine tles ->
  parseTleFile (joinLines lineFeed (linesOf tles)) = tles
  /\ parseTleFile (joinLines carriageReturnLineFeed (linesOf tles)) = tles.
Proof.
  intros Hwf Hone.
  destruct tles as [|tle tles]; [split; reflexivity|].
  assert (Hne : linesOf (tle :: tles) <> []) by discriminate.
  split; apply parseTleFile_joinLines; try exact Hwf.
  - apply splitLines_joinLines_LF; [exact Hne|].
    pose proof (linesOf_trimmed Hwf) as Ht. pose proof (linesOf_noLineFeed Hone) as Hn.
    apply Forall_forall. intros line Hin.
    rewrite Forall_forall in Ht, Hn. split; [apply Hn; exact Hin|].
    apply trimEnd_endsWithCR, trimmed_trimEnd, Ht. exact Hin.
  - apply splitLines_joinLines_CRLF; [exact Hne|]. apply linesOf_noLineFeed. exact Hone.
Qed.

End TleParsing.

Section TleFetching.
Import tleService.
Context {axios : Axios}.

(** The records of the [n]-th request, none when it fails. *)
Definition responseTles (n : nat) (dataset : string) : list TLE :=
  match axios_get n (if String.eqb dataset "IRIDIUM" then IRIDIUM_TLE_URL
                     else IRIDIUM_NEXT_TLE_URL) with
  | Some data => parseTleFile data
  | None => []
  end.

(** The records of all requests, in the order of the requests. *)
Definition fetchedTles (datasetsToFetch : option (list string)) : list TLE :=
  concat (imap responseTles (default ["IRIDIUM"; "IRIDIUM-NEXT"] datasetsToFetch)).

Lemma fetchDataset_allTles (n : nat) (st : FetchState) (dataset : string) :
  allTles (fetchDataset n st dataset) = st.(allTles) ++ responseTles n dataset.
Proof.
  unfold fetchDataset, responseTles.
  destruct (axios_get n _) as [data|]; [|symmetry; apply app_nil_r].
  destruct (parseTleFile data) as [|tle parsed]; [symmetry; apply app_nil_r|reflexivity].
Qed.

Lemma fetchDataset_flag (n : nat) (st : FetchState) (dataset : string) :
  (st.(hasSuccessfullyFetchedAnyData) = true <-> st.(allTles) <> []) ->
  hasSuccessfullyFetchedAnyData (fetchDataset n st dataset) = true
  <-> allTles (fetchDataset n st dataset) <> [].
Proof.
  intros Hst. unfold fetchDataset.
  destruct (axios_get n _) as [data|]; [|exact Hst].
  destruct (parseTleFile data) as [|tle parsed]; [exact Hst|].
  cbn. split; [intros _|reflexivity]. destruct st.(allTles); discriminate.
Qed.

Lemma fetchDatasets_allTles (datasets : list string) (n : nat) (st : FetchState) :
  allTles (fetchDatasets n datasets st)
  = st.(allTles) ++ concat (imap (fun i => responseTles (n + i)) datasets).
Proof.
  revert n st. induction datasets as [|dataset rest IH]; intros n st.
  - symmetry. apply app_nil_r.
  - cbn [fetchDatasets]. rewrite IH, fetchDataset_allTles, imap_cons. cbn [concat].
    rewrite <- app_assoc, Nat.add_0_r. do 3 f_equal.
    apply imap_ext. intros i dataset' _. cbn. f_equal. lia.
Qed.

Lemma fetchDatasets_flag (datasets : list string) (n : nat) (st : FetchState) :
  (st.(hasSuccessfullyFetchedAnyData) = true <-> st.(allTles) <> []) ->
  hasSuccessfullyFetchedAnyData (fetchDatasets n datasets st) = true
  <-> allTles (fetchDatasets n datasets st) <> [].
Proof.
  revert n st. induction datasets as [|dataset rest IH]; intros n st Hst; [exact Hst|].
  cbn [fetchDatasets]. apply IH, fetchDataset_flag, Hst.
Qed.

Lemma fetchIridiumTLEs_closed_form (datasetsToFetch : option (list string)) :
  fetchIridiumTLEs datasetsToFetch
  = match fetchedTles datasetsToFetch with
    | [] => [fallbackTle]
    | tles => tles
    end.
Proof.
  unfold fetchIridiumTLEs, fetchedTles.
  set (datasets := default _ datasetsToFetch).
  set (st0 := {| allTles := []; hasSuccessfullyFetchedAnyData := false |}).
  pose proof (fetchDatasets_allTles datasets 0 st0) as Hall.
  cbn [allTles st0 app Nat.add] in Hall.
  assert (Hflag : hasSuccessfullyFetchedAnyData (fetchDatasets 0 datasets st0) = true
                  <-> allTles (fetchDatasets 0 datasets st0) <> []).
  { apply fetchDatasets_flag. cbn. split; [discriminate|intros H; contradiction H; reflexivity]. }
  rewrite Hall in *.
  destruct (concat (imap responseTles datasets)) as [|tle tles].
  - destruct (hasSuccessfullyFetchedAnyData _); [|reflexivity].
    exfalso. apply (proj1 Hflag); reflexivity.
  - rewrite andb_false_r. reflexivity.
Qed.

(** [fetchIridiumTLEs] returns the records of the answered requests, in
    the order of the requests, and the one fallback record when there is none:
    whatever the network does and whichever datasets are asked for, the result
    is never empty. *)
Theorem fetchIridiumTLEs_never_empty (datasetsToFetch : option (list string)) :
  fetchIridiumTLEs datasetsToFetch
  = (if decide (fetchedTles datasetsToFetch = []) then [fallbackTle]
     else fetchedTles datasetsToFetch)
  /\ fetchIridiumTLEs datasetsToFetch <> []
  /\ fetchIridiumTLEs (Some []) = [fallbackTle].
Proof.
  rewrite fetchIridiumTLEs_closed_form.
  split; [|split].
  - destruct (fetchedTles datasetsToFetch); reflexivity.
  - destruct (fetchedTles datasetsToFetch); discriminate.
  - reflexivity.
Qed.

Lemma responseTles_wellFormed (n : nat) (dataset : string) :
  Forall wellFormedTle (responseTles n dataset).
Proof.
  unfold responseTles. destruct (axios_get n _); [|constructor].
  apply parseTleFile_wellFormed.
Qed.

Lemma fetchedTles_wellFormed (datasetsToFetch : option (list string)) :
  Forall wellFormedTle (fetchedTles datasetsToFetch).
Proof.
  unfold fetchedTles. apply Forall_concat, Forall_forall. intros tles Hin.
  apply list_elem_of_lookup in Hin as [i Hi].
  apply list_lookup_imap_Some in Hi as (dataset & _ & ->).
  apply responseTles_wellFormed.
Qed.

(** Every record [fetchIridiumTLEs] returns passed the test of
    [parseTleFile], except the fallback record, which is returned only alone
    and does not pass it: its second line has 70 characters, not 69. *)
Theorem fetchIridiumTLEs_wellFormed_or_fallback (datasetsToFetch : option (list string)) :
  (Forall wellFormedTle (fetchIridiumTLEs datasetsToFetch)
   \/ fetchIridiumTLEs datasetsToFetch = [fallbackTle] /\ fetchedTles datasetsToFetch = [])
  /\ ~ wellFormedTle fallbackTle
  /\ String.length fallbackTle.(line1) = 69
  /\ String.length fallbackTle.(line2) = 70.
Proof.
  split; [|split; [|split; reflexivity]].
  - rewrite fetchIridiumTLEs_closed_form.
    pose proof (fetchedTles_wellFormed datasetsToFetch) as Hwf.
    destruct (fetchedTles datasetsToFetch); [right; split; reflexivity|left; exact Hwf].
  - intros (_ & _ & _ & _ & [_ Hlen] & _). discriminate Hlen.
Qed.

End TleFetching.

Section TleFetchingRun.
Context {math : MathHost} {dates : DateHost} {consts : Constants} {sat : SatelliteJs}
        {axios : tleService.Axios}.

(** A run that takes its elements from [fetchIridiumTLEs] never aborts with
    "No Iridium TLEs fetched": it throws an [Error] only when the Beacon
    record cannot be initialized or when none of the fetched records
    initializes, and a RangeError only when its start or its end, start +
    duration, is an Invalid Date. *)
Theorem runSimulation_always_has_tles (config : SimulationConfig) (startTime : Z) :
  let run := runSimulation (tles := celestrak) config startTime in
  run <> Threw "No Iridium TLEs fetched. Ensure TLE service is working and datasets are selected."
  /\ (forall message, run = Threw message ->
       initializeBeacon config startTime = None
       \/ initializeIridium (tleService.fetchIridiumTLEs config.(iridiumDatasetSources)) = [])
  /\ (run = ThrewRangeError ->
       validTime startTime = false
       \/ validTime (startTime + simulationDurationMs config) = false).
Proof.
  cbv zeta. unfold runSimulation.
  change (@fetchIridiumTLEs celestrak) with tleService.fetchIridiumTLEs.
  destruct (validTime startTime); cbn [negb];
    [|split; [discriminate|split; [discriminate|auto]]].
  destruct (initializeBeacon config startTime) as [b|].
  - assert (Hne : tleService.fetchIridiumTLEs config.(iridiumDatasetSources) <> []).
    { rewrite fetchIridiumTLEs_closed_form.
      destruct (fetchedTles config.(iridiumDatasetSources)); discriminate. }
    destruct (tleService.fetchIridiumTLEs config.(iridiumDatasetSources)) as [|tle tles] eqn:E;
      [contradiction|].
    cbn [length Nat.eqb].
    destruct (length (initializeIridium (tle :: tles)) =? 0) eqn:E2.
    + apply length_zero_nil in E2.
      split; [discriminate|]. split; [|discriminate]. intros _ _. right. exact E2.
    + destruct (validTime (startTime + simulationDurationMs config)); cbn [negb].
      * destruct (simulationLoop _ _ _ _ _ _); repeat split; discriminate.
      * split; [discriminate|]. split; [discriminate|]. auto.
  - split; [discriminate|]. split; [|discriminate]. intros _ _. left. reflexivity.
Qed.

End TleFetchingRun.

(** ** Checksums and generated lines *)

Lemma checksumSum_app (a b : string) :
  checksumSum (a +:+ b) = checksumSum a + checksumSum b.
Proof.
  induction a as [|c a IH]; [reflexivity|].
  change (String c a +:+ b) with (String c (a +:+ b)).
  cbn [checksumSum]. rewrite IH. lia.
Qed.

(** The checksum of a line is a single digit; it adds up over
    concatenation, modulo 10; a minus sign counts for 1, a digit for its value,
    and any other character for nothing. *)
Theorem calculateTLEChecksum_additive (a b : string) :
  calculateTLEChecksum (a +:+ b) = (calculateTLEChecksum a + calculateTLEChecksum b) mod 10
  /\ calculateTLEChecksum a < 10
  /\ calculateTLEChecksum (String "-" a) = (1 + calculateTLEChecksum a) mod 10
  /\ (forall c : ascii, isDigit c = true ->
        calculateTLEChecksum (String c a)
        = (nat_of_ascii c - 48 + calculateTLEChecksum a) mod 10)
  /\ (forall c : ascii, isDigit c = false -> c <> "-"%char ->
        calculateTLEChecksum (String c a) = calculateTLEChecksum a).
Proof.
  unfold calculateTLEChecksum. split; [|split; [|split; [|split]]].
  - rewrite checksumSum_app. apply Nat.Div0.add_mod.
  - apply Nat.mod_upper_bound. lia.
  - cbn [checksumSum]. change (isDigit "-") with false. cbv iota.
    change (Ascii.eqb "-" "-") with true. cbv iota.
    rewrite Nat.Div0.add_mod_idemp_r. reflexivity.
  - intros c Hc. cbn [checksumSum]. rewrite Hc.
    rewrite Nat.Div0.add_mod_idemp_r. reflexivity.
  - intros c Hc Hm. cbn [checksumSum]. rewrite Hc.
    destruct (Ascii.eqb_spec c "-") as [E|_]; [contradiction|]. reflexivity.
Qed.

Section GeneratedLines.
Context {math : MathHost} {dates : DateHost} {consts : Constants} {sat : SatelliteJs}.

(** What makes [createTLEStringsFromBeaconParams] give up before it builds the
    lines, as the code tests it. *)
Definition rejectsParams (beaconParams : BeaconOrbitParams) : bool :=
  (altitude beaconParams <=? 0)%float
  || match beaconParams with
     | SunSynchronous ssoParams =>
         (ssoParams.(localSolarTimeAtDescendingNode) <? 0)%float
         || (24 <=? ssoParams.(localSolarTimeAtDescendingNode))%float
     | NonPolar npParams =>
         (npParams.(inclination) <? 0)%float || (180 <? npParams.(inclination))%float
         || match npParams.(raan) with
            | Some raanDeg => (raanDeg <? 0)%float || (360 <=? raanDeg)%float
            | None => false
            end
     end.

Lemma inclinationAndRaan_None (beaconParams : BeaconOrbitParams) (sunRa : float) :
  inclinationAndRaan beaconParams sunRa = None
  <-> match beaconParams with
      | SunSynchronous ssoParams =>
          (ssoParams.(localSolarTimeAtDescendingNode) <? 0)%float
          || (24 <=? ssoParams.(localSolarTimeAtDescendingNode))%float
      | NonPolar npParams =>
          (npParams.(inclination) <? 0)%float || (180 <? npParams.(inclination))%float
          || match npParams.(raan) with
             | Some raanDeg => (raanDeg <? 0)%float || (360 <=? raanDeg)%float
             | None => false
             end
      end = true.
Proof.
  unfold inclinationAndRaan. destruct beaconParams as [p|p].
  - destruct (_ || _); split; congruence.
  - destruct ((inclination p <? 0)%float || (180 <? inclination p)%float); cbn [orb];
      [split; congruence|].
    destruct (raan p) as [r|].
    + destruct ((r <? 0)%float || (360 <=? r)%float); split; congruence.
    + change ((0.0 <? 0)%float || (360 <=? 0.0)%float) with false. cbv iota.
      split; congruence.
Qed.

Lemma createTLEStrings_None (beaconParams : BeaconOrbitParams) (epochDate : Z) :
  eccentricityFits ->
  createTLEStringsFromBeaconParams beaconParams epochDate = None
  <-> rejectsParams beaconParams = true \/ getSunRaDec epochDate = None.
Proof.
  intros Hecc. unfold createTLEStringsFromBeaconParams, rejectsParams.
  destruct (altitude beaconParams <=? 0)%float; [split; auto|].
  cbn [orb]. cbv zeta.
  destruct (getSunRaDec epochDate) as [sunRaDecEpoch|]; [|split; auto].
  rewrite <- (inclinationAndRaan_None beaconParams (degreesLong (fst sunRaDecEpoch))).
  destruct (inclinationAndRaan beaconParams _) as [[inclinationDeg raanDeg]|];
    [|split; auto].
  rewrite length_tleLine1, Nat.eqb_refl. cbn [negb].
  rewrite length_tleLine2 by exact Hecc. rewrite Nat.eqb_refl. cbn [negb].
  split; [intros [=]|intros [[=]|[=]]].
Qed.

Lemma float_nan_leb (a b : float) : is_nan a = true -> PrimFloat.leb a b = false.
Proof.
  unfold is_nan. rewrite leb_spec, eqb_spec. unfold SpecFloat.SFleb, SpecFloat.SFeqb.
  destruct (Prim2SF a) as [sa|sa| |sa ma ea]; cbn.
  - intros [=].
  - destruct sa; intros [=].
  - reflexivity.
  - rewrite Z.compare_refl, Pos.compare_cont_refl. destruct sa; intros [=].
Qed.

(** The lines are refused exactly on the tests the code makes, or when the
    Sun's position throws, which the function catches.  The tests are: an
    altitude [<= 0]; for a Sun-Synchronous orbit a local solar time below 0 or
    at or above 24; for a Non-Polar orbit an inclination below 0 or above 180,
    or a given RAAN below 0 or at or above 360 (an absent RAAN is 0).  An
    altitude that is NaN fails none of them. *)
Theorem createTLEStrings_refuses_exactly_tested_params
    (beaconParams : BeaconOrbitParams) (epochDate : Z) :
  eccentricityFits ->
  (createTLEStringsFromBeaconParams beaconParams epochDate = None
   <-> rejectsParams beaconParams = true \/ getSunRaDec epochDate = None)
  /\ (is_nan (altitude beaconParams) = true ->
      (altitude beaconParams <=? 0)%float = false).
Proof.
  intros Hecc. split; [apply createTLEStrings_None; exact Hecc|apply float_nan_leb].
Qed.

(** The tests [createSatrecForNonPolarBeacon] and
    [createSatrecForSunSynchronousBeacon] make before they build the lines
    never change the outcome: each returns what [twoline2satrec] makes of the
    lines [createTLEStringsFromBeaconParams] builds, and nothing when it builds
    none. *)
Theorem createSatrec_early_tests_are_redundant (epoch : Z) :
  (forall params : NonPolarOrbitParams,
     createSatrecForNonPolarBeacon params epoch
     = createTLEStringsFromBeaconParams (NonPolar params) epoch ≫= satrecFromGeneratedTLE)
  /\ (forall params : SunSynchronousOrbitParams,
        createSatrecForSunSynchronousBeacon params epoch
        = createTLEStringsFromBeaconParams (SunSynchronous params) epoch
            ≫= satrecFromGeneratedTLE).
Proof.
  split; intros params.
  - unfold createSatrecForNonPolarBeacon, createTLEStringsFromBeaconParams, inclinationAndRaan.
    cbn [altitude].
    destruct (np_altitude params <=? 0)%float; [reflexivity|]. cbn [orb]. cbv zeta.
    destruct (getSunRaDec epoch) as [sunRaDecEpoch|].
    2:{ destruct (_ || _); [reflexivity|].
        destruct (raan params) as [r|]; [destruct (_ || _)|]; reflexivity. }
    destruct ((inclination params <? 0)%float || (180 <? inclination params)%float);
      [reflexivity|].
    destruct (raan params) as [r|].
    + destruct ((r <? 0)%float || (360 <=? r)%float); [reflexivity|].
      destruct (negb _); [reflexivity|]. destruct (negb _); reflexivity.
    + change ((0.0 <? 0)%float || (360 <=? 0.0)%float) with false. cbv iota.
      destruct (negb _); [reflexivity|]. destruct (negb _); reflexivity.
  - unfold createSatrecForSunSynchronousBeacon, createTLEStringsFromBeaconParams,
      inclinationAndRaan.
    cbn [altitude].
    destruct (sso_altitude params <=? 0)%float; [reflexivity|]. cbn [orb]. cbv zeta.
    destruct (getSunRaDec epoch); [|destruct (_ || _); reflexivity].
    destruct ((localSolarTimeAtDescendingNode params <? 0)%float
              || (24 <=? localSolarTimeAtDescendingNode params)%float); [reflexivity|].
    destruct (negb _); [reflexivity|]. destruct (negb _); reflexivity.
Qed.

Import tleService.

Lemma trimEnd_checksum_digit (line : string) :
  trimEnd (pretty (calculateTLEChecksum line)) = pretty (calculateTLEChecksum line)
  /\ pretty (calculateTLEChecksum line) <> "".
Proof.
  unfold calculateTLEChecksum.
  pose proof (Nat.mod_upper_bound (checksumSum line) 10 ltac:(lia)) as H.
  destruct (checksumSum line mod 10) as [|[|[|[|[|[|[|[|[|[|n]]]]]]]]]];
    try (split; [reflexivity|discriminate]); lia.
Qed.

(** A line that starts with a character other than white space and ends with
    its checksum digit has no white space to trim. *)
Lemma trimmed_checksummed (c : ascii) (rest : string) :
  isWhiteSpace c = false ->
  trimmed (String c rest +:+ pretty (calculateTLEChecksum (String c rest))).
Proof.
  intros Hc. unfold trimmed, trim.
  destruct (trimEnd_checksum_digit (String c rest)) as [Hd Hne].
  set (digit := pretty (calculateTLEChecksum (String c rest))) in *.
  assert (Hs : trimStart (String c rest +:+ digit) = String c rest +:+ digit).
  { change (String c rest +:+ digit) with (String c (rest +:+ digit)).
    cbn [trimStart]. rewrite Hc. reflexivity. }
  rewrite Hs, trimEnd_app by (rewrite Hd; exact Hne). rewrite Hd. reflexivity.
Qed.

Lemma startsWith_lineNumber (lineNumber : ascii) (rest digit : string) :
  startsWith (String lineNumber (String " " rest) +:+ digit)
    (String lineNumber EmptyString +:+ " ") = true.
Proof.
  unfold startsWith.
  change (String lineNumber (String " " rest) +:+ digit)
    with (String lineNumber (String " " (rest +:+ digit))).
  change (String lineNumber EmptyString +:+ " ") with (String lineNumber (String " " EmptyString)).
  cbn [String.prefix].
  destruct (ascii_dec lineNumber lineNumber) as [_|N]; [|contradiction N; reflexivity].
  destruct (ascii_dec " " " ") as [_|N]; [|contradiction N; reflexivity].
  destruct (rest +:+ digit); reflexivity.
Qed.

(** The lines as [parseTleFile] would test them. *)
Lemma tleLine1_checks (epoch : TLEEpoch) :
  isElementLine "1" (tleLine1 epoch) /\ trimmed (tleLine1 epoch)
  /\ exists body, tleLine1 epoch = body +:+ pretty (calculateTLEChecksum body)
                  /\ String.length body = 68.
Proof.
  pose proof (length_tleLine1 epoch) as Hlen.
  unfold tleLine1 in *. cbv zeta in *.
  match goal with
  | |- context [?b +:+ pretty (calculateTLEChecksum ?b)] => set (body := b) in *
  end.
  assert (Hbody : exists rest, body = String "1" (String " " rest)) by (eexists; reflexivity).
  destruct Hbody as [rest Hbody]. clearbody body. subst body.
  split; [split; [|exact Hlen]|].
  { apply startsWith_lineNumber. }
  split.
  - apply trimmed_checksummed. reflexivity.
  - eexists. split; [reflexivity|].
    rewrite length_append, length_checksum_digit in Hlen. unfold TLE_LINE_LENGTH in Hlen. lia.
Qed.

Lemma tleLine2_checks (inclinationDeg raanDeg meanMotionRevPerDay : float) :
  String.length (tleLine2 inclinationDeg raanDeg meanMotionRevPerDay) = TLE_LINE_LENGTH ->
  isElementLine "2" (tleLine2 inclinationDeg raanDeg meanMotionRevPerDay)
  /\ trimmed (tleLine2 inclinationDeg raanDeg meanMotionRevPerDay)
  /\ exists body, tleLine2 inclinationDeg raanDeg meanMotionRevPerDay
                  = body +:+ pretty (calculateTLEChecksum body)
                  /\ String.length body = 68.
Proof.
  intros Hlen.
  unfold tleLine2 in *. cbv zeta in *.
  match goal with
  | |- context [?b +:+ pretty (calculateTLEChecksum ?b)] => set (body := b) in *
  end.
  assert (Hbody : exists rest, body = String "2" (String " " rest)) by (eexists; reflexivity).
  destruct Hbody as [rest Hbody]. clearbody body. subst body.
  split; [split; [|exact Hlen]|].
  { apply startsWith_lineNumber. }
  split.
  - apply trimmed_checksummed. reflexivity.
  - eexists. split; [reflexivity|].
    rewrite length_append, length_checksum_digit in Hlen. unfold TLE_LINE_LENGTH in Hlen. lia.
Qed.

(** The two lines [createTLEStringsFromBeaconParams] builds for the Beacon
    pass the tests [parseTleFile] makes of element lines: each has 69
    characters, starts with its line number and a space and has no white space
    at either end; and each ends with the checksum digit of its first 68
    characters.  Under any name that [parseTleFile] accepts they make a
    well-formed record. *)
Theorem generated_lines_are_wellFormed (beaconParams : BeaconOrbitParams) (epochDate : Z)
    (r : TLEStrings) :
  createTLEStringsFromBeaconParams beaconParams epochDate = Some r ->
  (forall nameLine, isNameLine nameLine -> trimmed nameLine ->
     wellFormedTle {| name := nameLine; line1 := r.(tle1); line2 := r.(tle2) |})
  /\ (exists body, r.(tle1) = body +:+ pretty (calculateTLEChecksum body)
                    /\ String.length body = 68)
  /\ (exists body, r.(tle2) = body +:+ pretty (calculateTLEChecksum body)
                    /\ String.length body = 68).
Proof.
  unfold createTLEStringsFromBeaconParams.
  destruct (altitude beaconParams <=? 0)%float; [discriminate|]. cbv zeta.
  destruct (getSunRaDec epochDate) as [sunRaDecEpoch|]; [|discriminate].
  destruct (inclinationAndRaan beaconParams _) as [[inclinationDeg raanDeg]|]; [|discriminate].
  destruct (negb (String.length (tleLine1 _) =? TLE_LINE_LENGTH)); [discriminate|].
  destruct (negb (String.length (tleLine2 _ _ _) =? TLE_LINE_LENGTH)) eqn:Hlen2; [discriminate|].
  apply negb_false_iff, Nat.eqb_eq in Hlen2.
  intros [= <-]. cbn [tle1 tle2].
  destruct (tleLine1_checks (getTLEEpochDateTimeUTC epochDate)) as (H1 & T1 & B1).
  destruct (tleLine2_checks Hlen2) as (H2 & T2 & B2).
  split; [|split; assumption].
  intros nameLine Hn Tn. unfold wellFormedTle. cbn [name line1 line2]. tauto.
Qed.

End GeneratedLines.

(** ** Entries made at the instants of a loop *)

Lemma instantsFrom_S (start timeStep : Z) (n : nat) :
  instantsFrom start timeStep (S n)
  = instantsFrom start timeStep n ++ [(start + Z.of_nat n * timeStep)%Z].
Proof. unfold instantsFrom. rewrite seq_S, map_app. reflexivity. Qed.

Lemma instantsFrom_cons (start timeStep : Z) (n : nat) :
  instantsFrom start timeStep (S n) = start :: instantsFrom (start + timeStep) timeStep n.
Proof.
  unfold instantsFrom. cbn [seq map]. f_equal; [lia|].
  rewrite <- seq_shift, map_map. apply map_ext. intros j. lia.
Qed.

Lemma elem_of_instantsFrom (start timeStep : Z) (n : nat) (t : Z) :
  t ∈ instantsFrom start timeStep n
  <-> exists j, j < n /\ t = (start + Z.of_nat j * timeStep)%Z.
Proof.
  unfold instantsFrom. rewrite list_elem_of_fmap. split.
  - intros (j & -> & Hj). apply elem_of_seq in Hj. exists j. split; [lia|reflexivity].
  - intros (j & Hj & ->). exists j. split; [reflexivity|]. apply elem_of_seq. lia.
Qed.

(** All the instants visited lie between the start and the end of the span. *)
Lemma instantsFrom_bounds (start endTime timeStep t : Z) :
  (0 < timeStep)%Z ->
  t ∈ instantsFrom start timeStep (stepsLeft endTime timeStep start) ->
  (start <= t <= endTime)%Z.
Proof.
  intros Hpos Hin. apply elem_of_instantsFrom in Hin as (j & Hj & ->).
  unfold stepsLeft in Hj. destruct (dateLeb start endTime) eqn:Hle; [|lia].
  apply dateLeb_true in Hle. destruct (Z.ltb_spec 0 timeStep); [|lia].
  assert (Hq : (0 <= (endTime - start) / timeStep)%Z) by (apply Z.div_pos; lia).
  assert (Hj' : (Z.of_nat j <= (endTime - start) / timeStep)%Z) by lia.
  pose proof (Z.mul_div_le (endTime - start) timeStep Hpos) as Hm.
  assert ((Z.of_nat j * timeStep <= (endTime - start) / timeStep * timeStep)%Z)
    by (apply Z.mul_le_mono_nonneg_r; lia).
  lia.
Qed.

(** Whatever the sign of the time step, the loop's test holds at each of
    them. *)
Lemma instantsFrom_dateLeb (start endTime timeStep t : Z) :
  timeStep <> 0%Z ->
  t ∈ instantsFrom start timeStep (stepsLeft endTime timeStep start) ->
  dateLeb t endTime = true.
Proof.
  intros Hstep Hin.
  destruct (Z.lt_ge_cases 0 timeStep) as [Hpos|Hneg].
  - pose proof (instantsFrom_bounds _ _ Hpos Hin) as Hb.
    apply elem_of_instantsFrom in Hin as (j & Hj & ->).
    unfold stepsLeft in Hj. destruct (dateLeb start endTime) eqn:Hle; [|lia].
    apply dateLeb_true in Hle. apply dateLeb_true. lia.
  - apply elem_of_instantsFrom in Hin as (j & Hj & ->).
    unfold stepsLeft in Hj. destruct (dateLeb start endTime) eqn:Hle; [|lia].
    apply dateLeb_true in Hle. destruct (Z.ltb_spec 0 timeStep); [lia|].
    assert (Hq : (0 <= (start + maxTimeValue) / - timeStep)%Z) by (apply Z.div_pos; lia).
    assert (Hj' : (Z.of_nat j <= (start + maxTimeValue) / - timeStep)%Z) by lia.
    pose proof (Z.mul_div_le (start + maxTimeValue) (- timeStep) ltac:(lia)) as Hm.
    assert ((Z.of_nat j * - timeStep
             <= (start + maxTimeValue) / - timeStep * - timeStep)%Z)
      by (apply Z.mul_le_mono_nonneg_r; lia).
    apply dateLeb_true. lia.
Qed.

(** Entries made at some of the instants, each stamped with its instant, come
    in strictly increasing order of their stamps. *)
Lemma omap_instants_sorted {A : Type} (f : Z -> option A) (stamp : A -> Z)
    (start timeStep : Z) (n : nat) :
  (forall t a, f t = Some a -> stamp a = t) -> (0 < timeStep)%Z ->
  StronglySorted (fun a b => (stamp a < stamp b)%Z) (omap f (instantsFrom start timeStep n)).
Proof.
  intros Hstamp Hpos. induction n as [|n IH]; [constructor|].
  rewrite instantsFrom_S, omap_app. apply StronglySorted_app_2; [|exact IH|].
  - intros a b Ha Hb. apply list_elem_of_omap in Ha as (ta & Hta & Hfa).
    apply list_elem_of_omap in Hb as (tb & Htb & Hfb).
    apply list_elem_of_singleton in Htb. subst tb.
    apply elem_of_instantsFrom in Hta as (j & Hj & ->).
    rewrite (Hstamp _ _ Hfa), (Hstamp _ _ Hfb). nia.
  - csimpl. destruct (f _); repeat constructor.
Qed.

(** The track entry made at instant [t] from a propagation result, and the
    one a satellite gets at [t], if it propagates. *)
Definition trackEntry {sat : SatelliteJs} (t : Z) (propagation : PropagationResult)
    : SatellitePosition :=
  {| timestamp := t;
     positionGeodetic := geodeticToPosition propagation.(pr_positionGeodetic);
     positionEci := eciToCartesian propagation.(pr_positionEci);
     velocityEci := eciToCartesian propagation.(pr_velocityEci) |}.

Definition orbitEntryAt {sat : SatelliteJs} (satrec : SatRec) (t : Z)
    : option SatellitePosition :=
  trackEntry t <$> propagateSatellite satrec t.

Lemma orbitEntryAt_stamp {sat : SatelliteJs} (satrec : SatRec) (t : Z)
    (entry : SatellitePosition) :
  orbitEntryAt satrec t = Some entry -> entry.(timestamp) = t.
Proof.
  unfold orbitEntryAt. destruct (propagateSatellite satrec t); [|discriminate].
  intros [= <-]. reflexivity.
Qed.

(** In a list sorted by strictly increasing stamps every stamp lies between
    the first and the last. *)
Lemma sorted_head_last {A : Type} (stamp : A -> Z) (l : list A) (first lastOne a : A) :
  StronglySorted (fun x y => (stamp x < stamp y)%Z) l ->
  head l = Some first -> last l = Some lastOne -> a ∈ l ->
  (stamp first <= stamp a <= stamp lastOne)%Z.
Proof.
  intros Hsorted Hfirst Hlast Hin. split.
  - destruct l as [|x l]; [discriminate|]. injection Hfirst as ->.
    apply StronglySorted_inv in Hsorted as [_ Hall]. rewrite Forall_forall in Hall.
    apply elem_of_cons in Hin as [->|Hin]; [lia|]. specialize (Hall _ Hin). lia.
  - apply last_Some in Hlast as [l' ->].
    apply elem_of_app in Hin as [Hin|Hin].
    + assert (stamp a < stamp lastOne)%Z; [|lia].
      apply (StronglySorted_app_1_elem_of _ _ _ _ _ Hsorted Hin). left.
    + apply list_elem_of_singleton in Hin. subst a. lia.
Qed.

(** ** The shape of a run *)

Section RunShape.
Context {math : MathHost} {dates : DateHost} {consts : Constants} {sat : SatelliteJs}
        {tles : TleService}.
Variables (config : SimulationConfig) (beaconSatRec : SatRec)
          (iridiumSatRecs : list IridiumSatRec) (start : Z).

Local Abbreviation step := (simulationStep config beaconSatRec iridiumSatRecs).
(** The state after [k] iterations of the loop, and the instant of iteration
    [j] (counted from 0). *)
Definition stateAfter (k : nat) : SimState :=
  Nat.iter k step (initialState start iridiumSatRecs).

Definition instant (j : nat) : Z := (start + Z.of_nat j * timeStepMs config)%Z.

Definition activeIdsAt (t : Z) : option (gset string) :=
  (fun bp => activeIds config t bp iridiumSatRecs) <$> propagateSatellite beaconSatRec t.

Lemma loopInstants_S (k : nat) :
  loopInstants config start (S k) = loopInstants config start k ++ [instant k].
Proof. unfold loopInstants. rewrite seq_S, map_app. reflexivity. Qed.

Lemma stateAfter_time (k : nat) : currentTime (stateAfter k) = instant k.
Proof. unfold stateAfter. rewrite iter_step_time. reflexivity. Qed.

Lemma stateAfter_S (k : nat) : stateAfter (S k) = step (stateAfter k).
Proof. reflexivity. Qed.

Lemma elem_of_loopInstants (k : nat) (t : Z) :
  t ∈ loopInstants config start k <-> exists j, j < k /\ t = instant j.
Proof.
  unfold loopInstants. rewrite list_elem_of_fmap. split.
  - intros (j & -> & Hj). apply elem_of_seq in Hj. exists j. split; [lia|reflexivity].
  - intros (j & Hj & ->). exists j. split; [reflexivity|]. apply elem_of_seq. lia.
Qed.

Lemma iter_beaconTrack (k : nat) :
  st_beaconTrack (stateAfter k) = omap (orbitEntryAt beaconSatRec) (loopInstants config start k).
Proof.
  induction k as [|k IH]; [reflexivity|].
  rewrite stateAfter_S, loopInstants_S, omap_app, <- IH. unfold simulationStep.
  csimpl. unfold orbitEntryAt. rewrite <- stateAfter_time.
  destruct (propagateSatellite beaconSatRec (currentTime (stateAfter k))) as [bp|];
    csimpl; [reflexivity|symmetry; apply app_nil_r].
Qed.

Lemma iter_activeLinksLog (k : nat) :
  st_activeLinksLog (stateAfter k) = omap activeIdsAt (loopInstants config start k).
Proof.
  induction k as [|k IH]; [reflexivity|].
  rewrite stateAfter_S, loopInstants_S, omap_app, <- IH. unfold simulationStep.
  csimpl. unfold activeIdsAt. rewrite <- stateAfter_time.
  destruct (propagateSatellite beaconSatRec (currentTime (stateAfter k))) as [bp|]; csimpl.
  - apply evaluateStep_activeLinksLog.
  - symmetry. apply app_nil_r.
Qed.

Lemma loopInstants_instantsFrom (n : nat) :
  loopInstants config start n = instantsFrom start (timeStepMs config) n.
Proof. reflexivity. Qed.

End RunShape.

Section RunIter.
Context {math : MathHost} {dates : DateHost} {consts : Constants} {sat : SatelliteJs}
        {tles : TleService}.
Variable config : SimulationConfig.

(** The number of iterations of a run, and the instant its clock is set to
    by the last of them. *)
Definition runIterations (startTime : Z) : nat :=
  stepsLeft (runEndTime config startTime) (timeStepMs config) startTime.

Definition runExitTime (startTime : Z) : Z :=
  (startTime + Z.of_nat (runIterations startTime) * timeStepMs config)%Z.

(** A returned result is that of the state the loop reaches after
    [runIterations] iterations; the dates of the run are valid, and the time
    step is not 0 unless the loop is not entered at all. *)
Lemma runSimulation_Returned_iter (startTime : Z) (r : SimulationResults) :
  runSimulation config startTime = Returned r ->
  exists beaconSatRec,
    initializeBeacon config startTime = Some beaconSatRec
    /\ r = finalResults
             (stateAfter config beaconSatRec (fetchedSatRecs config) startTime
                (runIterations startTime))
    /\ validTime startTime = true
    /\ validTime (runEndTime config startTime) = true
    /\ (timeStepMs config <> 0%Z
        \/ dateLeb startTime (runEndTime config startTime) = false
           /\ runIterations startTime = 0).
Proof.
  intros Hrun.
  destruct (runSimulation_Returned config _ Hrun) as (b & st & Hb & Hloop & -> & Hvs & Hve).
  exists b. split; [exact Hb|].
  destruct (decide (timeStepMs config = 0%Z)) as [Hzero|Hstep].
  - destruct (dateLeb startTime (runEndTime config startTime)) eqn:Hle.
    + rewrite simulationLoop_diverges in Hloop; [discriminate|exact Hzero|exact Hle].
    + assert (Hn : runIterations startTime = 0) by (apply stepsLeft_exit; exact Hle).
      rewrite Hn. split; [|auto].
      destruct (loopFuel _ _ _); cbn [simulationLoop initialState currentTime] in Hloop;
        rewrite Hle in Hloop; injection Hloop as <-; reflexivity.
  - rewrite simulationLoop_closed_form in Hloop;
      [|exact Hstep|apply iterationsLeft_le_loopFuel].
    injection Hloop as <-. auto.
Qed.

(** The instants of a run with a positive time step are the start and the
    instants after it up to the end of the run, and the clock stops one step
    after the last of them. *)
Lemma runIterations_positive (startTime : Z) :
  (0 < timeStepMs config)%Z ->
  validTime startTime = true -> validTime (runEndTime config startTime) = true ->
  let n := runIterations startTime in
  (forall j, j < n ->
     (startTime <= startTime + Z.of_nat j * timeStepMs config <= runEndTime config startTime)%Z)
  /\ (0 < n -> (runEndTime config startTime
               < startTime + Z.of_nat n * timeStepMs config
               <= runEndTime config startTime + timeStepMs config)%Z)
  /\ ((0 <= simulationDurationMs config)%Z -> 0 < n).
Proof.
  intros Hpos Hvs Hve n. apply validTime_true in Hvs, Hve.
  unfold n, runIterations, stepsLeft. unfold runEndTime in *.
  set (endTime := (startTime + simulationDurationMs config)%Z) in *.
  destruct (dateLeb startTime endTime) eqn:Hle.
  2:{ apply dateLeb_false in Hle. repeat split; intros; lia. }
  apply dateLeb_true in Hle. destruct (Z.ltb_spec 0 (timeStepMs config)); [|lia].
  assert (Hq : (0 <= (endTime - startTime) / timeStepMs config)%Z) by (apply Z.div_pos; lia).
  pose proof (Z.mul_div_le (endTime - startTime) (timeStepMs config) Hpos) as Hm.
  pose proof (Z.mul_succ_div_gt (endTime - startTime) (timeStepMs config) Hpos) as Hm'.
  split; [|split; intros; lia].
  intros j Hj.
  assert ((Z.of_nat j * timeStepMs config
           <= (endTime - startTime) / timeStepMs config * timeStepMs config)%Z)
    by (apply Z.mul_le_mono_nonneg_r; lia).
  lia.
Qed.

End RunIter.

Section OrbitTrackProperties.
Context {sat : SatelliteJs}.
Variable satrec : SatRec.

Lemma orbitTrackLoop_closed_form (endTime timeStep : Z) (fuel : nat) (t : Z)
    (track : list SatellitePosition) :
  timeStep <> 0%Z -> stepsLeft endTime timeStep t <= fuel ->
  orbitTrackLoop fuel satrec endTime timeStep t track
  = Some (track ++ omap (orbitEntryAt satrec) (instantsFrom t timeStep (stepsLeft endTime timeStep t))).
Proof.
  intros Hstep. revert t track.
  induction fuel as [|fuel IH]; intros t track Hfuel; cbn [orbitTrackLoop].
  - destruct (dateLeb t endTime) eqn:Hle.
    + rewrite (stepsLeft_succ _ _ Hstep Hle) in Hfuel. lia.
    + rewrite (stepsLeft_exit _ _ _ Hle). cbn. rewrite app_nil_r. reflexivity.
  - destruct (dateLeb t endTime) eqn:Hle.
    + rewrite (stepsLeft_succ _ _ Hstep Hle) in *.
      rewrite IH by lia. rewrite instantsFrom_cons. csimpl. unfold orbitEntryAt at 2.
      destruct (propagateSatellite satrec t) as [p|]; csimpl;
        [rewrite <- app_assoc|]; reflexivity.
    + rewrite (stepsLeft_exit _ _ _ Hle). cbn. rewrite app_nil_r. reflexivity.
Qed.

Lemma orbitTrackLoop_diverges (endTime : Z) (fuel : nat) (t : Z)
    (track : list SatellitePosition) :
  dateLeb t endTime = true ->
  orbitTrackLoop fuel satrec endTime 0 t track = None.
Proof.
  revert t track.
  induction fuel as [|fuel IH]; intros t track Hle; cbn [orbitTrackLoop]; rewrite Hle;
    [reflexivity|].
  apply IH. rewrite Z.add_0_r. exact Hle.
Qed.

Lemma orbitTrackLoop_exit (endTime timeStep : Z) (fuel : nat) (t : Z)
    (track : list SatellitePosition) :
  dateLeb t endTime = false ->
  orbitTrackLoop fuel satrec endTime timeStep t track = Some track.
Proof. intros Hle. destruct fuel; cbn [orbitTrackLoop]; rewrite Hle; reflexivity. Qed.

(** [getOrbitTrack] on a duration that is a whole number of hours and a time
    step that is a whole number of minutes.  With a time step other than 0 it
    returns, and its track holds one entry for each instant start,
    start + step, ... at which the loop's test holds and the satellite
    propagates, and none for the others; with a positive time step these are
    the instants up to the end of the span, and the entries come in strictly
    increasing order of their timestamps.  When the start or the end of the
    span is an Invalid Date, or the end is before the start, the track is
    empty.  With a time step of 0 and a loop that is entered it never
    returns. *)
Theorem getOrbitTrack_closed_form (startTime durationHours timeStepMinutes : Z) :
  let endTime := (startTime + durationHours * 60 * 60 * 1000)%Z in
  let timeStep := (timeStepMinutes * 60 * 1000)%Z in
  (timeStepMinutes <> 0%Z ->
   exists track,
     getOrbitTrack satrec startTime durationHours timeStepMinutes = Some track
     /\ track = omap (orbitEntryAt satrec)
                  (instantsFrom startTime timeStep (stepsLeft endTime timeStep startTime))
     /\ Forall (fun entry => dateLeb entry.(timestamp) endTime = true
                              /\ is_Some (propagateSatellite satrec entry.(timestamp))) track
     /\ ((0 < timeStepMinutes)%Z ->
         StronglySorted (fun a b => (a.(timestamp) < b.(timestamp))%Z) track
         /\ Forall (fun entry => (startTime <= entry.(timestamp) <= endTime)%Z) track))
  /\ (dateLeb startTime endTime = false ->
      getOrbitTrack satrec startTime durationHours timeStepMinutes = Some [])
  /\ (timeStepMinutes = 0%Z -> dateLeb startTime endTime = true ->
      getOrbitTrack satrec startTime durationHours timeStepMinutes = None).
Proof.
  intros endTime timeStep. split; [|split].
  - intros Hnz. assert (Hstep : timeStep <> 0%Z) by (unfold timeStep; lia).
    eexists. split; [|split; [reflexivity|split]].
    + unfold getOrbitTrack. fold endTime timeStep.
      rewrite orbitTrackLoop_closed_form;
        [reflexivity | exact Hstep | apply stepsLeft_le_loopFuel].
    + apply Forall_forall. intros entry Hin.
      apply list_elem_of_omap in Hin as (t & Ht & Hentry).
      rewrite (orbitEntryAt_stamp _ _ Hentry). split.
      * eapply instantsFrom_dateLeb; eassumption.
      * unfold orbitEntryAt in Hentry.
        destruct (propagateSatellite satrec t); [eauto|discriminate].
    + intros Hpos. assert (Hpos' : (0 < timeStep)%Z) by (unfold timeStep; lia). split.
      * apply omap_instants_sorted; [exact (orbitEntryAt_stamp satrec)|exact Hpos'].
      * apply Forall_forall. intros entry Hin.
        apply list_elem_of_omap in Hin as (t & Ht & Hentry).
        rewrite (orbitEntryAt_stamp _ _ Hentry).
        eapply instantsFrom_bounds; eassumption.
  - intros Hle. unfold getOrbitTrack. apply orbitTrackLoop_exit. exact Hle.
  - intros -> Hle. unfold getOrbitTrack. apply orbitTrackLoop_diverges. exact Hle.
Qed.

End OrbitTrackProperties.

(** ** Handshakes of a run *)

Section Handshakes.
Context {math : MathHost} {dates : DateHost} {consts : Constants} {sat : SatelliteJs}
        {tles : TleService}.
Variables (config : SimulationConfig) (beaconSatRec : SatRec)
          (iridiumSatRecs : list IridiumSatRec) (start : Z).

(** "[h] records a link that is active at instant [t]": the Beacon and one of
    the satellites propagate at [t], the link between them is active, and [h]
    holds the satellite's id and the two geodetic positions of that instant. *)
Definition handshakeMadeAt (t : Z) (h : Handshake) : Prop :=
  exists (bp : PropagationResult) (isat : IridiumSatRec) (ip : PropagationResult),
    propagateSatellite beaconSatRec t = Some bp
    /\ isat ∈ iridiumSatRecs
    /\ propagateSatellite isat.(rec) t = Some ip
    /\ h = mkHandshake t isat.(id)
             (geodeticToPosition bp.(pr_positionGeodetic))
             (geodeticToPosition ip.(pr_positionGeodetic))
    /\ linkActive config t bp isat = true
    /\ isLineOfSightClear (eciToCartesian bp.(pr_positionEci))
         (eciToCartesian ip.(pr_positionEci)) origin RADIUS_EARTH_KM = true.

Lemma canCommunicate_lineOfSight (beaconPos beaconVel iridiumPos iridiumVel : CartesianVector)
    (iridiumSatId : string) :
  canCommunicate config beaconPos beaconVel iridiumPos iridiumVel iridiumSatId = true ->
  isLineOfSightClear beaconPos iridiumPos origin RADIUS_EARTH_KM = true.
Proof.
  unfold canCommunicate.
  destruct (match handshakeMode config with OneWay => _ | BiDirectional => _ end);
    [auto|discriminate].
Qed.

Lemma handshakeFor_Some (t : Z) (bp : PropagationResult) (previous : gset string)
    (isat : IridiumSatRec) (h : Handshake) :
  handshakeFor config t bp previous isat = Some h ->
  exists ip,
    propagateSatellite isat.(rec) t = Some ip
    /\ h = mkHandshake t isat.(id)
             (geodeticToPosition bp.(pr_positionGeodetic))
             (geodeticToPosition ip.(pr_positionGeodetic))
    /\ linkActive config t bp isat = true
    /\ isLineOfSightClear (eciToCartesian bp.(pr_positionEci))
         (eciToCartesian ip.(pr_positionEci)) origin RADIUS_EARTH_KM = true.
Proof.
  unfold handshakeFor.
  destruct (propagateSatellite isat.(rec) t) as [ip|] eqn:Hip; [|discriminate].
  destruct (linkActive config t bp isat) eqn:Hact; [|discriminate].
  destruct (negb _); [|discriminate].
  intros [= <-]. exists ip. repeat split.
  unfold linkActive in Hact. rewrite Hip in Hact.
  exact (canCommunicate_lineOfSight _ _ _ _ _ Hact).
Qed.

Lemma iter_handshakeLog (k : nat) :
  Forall (fun h => exists j, j < k /\ handshakeMadeAt (instant config start j) h)
         (st_handshakeLog (stateAfter config beaconSatRec iridiumSatRecs start k)).
Proof.
  induction k as [|k IH]; [constructor|].
  rewrite stateAfter_S. unfold simulationStep.
  rewrite stateAfter_time.
  assert (Hold : Forall (fun h => exists j, j < S k /\ handshakeMadeAt (instant config start j) h)
                   (st_handshakeLog (stateAfter config beaconSatRec iridiumSatRecs start k))).
  { eapply Forall_impl; [exact IH|]. intros h (j & Hj & Hh). exists j. split; [lia|exact Hh]. }
  destruct (propagateSatellite beaconSatRec (instant config start k)) as [bp|] eqn:Hbp;
    [|exact Hold].
  rewrite evaluateStep_log. apply Forall_app. split; [exact Hold|].
  apply Forall_forall. intros h Hin.
  apply list_elem_of_omap in Hin as (isat & Hin & Hsome).
  rewrite stateAfter_time in Hsome.
  destruct (handshakeFor_Some _ _ _ _ Hsome) as (ip & Hip & -> & Hact & Hlos).
  exists k. split; [lia|]. exists bp, isat, ip. auto 10.
Qed.

Lemma same_stamp_sorted {A : Type} (stamp : A -> Z) (t : Z) (l : list A) :
  Forall (fun a => stamp a = t) l ->
  StronglySorted (fun a b => (stamp a <= stamp b)%Z) l.
Proof.
  induction 1 as [|a l Ha Hl IH]; constructor; [exact IH|].
  eapply Forall_impl; [exact Hl|]. cbn. intros b Hb. lia.
Qed.

Lemma iter_handshakeLog_sorted (k : nat) :
  (0 < timeStepMs config)%Z ->
  StronglySorted (fun h1 h2 => (h1.(hs_timestamp) <= h2.(hs_timestamp))%Z)
    (st_handshakeLog (stateAfter config beaconSatRec iridiumSatRecs start k)).
Proof.
  intros Hpos. induction k as [|k IH]; [constructor|].
  rewrite stateAfter_S. unfold simulationStep. rewrite stateAfter_time.
  destruct (propagateSatellite beaconSatRec (instant config start k)) as [bp|] eqn:Hbp;
    [|exact IH].
  rewrite evaluateStep_log, stateAfter_time.
  assert (Hnew : Forall (fun h => h.(hs_timestamp) = instant config start k)
            (omap (handshakeFor config (instant config start k) bp
                     (previousConnectedIridiumSatIds
                        (stateAfter config beaconSatRec iridiumSatRecs start k)))
                  iridiumSatRecs)).
  { apply Forall_forall. intros h Hin.
    apply list_elem_of_omap in Hin as (isat & _ & Hsome).
    exact (proj1 (handshakeFor_fields _ _ _ _ _ Hsome)). }
  apply StronglySorted_app_2; [|exact IH|exact (same_stamp_sorted _ Hnew)].
  intros h1 h2 H1 H2.
  pose proof (iter_handshakeLog k) as Hlog. rewrite Forall_forall in Hlog, Hnew.
  destruct (Hlog _ H1) as (j & Hj & (bp1 & isat1 & ip1 & _ & _ & _ & -> & _)).
  rewrite (Hnew _ H2). cbn [mkHandshake hs_timestamp]. unfold instant. nia.
Qed.

Lemma iter_track_keys (k : nat) :
  dom (st_iridiumTracks (stateAfter config beaconSatRec iridiumSatRecs start k))
  = list_to_set (map id iridiumSatRecs).
Proof.
  induction k as [|k IH].
  - change (stateAfter config beaconSatRec iridiumSatRecs start 0)
      with (initialState start iridiumSatRecs).
    cbn [initialState st_iridiumTracks].
    rewrite initial_track_keys, dom_empty_L. apply (right_id_L ∅ (∪)).
  - rewrite stateAfter_S, step_keeps_track_keys. exact IH.
Qed.

End Handshakes.

(** ** Iridium tracks of a run *)

Section IridiumTracks.
Context {math : MathHost} {dates : DateHost} {consts : Constants} {sat : SatelliteJs}
        {tles : TleService}.
Variables (config : SimulationConfig) (beaconSatRec : SatRec)
          (iridiumSatRecs : list IridiumSatRec) (start : Z).

(** The entries pushed on the track of id [i] at an evaluated instant [t]: one
    for each satellite record of that id that propagates at [t]. *)
Definition entriesOf (i : string) (t : Z) (sats : list IridiumSatRec) : list SatellitePosition :=
  omap (fun isat => if decide (isat.(id) = i) then orbitEntryAt isat.(rec) t else None) sats.

(** The same at any instant visited: none when the Beacon fails to propagate. *)
Definition stepEntriesOf (i : string) (t : Z) : list SatellitePosition :=
  match propagateSatellite beaconSatRec t with
  | Some _ => entriesOf i t iridiumSatRecs
  | None => []
  end.

Lemma evaluateIridiumSat_tracks (t : Z) (bp : PropagationResult) (previous : gset string)
    (acc : StepAcc) (isat : IridiumSatRec) :
  acc_iridiumTracks (evaluateIridiumSat config t bp previous acc isat)
  = match orbitEntryAt isat.(rec) t with
    | Some entry => alter (fun track => track ++ [entry]) isat.(id) acc.(acc_iridiumTracks)
    | None => acc.(acc_iridiumTracks)
    end.
Proof.
  unfold evaluateIridiumSat, orbitEntryAt.
  destruct (propagateSatellite isat.(rec) t) as [ip|]; [|reflexivity]. csimpl.
  destruct (canCommunicate _ _ _ _ _ _); reflexivity.
Qed.

Lemma foldSats_tracks (t : Z) (bp : PropagationResult) (previous : gset string)
    (sats : list IridiumSatRec) (acc : StepAcc) (i : string) :
  acc_iridiumTracks (fold_left (evaluateIridiumSat config t bp previous) sats acc) !! i
  = (fun track => track ++ entriesOf i t sats) <$> acc.(acc_iridiumTracks) !! i.
Proof.
  revert acc. induction sats as [|isat sats IH]; intros acc.
  - cbn. destruct (acc_iridiumTracks acc !! i); cbn; [rewrite app_nil_r|]; reflexivity.
  - cbn [fold_left]. rewrite IH, evaluateIridiumSat_tracks. unfold entriesOf. csimpl.
    destruct (decide (isat.(id) = i)) as [E|E].
    + destruct (orbitEntryAt isat.(rec) t) as [entry|]; [|reflexivity].
      rewrite <- E, lookup_alter_eq.
      destruct (acc_iridiumTracks acc !! id isat); cbn; [rewrite <- app_assoc|]; reflexivity.
    + destruct (orbitEntryAt isat.(rec) t) as [entry|]; [|reflexivity].
      rewrite lookup_alter_ne by exact E. reflexivity.
Qed.

Lemma step_tracks (st : SimState) (i : string) :
  st_iridiumTracks (simulationStep config beaconSatRec iridiumSatRecs st) !! i
  = (fun track => track ++ stepEntriesOf i st.(currentTime)) <$> st.(st_iridiumTracks) !! i.
Proof.
  unfold simulationStep, stepEntriesOf.
  destruct (propagateSatellite beaconSatRec st.(currentTime)) as [bp|].
  - unfold evaluateStep. cbn [st_iridiumTracks]. apply foldSats_tracks.
  - cbn. destruct (st_iridiumTracks st !! i); cbn; [rewrite app_nil_r|]; reflexivity.
Qed.

Lemma iter_tracks (k : nat) (i : string) :
  i ∈ map id iridiumSatRecs ->
  st_iridiumTracks (stateAfter config beaconSatRec iridiumSatRecs start k) !! i
  = Some (flat_map (stepEntriesOf i) (loopInstants config start k)).
Proof.
  intros Hi. induction k as [|k IH].
  - assert (Hdom : i ∈ dom (st_iridiumTracks
                              (stateAfter config beaconSatRec iridiumSatRecs start 0))).
    { rewrite iter_track_keys. apply elem_of_list_to_set. exact Hi. }
    apply elem_of_dom in Hdom as [track Htrack]. rewrite Htrack. f_equal.
    change (stateAfter config beaconSatRec iridiumSatRecs start 0)
      with (initialState start iridiumSatRecs) in Htrack.
    cbn [initialState st_iridiumTracks] in Htrack. clear -Htrack.
    assert (H : forall sats (tracks : gmap string (list SatellitePosition)),
              (forall j tr, tracks !! j = Some tr -> tr = []) ->
              forall j tr,
                fold_left (fun tracks isat => <[ isat.(id) := [] ]> tracks) sats tracks !! j
                = Some tr -> tr = []).
    { induction sats as [|isat sats IHs]; intros tracks Hall j tr; [apply Hall|].
      cbn [fold_left]. apply IHs. intros j' tr' Hl.
      destruct (decide (isat.(id) = j')) as [<-|Hne].
      - rewrite lookup_insert_eq in Hl. congruence.
      - rewrite lookup_insert_ne in Hl by exact Hne. eapply Hall. exact Hl. }
    apply (H _ _ (fun j tr Hl => match lookup_empty_Some _ _ Hl with end) _ _ Htrack).
  - rewrite stateAfter_S, step_tracks, IH, stateAfter_time, loopInstants_S, flat_map_app.
    cbn. rewrite app_nil_r. reflexivity.
Qed.

(** With distinct ids one record feeds one track. *)
Lemma entriesOf_NoDup (isat : IridiumSatRec) (t : Z) (sats : list IridiumSatRec) :
  NoDup (map id sats) -> isat ∈ sats ->
  entriesOf isat.(id) t sats = option_list (orbitEntryAt isat.(rec) t).
Proof.
  unfold entriesOf. induction sats as [|other sats IH]; intros Hnd Hin; [inversion Hin|].
  cbn [map] in Hnd. apply NoDup_cons in Hnd as [Hnotin Hnd]. csimpl.
  assert (Hrest : forall s, s ∈ sats -> s.(id) = other.(id) -> False).
  { intros s Hs E. apply Hnotin. rewrite <- E. apply list_elem_of_fmap. eauto. }
  apply elem_of_cons in Hin as [->|Hin].
  - rewrite decide_True by reflexivity.
    assert (Hnone : omap (fun s => if decide (s.(id) = other.(id))
                                   then orbitEntryAt s.(rec) t else None) sats = []).
    { clear IH Hnd Hnotin. induction sats as [|s sats IHs]; [reflexivity|]. csimpl.
      rewrite decide_False by (intros E; apply (Hrest s); [left|exact E]).
      apply IHs. intros s' Hs'. apply Hrest. right. exact Hs'. }
    rewrite Hnone. destruct (orbitEntryAt other.(rec) t); reflexivity.
  - rewrite decide_False by (intros E; apply (Hrest isat Hin); symmetry; exact E).
    apply IH; assumption.
Qed.

(** The entry a satellite gets at an instant visited: one when both the Beacon
    and the satellite propagate. *)
Definition iridiumEntryAt (isat : IridiumSatRec) (t : Z) : option SatellitePosition :=
  match propagateSatellite beaconSatRec t with
  | Some _ => orbitEntryAt isat.(rec) t
  | None => None
  end.

Lemma flat_map_stepEntriesOf (isat : IridiumSatRec) (instants : list Z) :
  NoDup (map id iridiumSatRecs) -> isat ∈ iridiumSatRecs ->
  flat_map (stepEntriesOf isat.(id)) instants = omap (iridiumEntryAt isat) instants.
Proof.
  intros Hnd Hin. induction instants as [|t instants IH]; [reflexivity|].
  cbn [flat_map]. csimpl. rewrite IH. unfold stepEntriesOf, iridiumEntryAt.
  destruct (propagateSatellite beaconSatRec t); [|reflexivity].
  rewrite entriesOf_NoDup by assumption.
  destruct (orbitEntryAt isat.(rec) t); reflexivity.
Qed.

Lemma length_omap_le {A B C : Type} (f : A -> option B) (g : A -> option C) (l : list A) :
  (forall a, a ∈ l -> is_Some (f a) -> is_Some (g a)) ->
  length (omap f l) <= length (omap g l).
Proof.
  induction l as [|a l IH]; intros Himp; [reflexivity|]. csimpl.
  specialize (IH (fun a' Ha' => Himp a' (list_elem_of_further _ _ _ Ha'))).
  pose proof (Himp a (list_elem_of_here _ _)) as Ha.
  destruct (f a) as [b|]; [|destruct (g a); cbn; lia].
  destruct (Ha (ex_intro _ b eq_refl)) as [c ->]. cbn. lia.
Qed.

Lemma stamps_omap (f g : Z -> option SatellitePosition) (l : list Z) :
  (forall t entry, f t = Some entry -> entry.(timestamp) = t) ->
  (forall t entry, g t = Some entry -> entry.(timestamp) = t) ->
  (forall t, t ∈ l -> (is_Some (f t) <-> is_Some (g t))) ->
  map timestamp (omap f l) = map timestamp (omap g l).
Proof.
  intros Hf Hg. induction l as [|t l IH]; intros Hiff; [reflexivity|]. csimpl.
  specialize (IH (fun t' Ht' => Hiff t' (list_elem_of_further _ _ _ Ht'))).
  pose proof (Hiff t (list_elem_of_here _ _)) as Ht.
  destruct (f t) as [a|] eqn:Ef, (g t) as [b|] eqn:Eg; cbn.
  - rewrite (Hf _ _ Ef), (Hg _ _ Eg), IH. reflexivity.
  - exfalso. destruct (proj1 Ht (ex_intro _ a eq_refl)) as [? [=]].
  - exfalso. destruct (proj2 Ht (ex_intro _ b eq_refl)) as [? [=]].
  - exact IH.
Qed.

End IridiumTracks.

(** ** Blackout periods of a run *)

Section Blackouts.
Context {math : MathHost} {dates : DateHost} {consts : Constants} {sat : SatelliteJs}
        {tles : TleService}.
Variables (config : SimulationConfig) (beaconSatRec : SatRec)
          (iridiumSatRecs : list IridiumSatRec) (start : Z).
Hypothesis stepPositive : (0 < timeStepMs config)%Z.

(** "Period [p] ends at an instant before [t]." *)
Definition endsBefore (p : BlackoutPeriod) (t : Z) : Prop :=
  exists e, p.(endTime) = Some e /\ (e < t)%Z.

(** "Instant [t] lies in period [p]", start included and end excluded.  A
    period whose end is NaN has no end: it was open when the loop stopped. *)
Definition inPeriod (p : BlackoutPeriod) (t : Z) : Prop :=
  (p.(startTime) <= t)%Z
  /\ match p.(endTime) with
     | Some e => (t < e)%Z
     | None => True
     end.

(** "Instant [t] falls in a blackout": in one of the closed periods, or at or
    after the start of the open one. *)
Definition inBlackout (periods : list BlackoutPeriod) (openSince : option Z) (t : Z) : Prop :=
  (exists p, p ∈ periods /\ inPeriod p t)
  \/ (exists s, openSince = Some s /\ (s <= t)%Z).

(** What every iteration keeps true of the blackout bookkeeping. *)
Record blackoutInvariant (st : SimState) : Prop := {
  periods_bounds :
    Forall (fun p => (start <= p.(startTime))%Z
                     /\ (exists e, p.(endTime) = Some e
                                   /\ (p.(startTime) < e < st.(currentTime))%Z)
                     /\ exists entry, entry ∈ st.(st_beaconTrack)
                                       /\ entry.(timestamp) = p.(startTime))
           st.(st_blackoutPeriods);
  periods_sorted :
    StronglySorted (fun p q => endsBefore p q.(startTime)) st.(st_blackoutPeriods);
  open_bounds :
    forall s, st.(currentBlackout) = Some s ->
      (start <= s < st.(currentTime))%Z
      /\ Forall (fun p => endsBefore p s) st.(st_blackoutPeriods)
      /\ exists entry, entry ∈ st.(st_beaconTrack) /\ entry.(timestamp) = s;
  steps_covered :
    Forall2 (fun entry links =>
               (entry.(timestamp) < st.(currentTime))%Z
               /\ (links = ∅ <-> inBlackout st.(st_blackoutPeriods) st.(currentBlackout)
                                   entry.(timestamp)))
            st.(st_beaconTrack) st.(st_activeLinksLog)
}.

Lemma activeIds_empty (t : Z) (bp : PropagationResult) :
  activeIds config t bp iridiumSatRecs = ∅
  <-> existsb (linkActive config t bp) iridiumSatRecs = false.
Proof.
  split.
  - intros Hempty. apply not_true_is_false. intros Hex.
    apply existsb_exists in Hex as (isat & Hin & Hact).
    assert (Hel : isat.(id) ∈ activeIds config t bp iridiumSatRecs).
    { apply elem_of_activeIds. exists isat. split; [|auto].
      apply list_elem_of_In. exact Hin. }
    rewrite Hempty in Hel. exact (not_elem_of_empty _ Hel).
  - intros Hex. apply leibniz_equiv, elem_of_equiv_empty. intros i Hi.
    apply elem_of_activeIds in Hi as (isat & Hin & _ & Hact).
    assert (existsb (linkActive config t bp) iridiumSatRecs = true); [|congruence].
    apply existsb_exists. exists isat. split; [|exact Hact].
    apply list_elem_of_In. exact Hin.
Qed.

Lemma blackoutInvariant_initial : blackoutInvariant (initialState start iridiumSatRecs).
Proof.
  constructor; cbn [initialState st_blackoutPeriods currentBlackout st_beaconTrack
                    st_activeLinksLog];
    [constructor | constructor | intros s0 [=] | constructor].
Qed.

Lemma inPeriod_closed (s e t : Z) :
  inPeriod (mkBlackout s (Some e)) t <-> (s <= t < e)%Z.
Proof. unfold inPeriod. cbn. lia. Qed.

Lemma blackoutInvariant_step (st : SimState) :
  (start <= st.(currentTime))%Z ->
  blackoutInvariant st ->
  blackoutInvariant (simulationStep config beaconSatRec iridiumSatRecs st).
Proof.
  intros Hstart [Hb Hs Ho Hc]. unfold simulationStep.
  destruct (propagateSatellite beaconSatRec st.(currentTime)) as [bp|] eqn:Hbp.
  - (* an evaluated step *)
    set (T := st.(currentTime)) in *.
    set (entryT := trackEntry T bp).
    assert (Htrack : st_beaconTrack (evaluateStep config iridiumSatRecs bp st)
                     = st.(st_beaconTrack) ++ [entryT]) by reflexivity.
    assert (Htime : currentTime (evaluateStep config iridiumSatRecs bp st)
                    = (T + timeStepMs config)%Z) by reflexivity.
    assert (HinT : entryT ∈ st.(st_beaconTrack) ++ [entryT])
      by (apply elem_of_app; right; left).
    assert (Hold : forall entry, entry ∈ st.(st_beaconTrack) ->
                     entry ∈ st.(st_beaconTrack) ++ [entryT])
      by (intros entry Hin; apply elem_of_app; left; exact Hin).
    assert (Hpast : forall p, p ∈ st.(st_blackoutPeriods) -> ~ inPeriod p T).
    { intros p Hp [_ Hin]. rewrite Forall_forall in Hb.
      destruct (Hb _ Hp) as (_ & (e & He & H2) & _). rewrite He in Hin. lia. }
    constructor; rewrite ?Htrack, ?Htime, ?evaluateStep_blackoutPeriods,
                   ?evaluateStep_currentBlackout, ?evaluateStep_activeLinksLog;
      fold T.
    + (* bounds of the closed periods *)
      assert (Hb' : Forall (fun p => (start <= p.(startTime))%Z
                     /\ (exists e, p.(endTime) = Some e
                                   /\ (p.(startTime) < e < T + timeStepMs config)%Z)
                     /\ exists entry, entry ∈ st.(st_beaconTrack) ++ [entryT]
                                       /\ entry.(timestamp) = p.(startTime))
                       st.(st_blackoutPeriods)).
      { eapply Forall_impl; [exact Hb|].
        intros p (H1 & (e & He & H2) & (entry & Hin & Hts)).
        split; [exact H1|]. split; [exists e; split; [exact He|lia]|]. eauto. }
      destruct (existsb _ _); [|exact Hb'].
      destruct st.(currentBlackout) as [s|] eqn:Hopen; [|exact Hb'].
      destruct (Ho s eq_refl) as (Hs1 & _ & (entry & Hin & Hts)).
      apply Forall_app. split; [exact Hb'|]. constructor; [|constructor].
      cbn [mkBlackout startTime endTime]. split; [lia|].
      split; [exists T; split; [reflexivity|lia]|]. eauto.
    + (* order of the closed periods *)
      destruct (existsb _ _); [|exact Hs].
      destruct st.(currentBlackout) as [s|] eqn:Hopen; [|exact Hs].
      destruct (Ho s eq_refl) as (_ & Hends & _).
      apply StronglySorted_app_2; [|exact Hs|repeat constructor].
      intros p q Hp Hq. apply list_elem_of_singleton in Hq. subst q.
      rewrite Forall_forall in Hends. cbn [mkBlackout startTime]. apply Hends. exact Hp.
    + (* the open period *)
      intros s0. destruct (existsb _ _); [discriminate|].
      destruct st.(currentBlackout) as [s|] eqn:Hopen; intros [= <-].
      * destruct (Ho s eq_refl) as (Hs1 & Hends & (entry & Hin & Hts)).
        split; [lia|]. split; [exact Hends|]. eauto.
      * split; [lia|]. split.
        -- eapply Forall_impl; [exact Hb|]. intros p (_ & (e & He & H2) & _).
           exists e. split; [exact He|lia].
        -- exists entryT. split; [exact HinT|reflexivity].
    + (* the steps and the periods *)
      apply Forall2_app.
      * (* earlier steps *)
        apply Forall2_same_length_lookup. split; [exact (Forall2_length _ _ _ Hc)|].
        intros i entry links He Hl.
        destruct (Forall2_lookup_lr _ _ _ _ _ _ Hc He Hl) as [Hlt Hiff].
        split; [lia|]. rewrite Hiff. unfold inBlackout.
        destruct (existsb (linkActive config T bp) iridiumSatRecs).
        -- destruct st.(currentBlackout) as [s|] eqn:Hopen.
           ++ split.
              ** intros [(p & Hp & Hin)|(s' & [= <-] & Hle)].
                 --- left. exists p. split; [apply elem_of_app; left; exact Hp|exact Hin].
                 --- left. exists (mkBlackout s (Some T)).
                     split; [apply elem_of_app; right; left|].
                     apply (proj2 (inPeriod_closed _ _ _)). lia.
              ** intros [(p & Hp & Hin)|(s' & [=] & _)].
                 apply elem_of_app in Hp as [Hp|Hp]; [left; eauto|].
                 apply list_elem_of_singleton in Hp. subst p.
                 apply (proj1 (inPeriod_closed _ _ _)) in Hin. right. exists s. split; [auto|lia].
           ++ split; (intros [H|(s' & [=] & _)]; left; exact H).
        -- destruct st.(currentBlackout) as [s|] eqn:Hopen; [reflexivity|].
           split.
           ++ intros [H|(s' & [=] & _)]. left. exact H.
           ++ intros [H|(s' & [= <-] & Hle)]; [left; exact H|lia].
      * (* the step just made *)
        constructor; [|constructor]. cbn [trackEntry timestamp entryT].
        split; [lia|]. rewrite activeIds_empty. unfold inBlackout.
        destruct (existsb (linkActive config T bp) iridiumSatRecs).
        -- split; [discriminate|].
           intros [(p & Hp & Hin)|(s' & [=] & _)]. exfalso.
           destruct st.(currentBlackout) as [s|] eqn:Hopen.
           ++ apply elem_of_app in Hp as [Hp|Hp].
              ** exact (Hpast _ Hp Hin).
              ** apply list_elem_of_singleton in Hp. subst p.
                 apply (proj1 (inPeriod_closed _ _ _)) in Hin. lia.
           ++ exact (Hpast _ Hp Hin).
        -- split; [intros _|reflexivity]. right.
           destruct st.(currentBlackout) as [s|] eqn:Hopen.
           ++ exists s. split; [reflexivity|]. destruct (Ho s eq_refl) as (Hs1 & _). lia.
           ++ exists T. split; [reflexivity|lia].
  - (* a skipped step *)
    constructor; cbn [skipStep st_blackoutPeriods currentBlackout st_beaconTrack
                      st_activeLinksLog currentTime].
    + eapply Forall_impl; [exact Hb|]. intros p (H1 & (e & He & H2) & H3).
      split; [exact H1|]. split; [exists e; split; [exact He|lia]|exact H3].
    + exact Hs.
    + intros s Hopen. destruct (Ho s Hopen) as (Hs1 & Hends & Hentry).
      split; [lia|]. split; assumption.
    + eapply Forall2_impl; [exact Hc|]. cbn. intros entry links [Hlt Hiff].
      split; [lia|exact Hiff].
Qed.

Lemma iter_blackoutInvariant (k : nat) :
  blackoutInvariant (stateAfter config beaconSatRec iridiumSatRecs start k).
Proof.
  induction k as [|k IH]; [exact blackoutInvariant_initial|].
  rewrite stateAfter_S. apply blackoutInvariant_step; [|exact IH].
  rewrite stateAfter_time. unfold instant. nia.
Qed.

End Blackouts.

Section BlackoutsFinal.
Context {math : MathHost} {dates : DateHost} {consts : Constants} {sat : SatelliteJs}
        {tles : TleService}.

(** The invariant, read on the periods of the result: the open period is
    closed at the instant the loop stopped at, or at NaN when the clock is
    then an Invalid Date. *)
Lemma blackoutInvariant_final (start : Z) (st : SimState) :
  blackoutInvariant start st ->
  let periods := blackoutPeriods (finalResults st) in
  StronglySorted (fun p q => endsBefore p q.(startTime)) periods
  /\ Forall (fun p => (start <= p.(startTime) < st.(currentTime))%Z
                       /\ match p.(endTime) with
                          | Some e => (p.(startTime) < e <= st.(currentTime))%Z
                          | None => validTime st.(currentTime) = false
                          end
                       /\ exists entry, entry ∈ st.(st_beaconTrack)
                                         /\ entry.(timestamp) = p.(startTime)) periods
  /\ Forall2 (fun entry links =>
                links = ∅ <-> exists p, p ∈ periods /\ inPeriod p entry.(timestamp))
             st.(st_beaconTrack) st.(st_activeLinksLog).
Proof.
  intros [Hb Hs Ho Hc]. cbn [finalResults blackoutPeriods]. cbv zeta.
  assert (Hb' : Forall (fun p => (start <= p.(startTime) < st.(currentTime))%Z
                       /\ match p.(endTime) with
                          | Some e => (p.(startTime) < e <= st.(currentTime))%Z
                          | None => validTime st.(currentTime) = false
                          end
                       /\ exists entry, entry ∈ st.(st_beaconTrack)
                                         /\ entry.(timestamp) = p.(startTime))
                  st.(st_blackoutPeriods)).
  { eapply Forall_impl; [exact Hb|]. intros p (H1 & (e & He & H2) & H3).
    split; [lia|]. rewrite He. split; [lia|exact H3]. }
  destruct st.(currentBlackout) as [s|] eqn:Hopen.
  - destruct (Ho s eq_refl) as (Hs1 & Hends & Hentry).
    split; [|split].
    + apply StronglySorted_app_2; [|exact Hs|repeat constructor].
      intros p q Hp Hq. apply list_elem_of_singleton in Hq. subst q.
      rewrite Forall_forall in Hends. cbn [mkBlackout startTime]. apply Hends. exact Hp.
    + apply Forall_app. split; [exact Hb'|]. constructor; [|constructor].
      cbn [mkBlackout startTime endTime]. split; [lia|]. split; [|exact Hentry].
      unfold getTime. destruct (validTime st.(currentTime)); [lia|reflexivity].
    + eapply Forall2_impl; [exact Hc|]. cbn. intros entry links [Hlt Hiff].
      rewrite Hiff. unfold inBlackout. split.
      * intros [(p & Hp & Hin)|(s' & [= <-] & Hle)].
        -- exists p. split; [apply elem_of_app; left; exact Hp|exact Hin].
        -- exists (mkBlackout s (getTime st.(currentTime))).
           split; [apply elem_of_app; right; left|].
           unfold inPeriod. cbn [mkBlackout startTime endTime]. split; [exact Hle|].
           unfold getTime. destruct (validTime st.(currentTime)); [exact Hlt|exact I].
      * intros (p & Hp & Hin). apply elem_of_app in Hp as [Hp|Hp]; [left; eauto|].
        apply list_elem_of_singleton in Hp. subst p.
        destruct Hin as [Hin _]. right. exists s. split; [reflexivity|exact Hin].
  - split; [exact Hs|]. split; [exact Hb'|].
    eapply Forall2_impl; [exact Hc|]. cbn. intros entry links [Hlt Hiff].
    rewrite Hiff. unfold inBlackout. split.
    + intros [H|(s' & [=] & _)]. exact H.
    + intros H. left. exact H.
Qed.

End BlackoutsFinal.

Section RunTheorems.
Context {math : MathHost} {dates : DateHost} {consts : Constants} {sat : SatelliteJs}
        {tles : TleService}.
Variable config : SimulationConfig.

(** The Beacon track of a run holds one entry for each instant visited at
    which the Beacon propagates, and the active-links log holds, for the same
    instants, the ids whose link is active.  With a positive time step the
    entries come in strictly increasing order of the timestamps, all within
    the span of the run.  When the time step of the run is a whole number of
    minutes, the Beacon track is the track [getOrbitTrack] computes for the
    Beacon's record over the same span at that number of minutes. *)
Theorem beaconTrack_is_orbit_track (startTime : Z) (r : SimulationResults) :
  runSimulation config startTime = Returned r ->
  exists beaconSatRec,
    initializeBeacon config startTime = Some beaconSatRec
    /\ r.(beaconTrack)
       = omap (orbitEntryAt beaconSatRec)
           (instantsFrom startTime (timeStepMs config) (runIterations config startTime))
    /\ r.(activeLinksLog)
       = omap (activeIdsAt config beaconSatRec (fetchedSatRecs config))
           (instantsFrom startTime (timeStepMs config) (runIterations config startTime))
    /\ ((0 < config.(simulationTimeStepSec))%Z ->
        StronglySorted (fun a b => (a.(timestamp) < b.(timestamp))%Z) r.(beaconTrack)
        /\ Forall (fun entry =>
                     (startTime <= entry.(timestamp) <= runEndTime config startTime)%Z)
             r.(beaconTrack))
    /\ (forall timeStepMinutes : Z,
          config.(simulationTimeStepSec) = (timeStepMinutes * 60)%Z ->
          getOrbitTrack beaconSatRec startTime config.(simulationDurationHours) timeStepMinutes
          = Some r.(beaconTrack)).
Proof.
  intros Hrun.
  destruct (runSimulation_Returned_iter config _ Hrun) as (b & Hb & -> & _ & _ & Hcase).
  exists b. split; [exact Hb|].
  cbn [finalResults beaconTrack activeLinksLog].
  rewrite iter_beaconTrack, iter_activeLinksLog, loopInstants_instantsFrom.
  split; [reflexivity|]. split; [reflexivity|].
  split.
  - intros Hsec. assert (Hpos : (0 < timeStepMs config)%Z) by (unfold timeStepMs; lia).
    split.
    + apply omap_instants_sorted; [exact (orbitEntryAt_stamp b)|exact Hpos].
    + apply Forall_forall. intros entry Hin.
      apply list_elem_of_omap in Hin as (t & Ht & Hentry).
      rewrite (orbitEntryAt_stamp _ _ Hentry).
      eapply instantsFrom_bounds; eassumption.
  - intros m Hm. unfold getOrbitTrack.
    assert (Hstep : (m * 60 * 1000 = timeStepMs config)%Z) by (unfold timeStepMs; lia).
    assert (Hend : (startTime + config.(simulationDurationHours) * 60 * 60 * 1000
                    = runEndTime config startTime)%Z) by reflexivity.
    rewrite Hstep, Hend.
    destruct Hcase as [Hnz|[Hle Hn]].
    + rewrite orbitTrackLoop_closed_form; [reflexivity|exact Hnz|apply stepsLeft_le_loopFuel].
    + rewrite Hn. apply orbitTrackLoop_exit. exact Hle.
Qed.

(** Every handshake of a returned result records a link that was active:
    at its timestamp the Beacon and an initialized satellite of that id both
    propagate, the cone test of the run's mode holds and the line of sight
    between the two positions is clear of the Earth, and the record holds the
    geodetic positions of that instant. *)
Theorem handshakes_record_active_links (startTime : Z) (r : SimulationResults) :
  runSimulation config startTime = Returned r ->
  exists beaconSatRec,
    initializeBeacon config startTime = Some beaconSatRec
    /\ Forall (fun h =>
          exists (bp : PropagationResult) (isat : IridiumSatRec) (ip : PropagationResult),
            isat ∈ fetchedSatRecs config
            /\ isat.(id) = h.(iridiumSatelliteId)
            /\ propagateSatellite beaconSatRec h.(hs_timestamp) = Some bp
            /\ propagateSatellite isat.(rec) h.(hs_timestamp) = Some ip
            /\ h.(beaconPosition) = geodeticToPosition bp.(pr_positionGeodetic)
            /\ h.(iridiumPosition) = geodeticToPosition ip.(pr_positionGeodetic)
            /\ linkActive config h.(hs_timestamp) bp isat = true
            /\ isLineOfSightClear (eciToCartesian bp.(pr_positionEci))
                 (eciToCartesian ip.(pr_positionEci)) origin RADIUS_EARTH_KM = true)
         r.(handshakeLog).
Proof.
  intros Hrun.
  destruct (runSimulation_Returned_iter config _ Hrun) as (b & Hb & -> & _).
  exists b. split; [exact Hb|]. cbn [finalResults handshakeLog].
  eapply Forall_impl; [apply iter_handshakeLog|].
  intros h (j & _ & (bp & isat & ip & Hbp & Hin & Hip & -> & Hact & Hlos)).
  exists bp, isat, ip. cbn [mkHandshake hs_timestamp iridiumSatelliteId beaconPosition
                            iridiumPosition]. auto 10.
Qed.

Lemma run_track_sorted (startTime : Z) (r : SimulationResults) :
  runSimulation config startTime = Returned r ->
  (0 < timeStepMs config)%Z ->
  StronglySorted (fun a b => (a.(timestamp) < b.(timestamp))%Z) r.(beaconTrack).
Proof.
  intros Hrun Hpos.
  destruct (runSimulation_Returned_iter config _ Hrun) as (b & Hb & -> & _).
  cbn [finalResults beaconTrack].
  rewrite iter_beaconTrack, loopInstants_instantsFrom.
  apply omap_instants_sorted; [exact (orbitEntryAt_stamp b)|exact Hpos].
Qed.

Lemma run_handshake_entries (startTime : Z) (r : SimulationResults) :
  runSimulation config startTime = Returned r ->
  Forall (fun h =>
        exists entry, entry ∈ r.(beaconTrack)
                      /\ entry.(timestamp) = h.(hs_timestamp)
                      /\ entry.(positionGeodetic) = h.(beaconPosition))
       r.(handshakeLog).
Proof.
  intros Hrun.
  destruct (runSimulation_Returned_iter config _ Hrun) as (b & Hb & -> & _).
  cbn [finalResults handshakeLog beaconTrack iridiumTracks].
  eapply Forall_impl; [apply iter_handshakeLog|].
  intros h (j & Hj & (bp & isat & ip & Hbp & Hin & Hip & -> & _)).
  cbn [mkHandshake hs_timestamp iridiumSatelliteId beaconPosition].
  exists (trackEntry (instant config startTime j) bp). split; [|split; reflexivity].
  rewrite iter_beaconTrack. apply list_elem_of_omap.
  exists (instant config startTime j). split.
  - apply elem_of_loopInstants. eauto.
  - unfold orbitEntryAt. rewrite Hbp. reflexivity.
Qed.

(** The handshake log of a returned run with a positive time step is
    chronological; each handshake bears the timestamp and the Beacon position
    of an entry of the Beacon track, so it lies within the track's first and
    last timestamps. *)
Theorem handshakes_are_chronological (startTime : Z) (r : SimulationResults) :
  runSimulation config startTime = Returned r ->
  (0 < config.(simulationTimeStepSec))%Z ->
  StronglySorted (fun h1 h2 => (h1.(hs_timestamp) <= h2.(hs_timestamp))%Z) r.(handshakeLog)
  /\ Forall (fun h =>
        exists entry, entry ∈ r.(beaconTrack)
                      /\ entry.(timestamp) = h.(hs_timestamp)
                      /\ entry.(positionGeodetic) = h.(beaconPosition))
       r.(handshakeLog)
  /\ (forall h first lastEntry,
        h ∈ r.(handshakeLog) -> head r.(beaconTrack) = Some first ->
        last r.(beaconTrack) = Some lastEntry ->
        (first.(timestamp) <= h.(hs_timestamp) <= lastEntry.(timestamp))%Z).
Proof.
  intros Hrun Hsec.
  assert (Hpos : (0 < timeStepMs config)%Z) by (unfold timeStepMs; lia).
  pose proof (run_track_sorted _ Hrun Hpos) as Hsorted.
  pose proof (run_handshake_entries _ Hrun) as Hentries.
  split; [|split; [exact Hentries|]].
  - destruct (runSimulation_Returned_iter config _ Hrun) as (b & Hb & -> & _).
    cbn [finalResults handshakeLog].
    apply iter_handshakeLog_sorted. exact Hpos.
  - intros h first lastEntry Hh Hfirst Hlast.
    rewrite Forall_forall in Hentries.
    destruct (Hentries _ Hh) as (entry & Hin & Hts & _). rewrite <- Hts.
    exact (sorted_head_last _ Hsorted Hfirst Hlast Hin).
Qed.

(** The blackout periods of a returned run with a positive time step are
    chronological and disjoint.  Each starts at the timestamp of a Beacon
    track entry, within the span of the run; each but the last ends at an
    instant strictly before the next one starts; and each ends strictly later
    than it starts, and no later than one time step after the end of the
    span.  The end of a period is NaN only when the loop stopped at an Invalid
    Date. *)
Theorem blackoutPeriods_are_chronological (runStart : Z) (r : SimulationResults) :
  runSimulation config runStart = Returned r ->
  (0 < config.(simulationTimeStepSec))%Z ->
  StronglySorted (fun p q => exists e, p.(endTime) = Some e /\ (e < q.(startTime))%Z)
    r.(blackoutPeriods)
  /\ Forall (fun p =>
        (runStart <= p.(startTime) <= runEndTime config runStart)%Z
        /\ match p.(endTime) with
           | Some e => (p.(startTime) < e <= runEndTime config runStart + timeStepMs config)%Z
           | None => validTime (runExitTime config runStart) = false
           end
        /\ exists entry, entry ∈ r.(beaconTrack) /\ entry.(timestamp) = p.(startTime))
       r.(blackoutPeriods).
Proof.
  intros Hrun Hsec.
  assert (Hpos : (0 < timeStepMs config)%Z) by (unfold timeStepMs; lia).
  destruct (runSimulation_Returned_iter config _ Hrun) as (b & Hb & -> & Hvs & Hve & _).
  destruct (runIterations_positive config runStart Hpos Hvs Hve) as (Hin & Hexit & _).
  destruct (blackoutInvariant_final
              (iter_blackoutInvariant config b (fetchedSatRecs config) runStart Hpos
                 (runIterations config runStart)))
    as (Hsorted & Hbounds & _).
  rewrite stateAfter_time in Hbounds.
  split; [exact Hsorted|].
  eapply Forall_impl; [exact Hbounds|]. cbn beta.
  intros p (H1 & H2 & (entry & Hentry & Hts)).
  cbn [finalResults beaconTrack] in Hentry.
  assert (Hentry' := Hentry). rewrite iter_beaconTrack in Hentry'.
  apply list_elem_of_omap in Hentry' as (t & Ht & Hsome).
  apply elem_of_loopInstants in Ht as (j & Hj & ->).
  assert (Hts' := Hts). rewrite (orbitEntryAt_stamp _ _ Hsome) in Hts.
  specialize (Hin j Hj). specialize (Hexit ltac:(lia)).
  unfold instant in H1, H2, Hts. unfold runExitTime.
  split; [lia|]. split; [|exists entry; split; [exact Hentry|exact Hts']].
  destruct p.(endTime) as [e|]; [lia|exact H2].
Qed.

(** The blackout periods of a returned run with a positive time step cover
    exactly the evaluated steps without a link: the set of active links
    logged for a step is empty if and only if the step's timestamp lies in one
    of the periods, start included and end excluded (a period whose end is NaN
    has no end). *)
Theorem blackoutPeriods_cover_linkless_steps (runStart : Z) (r : SimulationResults) :
  runSimulation config runStart = Returned r ->
  (0 < config.(simulationTimeStepSec))%Z ->
  forall (i : nat) (entry : SatellitePosition) (links : gset string),
    r.(beaconTrack) !! i = Some entry -> r.(activeLinksLog) !! i = Some links ->
    links = ∅
    <-> exists p, p ∈ r.(blackoutPeriods)
                  /\ (p.(startTime) <= entry.(timestamp))%Z
                  /\ match p.(endTime) with
                     | Some e => (entry.(timestamp) < e)%Z
                     | None => True
                     end.
Proof.
  intros Hrun Hsec.
  assert (Hpos : (0 < timeStepMs config)%Z) by (unfold timeStepMs; lia).
  destruct (runSimulation_Returned_iter config _ Hrun) as (b & Hb & -> & _).
  destruct (blackoutInvariant_final
              (iter_blackoutInvariant config b (fetchedSatRecs config) runStart Hpos
                 (runIterations config runStart)))
    as (_ & _ & Hcover).
  intros i entry links He Hl.
  exact (Forall2_lookup_lr _ _ _ _ _ _ Hcover He Hl).
Qed.

(** Every entry of an Iridium track is stamped like an entry of the Beacon
    track.  When the satellite ids are distinct, a satellite's track holds one
    entry for each instant at which both it and the Beacon propagate, so it is
    no longer than the Beacon track; and if the satellite propagates at every
    instant of the Beacon track, the two tracks bear the same timestamps,
    index by index. *)
Theorem iridiumTracks_follow_beaconTrack (runStart : Z) (r : SimulationResults) :
  runSimulation config runStart = Returned r ->
  exists beaconSatRec,
    initializeBeacon config runStart = Some beaconSatRec
    /\ (forall (i : string) (track : list SatellitePosition),
          r.(iridiumTracks) !! i = Some track ->
          Forall (fun entry => exists beaconEntry,
                    beaconEntry ∈ r.(beaconTrack)
                    /\ beaconEntry.(timestamp) = entry.(timestamp)) track)
    /\ (NoDup (map id (fetchedSatRecs config)) ->
        forall isat, isat ∈ fetchedSatRecs config ->
        exists track,
          r.(iridiumTracks) !! isat.(id) = Some track
          /\ track = omap (iridiumEntryAt beaconSatRec isat)
                       (instantsFrom runStart (timeStepMs config)
                          (runIterations config runStart))
          /\ length track <= length r.(beaconTrack)
          /\ ((forall beaconEntry, beaconEntry ∈ r.(beaconTrack) ->
                  is_Some (propagateSatellite isat.(rec) beaconEntry.(timestamp))) ->
              map timestamp track = map timestamp r.(beaconTrack))).
Proof.
  intros Hrun.
  destruct (runSimulation_Returned_iter config _ Hrun) as (b & Hb & -> & _).
  exists b. split; [exact Hb|].
  cbn [finalResults iridiumTracks beaconTrack].
  set (n := runIterations config runStart).
  set (sats := fetchedSatRecs config).
  split.
  - intros i track Htrack.
    assert (Hi : i ∈ map id sats).
    { apply (elem_of_list_to_set (C := gset string)). rewrite <- (iter_track_keys config b sats runStart n).
      apply elem_of_dom. eauto. }
    rewrite (iter_tracks config b sats runStart n Hi) in Htrack. injection Htrack as <-.
    apply Forall_forall. intros entry Hin.
    apply list_elem_of_In, in_flat_map in Hin as (t & Ht & Hentry).
    rewrite <- list_elem_of_In in Ht. rewrite <- list_elem_of_In in Hentry.
    unfold stepEntriesOf in Hentry.
    destruct (propagateSatellite b t) as [bp|] eqn:Hbp; [|inversion Hentry].
    apply list_elem_of_omap in Hentry as (isat & _ & Hsome).
    destruct (decide (id isat = i)); [|discriminate].
    exists (trackEntry t bp). split.
    + rewrite iter_beaconTrack. apply list_elem_of_omap. exists t. split; [exact Ht|].
      unfold orbitEntryAt. rewrite Hbp. reflexivity.
    + rewrite (orbitEntryAt_stamp _ _ Hsome). reflexivity.
  - intros Hnd isat Hin.
    assert (Hi : isat.(id) ∈ map id sats) by (apply list_elem_of_fmap; eauto).
    eexists. split; [apply (iter_tracks config b sats runStart n Hi)|].
    rewrite flat_map_stepEntriesOf by assumption. rewrite loopInstants_instantsFrom.
    split; [reflexivity|].
    rewrite iter_beaconTrack, loopInstants_instantsFrom. split.
    + apply length_omap_le. intros t _. unfold iridiumEntryAt, orbitEntryAt.
      destruct (propagateSatellite b t); [eauto|intros [? [=]]].
    + intros Hall. apply stamps_omap.
      * intros t entry. unfold iridiumEntryAt.
        destruct (propagateSatellite b t); [apply orbitEntryAt_stamp|discriminate].
      * apply orbitEntryAt_stamp.
      * intros t Ht. unfold iridiumEntryAt, orbitEntryAt.
        destruct (propagateSatellite b t) as [bp|] eqn:Hbp; [|split; intros [? [=]]].
        split; [eauto|]. intros _.
        assert (Hbt : trackEntry t bp
                      ∈ omap (orbitEntryAt b) (instantsFrom runStart (timeStepMs config) n)).
        { apply list_elem_of_omap. exists t. split; [exact Ht|].
          unfold orbitEntryAt. rewrite Hbp. reflexivity. }
        destruct (Hall _ Hbt) as [ip Hip]. cbn [trackEntry timestamp] in Hip.
        rewrite Hip. eauto.
Qed.

End RunTheorems.

(** ** Handshakes and the active-links log *)

(** The set logged before index [i]: none before the first. *)
Definition linksBefore (log : list (gset string)) (i : nat) : gset string :=
  match i with
  | O => ∅
  | S j => default ∅ (log !! j)
  end.

(** "Satellite [satId] goes from inactive to active at index [i], at instant
    [t]", read on a Beacon track and its log of active links. *)
Definition risingEdge (track : list SatellitePosition) (log : list (gset string))
    (t : Z) (satId : string) (i : nat) : Prop :=
  exists entry links,
    track !! i = Some entry /\ log !! i = Some links /\ entry.(timestamp) = t
    /\ satId ∈ links /\ satId ∉ linksBefore log i.

Lemma linksBefore_app (log : list (gset string)) (links : gset string) (i : nat) :
  i <= length log -> linksBefore (log ++ [links]) i = linksBefore log i.
Proof.
  destruct i as [|j]; [reflexivity|]. intros Hj. cbn [linksBefore].
  rewrite lookup_app_l by lia. reflexivity.
Qed.

Lemma linksBefore_last (log : list (gset string)) :
  linksBefore log (length log) = default ∅ (last log).
Proof.
  destruct log as [|links log] using rev_ind; [reflexivity|].
  rewrite length_app, Nat.add_1_r. cbn [linksBefore].
  rewrite lookup_app_r by lia. rewrite Nat.sub_diag, last_snoc. reflexivity.
Qed.

Section Edges.
Context {math : MathHost} {dates : DateHost} {consts : Constants} {sat : SatelliteJs}
        {tles : TleService}.
Variables (config : SimulationConfig) (beaconSatRec : SatRec)
          (iridiumSatRecs : list IridiumSatRec) (start : Z).

(** What every iteration keeps true of the handshake log. *)
Record edgeInvariant (st : SimState) : Prop := {
  previous_is_last :
    st.(previousConnectedIridiumSatIds) = default ∅ (last st.(st_activeLinksLog));
  track_and_log : length st.(st_beaconTrack) = length st.(st_activeLinksLog);
  handshakes_are_edges :
    forall t satId,
      (exists h, h ∈ st.(st_handshakeLog) /\ h.(hs_timestamp) = t
                 /\ h.(iridiumSatelliteId) = satId)
      <-> exists i, risingEdge st.(st_beaconTrack) st.(st_activeLinksLog) t satId i
}.

Lemma edgeInvariant_initial : edgeInvariant (initialState start iridiumSatRecs).
Proof.
  constructor; cbn [initialState previousConnectedIridiumSatIds st_activeLinksLog
                    st_beaconTrack st_handshakeLog]; [reflexivity|reflexivity|].
  intros t satId. split.
  - intros (h & Hin & _). inversion Hin.
  - intros (i & entry & links & Hl & _). rewrite lookup_nil in Hl. discriminate.
Qed.

Lemma edgeInvariant_step (st : SimState) :
  edgeInvariant st -> edgeInvariant (simulationStep config beaconSatRec iridiumSatRecs st).
Proof.
  intros [Hprev Hlen Hedges]. unfold simulationStep.
  destruct (propagateSatellite beaconSatRec st.(currentTime)) as [bp|] eqn:Hbp;
    [|constructor; assumption].
  set (T := st.(currentTime)) in *.
  set (active := activeIds config T bp iridiumSatRecs).
  assert (Htrack : st_beaconTrack (evaluateStep config iridiumSatRecs bp st)
                   = st.(st_beaconTrack) ++ [trackEntry T bp]) by reflexivity.
  constructor; rewrite ?Htrack, ?evaluateStep_previous, ?evaluateStep_activeLinksLog,
                 ?evaluateStep_log; fold T active.
  - rewrite last_snoc. reflexivity.
  - rewrite !length_app, Hlen. reflexivity.
  - intros t satId. split.
    + intros (h & Hin & Hts & Hid). apply elem_of_app in Hin as [Hin|Hin].
      * destruct (proj1 (Hedges t satId)) as (i & entry & links & He & Hl & Het & Hin' & Hnot);
          [eauto|].
        exists i, entry, links.
        assert (Hi : i < length st.(st_activeLinksLog)) by (eapply lookup_lt_Some; exact Hl).
        rewrite lookup_app_l by lia. rewrite lookup_app_l by lia.
        rewrite linksBefore_app by lia. auto.
      * apply list_elem_of_omap in Hin as (isat & Hsat & Hsome).
        destruct (handshakeFor_fields _ _ _ _ _ Hsome) as [Hts' Hid'].
        assert (Hedge : linkActive config T bp isat = true
                        /\ isat.(id) ∉ st.(previousConnectedIridiumSatIds))
          by (apply handshakeFor_Some_iff; eauto).
        destruct Hedge as [Hact Hnot].
        exists (length st.(st_beaconTrack)), (trackEntry T bp), active.
        rewrite lookup_app_r by lia. rewrite Nat.sub_diag.
        rewrite Hlen, lookup_app_r by lia. rewrite Nat.sub_diag.
        rewrite linksBefore_app by lia. rewrite linksBefore_last, <- Hprev.
        split; [reflexivity|]. split; [reflexivity|].
        split; [cbn; congruence|]. rewrite <- Hid, Hid'. split; [|exact Hnot].
        apply elem_of_activeIds. eauto.
    + intros (i & entry & links & He & Hl & Het & Hin & Hnot).
      assert (Hi : i < length (st.(st_activeLinksLog) ++ [active]))
        by (eapply lookup_lt_Some; exact Hl).
      rewrite length_app in Hi. cbn [length] in Hi.
      destruct (decide (i < length st.(st_activeLinksLog))) as [Hold|Hnew].
      * rewrite lookup_app_l in He by lia. rewrite lookup_app_l in Hl by lia.
        rewrite linksBefore_app in Hnot by lia.
        destruct (proj2 (Hedges t satId)) as (h & Hh & Hts & Hid).
        { exists i, entry, links. auto. }
        exists h. split; [apply elem_of_app; left; exact Hh|]. auto.
      * assert (i = length st.(st_activeLinksLog)) by lia. subst i.
        rewrite <- Hlen in He. rewrite lookup_app_r in He by lia.
        rewrite Nat.sub_diag in He. injection He as <-.
        rewrite lookup_app_r in Hl by lia. rewrite Nat.sub_diag in Hl. injection Hl as <-.
        rewrite linksBefore_app in Hnot by lia. rewrite linksBefore_last, <- Hprev in Hnot.
        apply elem_of_activeIds in Hin as (isat & Hsat & Hid & Hact).
        destruct (proj2 (handshakeFor_Some_iff config T bp
                           st.(previousConnectedIridiumSatIds) isat)) as [h Hsome].
        { split; [exact Hact|]. rewrite Hid. exact Hnot. }
        destruct (handshakeFor_fields _ _ _ _ _ Hsome) as [Hts' Hid'].
        exists h. split.
        -- apply elem_of_app. right. apply list_elem_of_omap. eauto.
        -- cbn in Het. split; congruence.
Qed.

Lemma iter_edgeInvariant (k : nat) :
  edgeInvariant (stateAfter config beaconSatRec iridiumSatRecs start k).
Proof.
  induction k as [|k IH]; [exact edgeInvariant_initial|].
  rewrite stateAfter_S. apply edgeInvariant_step. exact IH.
Qed.

End Edges.

Section EdgesOfRun.
Context {math : MathHost} {dates : DateHost} {consts : Constants} {sat : SatelliteJs}
        {tles : TleService}.
Variable config : SimulationConfig.

(** The handshakes of a returned run are exactly the rising edges of its
    active-links log: there is a handshake with satellite [satId] at instant
    [t] if and only if, at some index, the Beacon track entry bears the
    timestamp [t], [satId] is in the set logged at that index and it is not in
    the set logged at the index before (none before the first). *)
Theorem handshakes_are_rising_edges (runStart : Z) (r : SimulationResults) :
  runSimulation config runStart = Returned r ->
  forall (t : Z) (satId : string),
    (exists h, h ∈ r.(handshakeLog) /\ h.(hs_timestamp) = t /\ h.(iridiumSatelliteId) = satId)
    <-> exists i, risingEdge r.(beaconTrack) r.(activeLinksLog) t satId i.
Proof.
  intros Hrun.
  destruct (runSimulation_Returned_iter config _ Hrun) as (b & Hb & -> & _).
  cbn [finalResults handshakeLog beaconTrack activeLinksLog].
  apply (handshakes_are_edges
           (iter_edgeInvariant config b (fetchedSatRecs config) runStart
              (runIterations config runStart))).
Qed.

End EdgesOfRun.
(** ** Blackout periods and the active-links log *)

(** "The step before index [i] was evaluated without a link." *)
Definition linklessBefore (log : list (gset string)) (i : nat) : Prop :=
  match i with
  | O => False
  | S j => log !! j = Some ∅
  end.

(** "A run of link-less steps starts at index [i], at instant [s]." *)
Definition linkLost (track : list SatellitePosition) (log : list (gset string))
    (s : Z) (i : nat) : Prop :=
  exists entry,
    track !! i = Some entry /\ entry.(timestamp) = s /\ log !! i = Some ∅
    /\ ~ linklessBefore log i.

(** "A run of link-less steps ends before index [j], whose instant is [e]." *)
Definition linkRegained (track : list SatellitePosition) (log : list (gset string))
    (e : Z) (j : nat) : Prop :=
  exists entry links,
    track !! j = Some entry /\ entry.(timestamp) = e /\ log !! j = Some links
    /\ links <> ∅ /\ linklessBefore log j.

Lemma linklessBefore_app (log : list (gset string)) (links : gset string) (i : nat) :
  i <= length log -> linklessBefore (log ++ [links]) i <-> linklessBefore log i.
Proof.
  destruct i as [|j]; [reflexivity|]. intros Hj. cbn [linklessBefore].
  rewrite lookup_app_l by lia. reflexivity.
Qed.

Lemma linklessBefore_last (log : list (gset string)) :
  linklessBefore log (length log) <-> last log = Some ∅.
Proof.
  destruct log as [|links log] using rev_ind; [split; [intros []|discriminate]|].
  rewrite length_app, Nat.add_1_r. cbn [linklessBefore].
  rewrite lookup_app_r by lia. rewrite Nat.sub_diag, last_snoc. reflexivity.
Qed.

Lemma linkLost_app (track : list SatellitePosition) (log : list (gset string))
    (entry : SatellitePosition) (links : gset string) (s : Z) (i : nat) :
  length track = length log ->
  linkLost (track ++ [entry]) (log ++ [links]) s i
  <-> linkLost track log s i
      \/ (i = length log /\ entry.(timestamp) = s /\ links = ∅ /\ last log <> Some ∅).
Proof.
  intros Hlen. unfold linkLost. split.
  - intros (e & He & Hts & Hl & Hnot).
    assert (Hi : i < length (log ++ [links])) by (eapply lookup_lt_Some; exact Hl).
    rewrite length_app in Hi. cbn [length] in Hi.
    rewrite linklessBefore_app in Hnot by lia.
    destruct (decide (i < length log)) as [Hold|Hnew].
    + left. rewrite lookup_app_l in He by lia. rewrite lookup_app_l in Hl by lia. eauto.
    + right. assert (i = length log) by lia. subst i.
      rewrite <- Hlen in He. rewrite lookup_app_r in He by lia.
      rewrite Nat.sub_diag in He. injection He as ->.
      rewrite lookup_app_r in Hl by lia. rewrite Nat.sub_diag in Hl. injection Hl as ->.
      rewrite linklessBefore_last in Hnot. auto.
  - intros [(e & He & Hts & Hl & Hnot)|(-> & Hts & -> & Hnot)].
    + assert (Hi : i < length log) by (eapply lookup_lt_Some; exact Hl).
      exists e. rewrite lookup_app_l by lia. rewrite lookup_app_l by lia.
      rewrite linklessBefore_app by lia. auto.
    + exists entry. rewrite <- Hlen at 1. rewrite lookup_app_r by lia. rewrite Nat.sub_diag.
      rewrite lookup_app_r by lia. rewrite Nat.sub_diag.
      rewrite linklessBefore_app by lia. rewrite linklessBefore_last. auto.
Qed.

Lemma linkRegained_app (track : list SatellitePosition) (log : list (gset string))
    (entry : SatellitePosition) (links : gset string) (e : Z) (j : nat) :
  linkRegained track log e j -> linkRegained (track ++ [entry]) (log ++ [links]) e j.
Proof.
  intros (en & ls & He & Hts & Hl & Hne & Hbefore).
  assert (Hj : j < length log) by (eapply lookup_lt_Some; exact Hl).
  assert (Hj' : j < length track) by (eapply lookup_lt_Some; exact He).
  exists en, ls. rewrite lookup_app_l by lia. rewrite lookup_app_l by lia.
  rewrite linklessBefore_app by lia. auto.
Qed.

Section BlackoutEdges.
Context {math : MathHost} {dates : DateHost} {consts : Constants} {sat : SatelliteJs}
        {tles : TleService}.
Variables (config : SimulationConfig) (beaconSatRec : SatRec)
          (iridiumSatRecs : list IridiumSatRec) (start : Z).

(** What every iteration keeps true of the blackout periods and the log. *)
Record blackoutEdgeInvariant (st : SimState) : Prop := {
  open_iff_linkless : is_Some st.(currentBlackout) <-> last st.(st_activeLinksLog) = Some ∅;
  edges_track_and_log : length st.(st_beaconTrack) = length st.(st_activeLinksLog);
  starts_are_losses :
    forall s,
      (exists p, p ∈ st.(st_blackoutPeriods) /\ p.(startTime) = s)
      \/ st.(currentBlackout) = Some s
      <-> exists i, linkLost st.(st_beaconTrack) st.(st_activeLinksLog) s i;
  ends_are_regains :
    Forall (fun p => exists e j,
              p.(endTime) = Some e
              /\ linkRegained st.(st_beaconTrack) st.(st_activeLinksLog) e j)
           st.(st_blackoutPeriods)
}.

Lemma blackoutEdgeInvariant_initial :
  blackoutEdgeInvariant (initialState start iridiumSatRecs).
Proof.
  constructor; cbn [initialState currentBlackout st_activeLinksLog st_beaconTrack
                    st_blackoutPeriods].
  - split; [intros [s [=]]|discriminate].
  - reflexivity.
  - intros s. split.
    + intros [(p & Hin & _)|[=]]. inversion Hin.
    + intros (i & entry & Hl & _). rewrite lookup_nil in Hl. discriminate.
  - constructor.
Qed.

Lemma blackoutEdgeInvariant_step (st : SimState) :
  blackoutEdgeInvariant st ->
  blackoutEdgeInvariant (simulationStep config beaconSatRec iridiumSatRecs st).
Proof.
  intros [Hopen Hlen Hstarts Hends]. unfold simulationStep.
  destruct (propagateSatellite beaconSatRec st.(currentTime)) as [bp|] eqn:Hbp;
    [|constructor; assumption].
  set (T := st.(currentTime)) in *.
  set (active := activeIds config T bp iridiumSatRecs).
  assert (Htrack : st_beaconTrack (evaluateStep config iridiumSatRecs bp st)
                   = st.(st_beaconTrack) ++ [trackEntry T bp]) by reflexivity.
  assert (Hends' : Forall (fun p => exists e j,
                     p.(endTime) = Some e
                     /\ linkRegained (st.(st_beaconTrack) ++ [trackEntry T bp])
                          (st.(st_activeLinksLog) ++ [active]) e j)
                     st.(st_blackoutPeriods)).
  { eapply Forall_impl; [exact Hends|]. cbn beta. intros p (e & j & He & Hj).
    exists e, j. split; [exact He|]. apply linkRegained_app. exact Hj. }
  pose proof (activeIds_empty config iridiumSatRecs T bp) as Hempty. fold active in Hempty.
  constructor; rewrite ?Htrack, ?evaluateStep_blackoutPeriods,
                 ?evaluateStep_currentBlackout, ?evaluateStep_activeLinksLog;
    fold T active.
  - (* the open period and the last set *)
    rewrite last_snoc. destruct (existsb (linkActive config T bp) iridiumSatRecs).
    + split; [intros [s [=]]|]. intros [= E]. apply Hempty in E. discriminate.
    + rewrite (proj2 Hempty eq_refl).
      split; [reflexivity|]. intros _. destruct st.(currentBlackout); eauto.
  - rewrite !length_app, Hlen. reflexivity.
  - (* the starts *)
    intros s.
    rewrite (exist_proper _ _ (fun i => linkLost_app _ _ (trackEntry T bp) active s i Hlen)).
    assert (Hsplit :
      (exists i, linkLost st.(st_beaconTrack) st.(st_activeLinksLog) s i
                 \/ (i = length st.(st_activeLinksLog) /\ timestamp (trackEntry T bp) = s
                     /\ active = ∅ /\ last st.(st_activeLinksLog) <> Some ∅))
      <-> ((exists p, p ∈ st.(st_blackoutPeriods) /\ p.(startTime) = s)
           \/ st.(currentBlackout) = Some s)
          \/ (T = s /\ active = ∅ /\ last st.(st_activeLinksLog) <> Some ∅)).
    { rewrite (Hstarts s). split.
      - intros (i & [H|(_ & H)]); [left; eauto|right; exact H].
      - intros [[i H]|H]; [exists i; left; exact H|].
        exists (length st.(st_activeLinksLog)). right. split; [reflexivity|exact H]. }
    rewrite Hsplit. clear Hsplit.
    destruct (existsb (linkActive config T bp) iridiumSatRecs) eqn:Hex.
    + assert (Hne : active <> ∅) by (intros E; apply Hempty in E; discriminate).
      split.
      * intros [(p & Hin & Hs)|[=]]. left.
        destruct st.(currentBlackout) as [s0|] eqn:Ho; [|left; eauto].
        apply elem_of_app in Hin as [Hin|Hin]; [left; eauto|].
        apply list_elem_of_singleton in Hin. subst p. cbn in Hs. subst s0.
        right. reflexivity.
      * intros [[(p & Hin & Hs)|Ho]|(_ & E & _)]; [| |contradiction].
        -- left. exists p. split; [|exact Hs].
           destruct st.(currentBlackout); [apply elem_of_app; left|]; exact Hin.
        -- left. rewrite Ho. exists (mkBlackout s (Some T)). split; [|reflexivity].
           apply elem_of_app. right. left.
    + assert (Hact : active = ∅) by (apply Hempty; reflexivity).
      destruct st.(currentBlackout) as [s0|] eqn:Ho.
      * split.
        -- intros H. left. exact H.
        -- intros [H|(_ & _ & Hlast)]; [exact H|].
           exfalso. apply Hlast, Hopen. eauto.
      * split.
        -- intros [H|[= <-]]; [left; left; exact H|].
           right. split; [reflexivity|]. split; [exact Hact|].
           intros Hlast. apply Hopen in Hlast as [s0 [=]].
        -- intros [[H|[=]]|(Hts & _ & _)]; [left; exact H|].
           right. congruence.
  - (* the ends *)
    destruct (existsb (linkActive config T bp) iridiumSatRecs) eqn:Hex; [|exact Hends'].
    destruct st.(currentBlackout) as [s0|] eqn:Ho; [|exact Hends'].
    apply Forall_app. split; [exact Hends'|]. constructor; [|constructor].
    cbn [mkBlackout endTime].
    exists T, (length st.(st_activeLinksLog)). split; [reflexivity|].
    exists (trackEntry T bp), active.
    rewrite <- Hlen at 1. rewrite lookup_app_r by lia. rewrite Nat.sub_diag.
    rewrite lookup_app_r by lia. rewrite Nat.sub_diag.
    rewrite linklessBefore_app by lia. rewrite linklessBefore_last.
    split; [reflexivity|]. split; [reflexivity|]. split; [reflexivity|]. split.
    + intros E. apply Hempty in E. congruence.
    + apply Hopen. eauto.
Qed.

Lemma iter_blackoutEdgeInvariant (k : nat) :
  blackoutEdgeInvariant (stateAfter config beaconSatRec iridiumSatRecs start k).
Proof.
  induction k as [|k IH]; [exact blackoutEdgeInvariant_initial|].
  rewrite stateAfter_S. apply blackoutEdgeInvariant_step. exact IH.
Qed.

End BlackoutEdges.

Section BlackoutEdgesOfRun.
Context {math : MathHost} {dates : DateHost} {consts : Constants} {sat : SatelliteJs}
        {tles : TleService}.
Variable config : SimulationConfig.

(** The blackout periods of a returned run are the maximal runs of
    link-less evaluated steps.  A period starts at instant [s] if and only if
    some Beacon track entry bears the timestamp [s], the set logged for it is
    empty and the set logged before it is not (or there is none before).
    Every period ends at the timestamp of a track entry with a link that
    follows a link-less one; except the last period when the last set logged
    is empty, which ends at the time value of the clock the loop stopped at,
    one time step after the last instant visited: NaN when that clock is an
    Invalid Date. *)
Theorem blackoutPeriods_are_linkless_runs (runStart : Z) (r : SimulationResults) :
  runSimulation config runStart = Returned r ->
  (forall s,
     (exists p, p ∈ r.(blackoutPeriods) /\ p.(startTime) = s)
     <-> exists i, linkLost r.(beaconTrack) r.(activeLinksLog) s i)
  /\ (forall i p,
        r.(blackoutPeriods) !! i = Some p ->
        (exists e j, p.(endTime) = Some e
                     /\ linkRegained r.(beaconTrack) r.(activeLinksLog) e j)
        \/ (S i = length r.(blackoutPeriods)
            /\ last r.(activeLinksLog) = Some ∅
            /\ p.(endTime) = getTime (runExitTime config runStart))).
Proof.
  intros Hrun.
  destruct (runSimulation_Returned_iter config _ Hrun) as (b & Hb & -> & _).
  destruct (iter_blackoutEdgeInvariant config b (fetchedSatRecs config) runStart
              (runIterations config runStart)) as [Hopen Hlen Hstarts Hends].
  pose proof (stateAfter_time config b (fetchedSatRecs config) runStart
                (runIterations config runStart)) as Htime.
  change (instant config runStart (runIterations config runStart))
    with (runExitTime config runStart) in Htime.
  set (st := stateAfter config b (fetchedSatRecs config) runStart
               (runIterations config runStart)) in *.
  cbn [finalResults blackoutPeriods beaconTrack activeLinksLog]. split.
  - intros s. rewrite <- (Hstarts s).
    destruct st.(currentBlackout) as [s0|].
    + split.
      * intros (p & Hin & Hs). apply elem_of_app in Hin as [Hin|Hin]; [left; eauto|].
        apply list_elem_of_singleton in Hin. subst p. right. cbn in Hs. congruence.
      * intros [(p & Hin & Hs)|[= <-]].
        -- exists p. split; [apply elem_of_app; left; exact Hin|exact Hs].
        -- exists (mkBlackout s0 (getTime st.(currentTime))). split; [|reflexivity].
           apply elem_of_app. right. left.
    + split; [intros H; left; exact H|intros [H|[=]]; exact H].
  - intros i p Hp. rewrite Forall_forall in Hends.
    destruct st.(currentBlackout) as [s0|] eqn:Ho.
    + destruct (decide (i < length st.(st_blackoutPeriods))) as [Hold|Hnew].
      * rewrite lookup_app_l in Hp by lia. left. apply Hends.
        eapply list_elem_of_lookup_2. exact Hp.
      * rewrite lookup_app_r in Hp by lia.
        destruct (i - length st.(st_blackoutPeriods)) as [|n] eqn:Hi; [|destruct n; discriminate].
        injection Hp as <-. right. rewrite length_app. cbn [length mkBlackout endTime].
        split; [lia|]. split; [apply Hopen; eauto|rewrite Htime; reflexivity].
    + left. apply Hends. eapply list_elem_of_lookup_2. exact Hp.
Qed.

End BlackoutEdgesOfRun.
(** ** Positions in the tracks *)

(** "No coordinate of the position of [entry] is NaN." *)
Definition positionIsNumber (entry : SatellitePosition) : Prop :=
  is_nan entry.(positionEci).(x) = false /\ is_nan entry.(positionEci).(y) = false
  /\ is_nan entry.(positionEci).(z) = false.

Lemma orbitEntryAt_positionIsNumber {sat : SatelliteJs} (satrec : SatRec) (t : Z)
    (entry : SatellitePosition) :
  orbitEntryAt satrec t = Some entry -> positionIsNumber entry.
Proof.
  unfold orbitEntryAt, propagateSatellite.
  destruct (satellite_propagate satrec t) as [pv|]; [|discriminate].
  destruct (position pv) as [p|]; [|discriminate].
  destruct (velocity pv) as [v|]; [|discriminate].
  destruct (is_nan (x p)) eqn:Hx; [discriminate|].
  destruct (is_nan (y p)) eqn:Hy; [discriminate|].
  destruct (is_nan (z p)) eqn:Hz; [discriminate|].
  intros [= <-]. repeat split; assumption.
Qed.

Section TrackPositions.
Context {math : MathHost} {dates : DateHost} {consts : Constants} {sat : SatelliteJs}
        {tles : TleService}.
Variable config : SimulationConfig.

(** No track of a returned run holds a position with a NaN coordinate:
    neither the Beacon track nor the track of any Iridium satellite, nor a
    track [getOrbitTrack] returns.  (Velocities are not tested, and an
    infinite coordinate is a number.) *)
Theorem tracks_hold_no_NaN_position (runStart : Z) (r : SimulationResults) :
  runSimulation config runStart = Returned r ->
  Forall positionIsNumber r.(beaconTrack)
  /\ (forall (satId : string) (track : list SatellitePosition),
        r.(iridiumTracks) !! satId = Some track -> Forall positionIsNumber track)
  /\ (forall (satrec : SatRec) (startTime durationHours timeStepMinutes : Z)
             (track : list SatellitePosition),
        getOrbitTrack satrec startTime durationHours timeStepMinutes = Some track ->
        Forall positionIsNumber track).
Proof.
  intros Hrun.
  destruct (runSimulation_Returned_iter config _ Hrun) as (b & Hb & -> & _).
  cbn [finalResults beaconTrack iridiumTracks].
  set (n := runIterations config runStart). set (sats := fetchedSatRecs config).
  split; [|split].
  - rewrite iter_beaconTrack. apply Forall_forall. intros entry Hin.
    apply list_elem_of_omap in Hin as (t & _ & Hentry).
    exact (orbitEntryAt_positionIsNumber _ _ Hentry).
  - intros satId track Htrack.
    assert (Hi : satId ∈ map id sats).
    { apply (elem_of_list_to_set (C := gset string)).
      rewrite <- (iter_track_keys config b sats runStart n). apply elem_of_dom. eauto. }
    rewrite (iter_tracks config b sats runStart n Hi) in Htrack. injection Htrack as <-.
    apply Forall_forall. intros entry Hin.
    apply list_elem_of_In, in_flat_map in Hin as (t & _ & Hentry).
    rewrite <- list_elem_of_In in Hentry. unfold stepEntriesOf in Hentry.
    destruct (propagateSatellite b t); [|inversion Hentry].
    apply list_elem_of_omap in Hentry as (isat & _ & Hsome).
    destruct (decide (id isat = satId)); [|discriminate].
    exact (orbitEntryAt_positionIsNumber _ _ Hsome).
  - intros satrec startTime durationHours timeStepMinutes track Htrack.
    destruct (decide (timeStepMinutes = 0%Z)) as [->|Hnz].
    + unfold getOrbitTrack in Htrack. cbn [Z.mul] in Htrack.
      destruct (dateLeb startTime (startTime + durationHours * 60 * 60 * 1000)) eqn:Hle.
      * rewrite orbitTrackLoop_diverges in Htrack; [discriminate|exact Hle].
      * rewrite orbitTrackLoop_exit in Htrack by exact Hle.
        injection Htrack as <-. constructor.
    + unfold getOrbitTrack in Htrack.
      rewrite orbitTrackLoop_closed_form in Htrack;
        [|lia|apply stepsLeft_le_loopFuel].
      injection Htrack as <-. apply Forall_forall. intros entry Hin.
      apply list_elem_of_omap in Hin as (t & _ & Hentry).
      exact (orbitEntryAt_positionIsNumber _ _ Hentry).
Qed.

End TrackPositions.

(** ** The input form *)

Lemma float_not_leb_gtb (a b : float) :
  is_nan a = false -> is_nan b = false ->
  PrimFloat.leb a b = false -> PrimFloat.ltb b a = true.
Proof.
  intros Ha Hb. apply float_not_nan in Ha, Hb.
  rewrite ltb_spec, leb_spec. unfold SpecFloat.SFltb, SpecFloat.SFleb.
  rewrite (SFcompare_antisym (Prim2SF a) (Prim2SF b)).
  destruct (SFcompare_some Ha Hb) as [c ->].
  destruct c; simpl; congruence.
Qed.

Lemma float_not_ltb_geb (a b : float) :
  is_nan a = false -> is_nan b = false ->
  PrimFloat.ltb a b = false -> PrimFloat.leb b a = true.
Proof.
  intros Ha Hb. apply float_not_nan in Ha, Hb.
  rewrite ltb_spec, leb_spec. unfold SpecFloat.SFltb, SpecFloat.SFleb.
  rewrite (SFcompare_antisym (Prim2SF a) (Prim2SF b)).
  destruct (SFcompare_some Ha Hb) as [c ->].
  destruct c; simpl; congruence.
Qed.

Section FormProperties.
Context {math : MathHost} {dates : DateHost} {consts : Constants} {sat : SatelliteJs}
        {parsing : OrbitInputForm.NumberParsing}.

(** "[v] is a number above 0": it is not NaN and [0 < v]. *)
Definition positiveNumber (v : float) : Prop :=
  is_nan v = false /\ (0 <? v)%float = true.

Lemma positiveNumber_intro (v : float) :
  is_nan v || (v <=? 0)%float = false -> positiveNumber v.
Proof.
  intros H. apply orb_false_iff in H as [Hn Hle]. split; [exact Hn|].
  apply float_not_leb_gtb; [exact Hn|reflexivity|exact Hle].
Qed.

(** Every configuration the form submits is valid: altitude, duration and
    time step are numbers above 0, both fields of view are above 0 and at most
    180, at least one dataset is selected, the local solar time of a
    Sun-Synchronous orbit is in [0, 24) and the inclination of a Non-Polar
    orbit in [0, 180], with no RAAN.  Element synthesis fails none of them on
    its tests of the parameters: [createTLEStringsFromBeaconParams] builds
    lines for its Beacon parameters at any epoch at which the Sun's position
    does not throw (when the eccentricity field has its 7 characters). *)
Theorem handleSubmit_submits_valid_configs
    (orbitType : OrbitInputForm.OrbitType)
    (altitudeText inclinationText localSolarTime iridiumFovDeg beaconFovDeg : string)
    (simulationDurationHours simulationTimeStepSec simulationStartTime : string)
    (selectedDatasets : list string) (handshakeMode : HandshakeMode)
    (fullConfig : OrbitInputForm.FullConfig) :
  OrbitInputForm.handleSubmit orbitType altitudeText inclinationText localSolarTime iridiumFovDeg
    beaconFovDeg simulationDurationHours simulationTimeStepSec simulationStartTime
    selectedDatasets handshakeMode = OrbitInputForm.Submit fullConfig ->
  positiveNumber (altitude fullConfig.(OrbitInputForm.beaconParams))
  /\ positiveNumber fullConfig.(OrbitInputForm.iridiumFovDeg)
  /\ (fullConfig.(OrbitInputForm.iridiumFovDeg) <=? 180)%float = true
  /\ positiveNumber fullConfig.(OrbitInputForm.beaconFovDeg)
  /\ (fullConfig.(OrbitInputForm.beaconFovDeg) <=? 180)%float = true
  /\ positiveNumber fullConfig.(OrbitInputForm.simulationDurationHours)
  /\ positiveNumber fullConfig.(OrbitInputForm.simulationTimeStepSec)
  /\ fullConfig.(OrbitInputForm.iridiumDatasetSources) = selectedDatasets
  /\ selectedDatasets <> []
  /\ match fullConfig.(OrbitInputForm.beaconParams) with
     | SunSynchronous p =>
         orbitType = OrbitInputForm.OrbitType_SunSynchronous
         /\ (0 <=? p.(localSolarTimeAtDescendingNode))%float = true
         /\ (p.(localSolarTimeAtDescendingNode) <? 24)%float = true
     | NonPolar p =>
         orbitType = OrbitInputForm.OrbitType_NonPolar
         /\ (0 <=? p.(inclination))%float = true
         /\ (p.(inclination) <=? 180)%float = true
         /\ p.(raan) = None
     end
  /\ rejectsParams fullConfig.(OrbitInputForm.beaconParams) = false
  /\ (eccentricityFits ->
      forall epochDate : Z,
        createTLEStringsFromBeaconParams fullConfig.(OrbitInputForm.beaconParams) epochDate
        = None
        <-> getSunRaDec epochDate = None).
Proof.
  unfold OrbitInputForm.handleSubmit. cbv zeta.
  destruct (is_nan (OrbitInputForm.parseFloat altitudeText) || _) eqn:Halt; [discriminate|].
  destruct (is_nan (OrbitInputForm.parseFloat iridiumFovDeg) || _ || _) eqn:Hif;
    [discriminate|].
  destruct (is_nan (OrbitInputForm.parseFloat beaconFovDeg) || _ || _) eqn:Hbf;
    [discriminate|].
  destruct (is_nan (OrbitInputForm.parseFloat simulationDurationHours) || _) eqn:Hd;
    [discriminate|].
  destruct (is_nan (OrbitInputForm.parseFloat simulationTimeStepSec) || _) eqn:Hs;
    [discriminate|].
  destruct (length selectedDatasets =? 0)%nat eqn:Hsel; [discriminate|].
  apply Nat.eqb_neq in Hsel.
  assert (Hne : selectedDatasets <> []) by (intros ->; apply Hsel; reflexivity).
  apply orb_false_iff in Hif as [Hif Hif180]. apply orb_false_iff in Hbf as [Hbf Hbf180].
  pose proof (positiveNumber_intro _ Halt) as Palt.
  pose proof (positiveNumber_intro _ Hif) as Pif.
  pose proof (positiveNumber_intro _ Hbf) as Pbf.
  pose proof (positiveNumber_intro _ Hd) as Pd.
  pose proof (positiveNumber_intro _ Hs) as Ps.
  assert (Hif' := @float_not_ltb_geb 180%float _ eq_refl (proj1 Pif) Hif180).
  assert (Hbf' := @float_not_ltb_geb 180%float _ eq_refl (proj1 Pbf) Hbf180).
  apply orb_false_iff in Halt as [_ Halt].
  assert (Hgoal : forall beaconParams : BeaconOrbitParams,
            altitude beaconParams = OrbitInputForm.parseFloat altitudeText ->
            match beaconParams with
            | SunSynchronous p =>
                orbitType = OrbitInputForm.OrbitType_SunSynchronous
                /\ (0 <=? p.(localSolarTimeAtDescendingNode))%float = true
                /\ (p.(localSolarTimeAtDescendingNode) <? 24)%float = true
            | NonPolar p =>
                orbitType = OrbitInputForm.OrbitType_NonPolar
                /\ (0 <=? p.(inclination))%float = true
                /\ (p.(inclination) <=? 180)%float = true
                /\ p.(raan) = None
            end ->
            rejectsParams beaconParams = false
            /\ (eccentricityFits ->
                forall epochDate : Z,
                  createTLEStringsFromBeaconParams beaconParams epochDate = None
                  <-> getSunRaDec epochDate = None)).
  { intros bp Hbp Hshape.
    assert (Hrej : rejectsParams bp = false).
    { unfold rejectsParams. rewrite Hbp, Halt. cbn [orb].
      destruct bp as [p|p].
      - destruct Hshape as (_ & H0 & H24).
        rewrite (float_leb_not_gtb H0), (float_ltb_not_geb H24). reflexivity.
      - destruct Hshape as (_ & H0 & H180 & ->).
        rewrite (float_leb_not_gtb H0), (float_leb_not_gtb H180). reflexivity. }
    split; [exact Hrej|]. intros Hecc epochDate.
    rewrite (createTLEStrings_None bp epochDate Hecc), Hrej.
    split; [intros [[=]|H]; exact H|auto]. }
  destruct orbitType.
  - destruct (is_nan (OrbitInputForm.parseFloat localSolarTime) || _ || _) eqn:Hl;
      [discriminate|].
    apply orb_false_iff in Hl as [Hl Hl24]. apply orb_false_iff in Hl as [Hln Hl0].
    intros [= <-]. cbn.
    assert (Hshape : (0 <=? OrbitInputForm.parseFloat localSolarTime)%float = true
                     /\ (OrbitInputForm.parseFloat localSolarTime <? 24)%float = true).
    { split; [apply float_not_ltb_geb; auto|apply float_not_leb_gtb; auto]. }
    destruct (Hgoal (SunSynchronous
                       (Build_SunSynchronousOrbitParams (OrbitInputForm.parseFloat altitudeText)
                          (OrbitInputForm.parseFloat localSolarTime))) eq_refl)
      as [Hrej Hsynth]; [cbn; tauto|].
    repeat (split; [assumption || reflexivity || tauto|]). exact Hsynth.
  - destruct (is_nan (OrbitInputForm.parseFloat inclinationText) || _ || _) eqn:Hi;
      [discriminate|].
    apply orb_false_iff in Hi as [Hi Hi180]. apply orb_false_iff in Hi as [Hin Hi0].
    intros [= <-]. cbn.
    assert (Hshape : (0 <=? OrbitInputForm.parseFloat inclinationText)%float = true
                     /\ (OrbitInputForm.parseFloat inclinationText <=? 180)%float = true).
    { split; apply float_not_ltb_geb; auto. }
    destruct (Hgoal (NonPolar
                       (Build_NonPolarOrbitParams (OrbitInputForm.parseFloat altitudeText)
                          (OrbitInputForm.parseFloat inclinationText) None)) eq_refl)
      as [Hrej Hsynth]; [cbn; tauto|].
    repeat (split; [assumption || reflexivity || tauto|]). exact Hsynth.
Qed.

End FormProperties.

(** Ticking or unticking a dataset toggles it and leaves the others alone:
    afterwards the dataset is selected exactly if it was not before, every
    other dataset is selected exactly if it was, and a selection without
    duplicates stays without duplicates.  Doing it twice gives back the same
    selection, up to the order. *)
Theorem handleDatasetChange_toggles (dataset : string) (prev : list string) :
  (dataset ∈ OrbitInputForm.handleDatasetChange dataset prev <-> dataset ∉ prev)
  /\ (forall d, d <> dataset ->
        d ∈ OrbitInputForm.handleDatasetChange dataset prev <-> d ∈ prev)
  /\ (NoDup prev -> NoDup (OrbitInputForm.handleDatasetChange dataset prev))
  /\ (NoDup prev ->
      OrbitInputForm.handleDatasetChange dataset
        (OrbitInputForm.handleDatasetChange dataset prev) ≡ₚ prev).
Proof.
  unfold OrbitInputForm.handleDatasetChange.
  split; [|split; [|split]].
  - destruct (bool_decide_reflect (dataset ∈ prev)) as [Hin|Hnin].
    + rewrite list_elem_of_filter. tauto.
    + rewrite elem_of_app, list_elem_of_singleton. tauto.
  - intros d Hd. destruct (bool_decide_reflect (dataset ∈ prev)) as [Hin|Hnin].
    + rewrite list_elem_of_filter. tauto.
    + rewrite elem_of_app, list_elem_of_singleton. tauto.
  - intros Hnd. destruct (bool_decide_reflect (dataset ∈ prev)) as [Hin|Hnin].
    + apply NoDup_filter. exact Hnd.
    + apply NoDup_app. split; [exact Hnd|]. split; [|apply NoDup_singleton].
      intros d Hd Hd'. apply list_elem_of_singleton in Hd'. subst d. contradiction.
  - intros Hnd. destruct (bool_decide_reflect (dataset ∈ prev)) as [Hin|Hnin].
    + rewrite bool_decide_false by (rewrite list_elem_of_filter; tauto).
      apply NoDup_Permutation.
      * apply NoDup_app. split; [apply NoDup_filter; exact Hnd|].
        split; [|apply NoDup_singleton].
        intros d Hd Hd'. apply list_elem_of_singleton in Hd'. subst d.
        apply list_elem_of_filter in Hd. tauto.
      * exact Hnd.
      * intros d. rewrite elem_of_app, list_elem_of_filter, list_elem_of_singleton.
        destruct (decide (d = dataset)) as [->|Hd]; tauto.
    + rewrite bool_decide_true by (apply elem_of_app; right; left).
      rewrite filter_app.
      assert (Hf : filter (fun d => d <> dataset) prev = prev).
      { clear Hnd. induction prev as [|d l IH]; [reflexivity|].
        rewrite filter_cons. destruct (decide (d <> dataset)) as [_|E].
        - f_equal. apply IH. intros H. apply Hnin. right. exact H.
        - exfalso. apply Hnin. destruct (decide (d = dataset)) as [->|N]; [left|tauto]. }
      rewrite Hf, filter_cons, decide_False by tauto.
      rewrite filter_nil, app_nil_r. reflexivity.
Qed.

(** ** The connections panel *)

Section PanelProperties.
Import CurrentConnectionsPanel.

#[local] Instance stringLe_total : Total stringLe.
Proof. intros a b. apply String.leb_total. Qed.

Lemma scanActiveLinksLog_spec (currentTimeIndex : nat) (activeLinksLog : list (gset string))
    (satId : string) :
  (satId ∈ everConnectedOverall (scanActiveLinksLog currentTimeIndex activeLinksLog)
   <-> exists i links, activeLinksLog !! i = Some links /\ satId ∈ links)
  /\ (satId ∈ connectedBeforeCurrentTime (scanActiveLinksLog currentTimeIndex activeLinksLog)
      <-> exists i links, i < currentTimeIndex /\ activeLinksLog !! i = Some links
                          /\ satId ∈ links).
Proof.
  unfold scanActiveLinksLog.
  assert (H : forall (l : list (gset string)) (n : nat) (sets : ConnectionSets),
    let final :=
      fold_left
        (fun sets '(i, linksAt_i) =>
           {| everConnectedOverall := sets.(everConnectedOverall) ∪ linksAt_i;
              connectedBeforeCurrentTime :=
                if (i <? currentTimeIndex)%nat
                then sets.(connectedBeforeCurrentTime) ∪ linksAt_i
                else sets.(connectedBeforeCurrentTime) |})
        (imap (fun i => pair (n + i)) l) sets in
    (satId ∈ everConnectedOverall final
     <-> satId ∈ everConnectedOverall sets
         \/ exists i links, l !! i = Some links /\ satId ∈ links)
    /\ (satId ∈ connectedBeforeCurrentTime final
        <-> satId ∈ connectedBeforeCurrentTime sets
            \/ exists i links, n + i < currentTimeIndex /\ l !! i = Some links
                               /\ satId ∈ links)).
  { induction l as [|links l IH]; intros n sets; cbn zeta.
    - cbn. split; (split; [tauto|]); intros [H|(i & links & H)]; try exact H.
      + destruct H as [H _]. rewrite lookup_nil in H. discriminate.
      + destruct H as (_ & H & _). rewrite lookup_nil in H. discriminate.
    - rewrite imap_cons. cbn [fold_left].
      rewrite (imap_ext ((fun i => pair (n + i)) ∘ S) (fun i => pair (S n + i)))
        by (intros; cbn; f_equal; lia).
      destruct (IH (S n) {| everConnectedOverall := everConnectedOverall sets ∪ links;
                            connectedBeforeCurrentTime :=
                              if (n + 0 <? currentTimeIndex)%nat
                              then connectedBeforeCurrentTime sets ∪ links
                              else connectedBeforeCurrentTime sets |}) as [IHe IHb].
      cbn zeta in IHe, IHb. rewrite IHe, IHb. clear IHe IHb IH.
      cbn [everConnectedOverall connectedBeforeCurrentTime]. split.
      + rewrite elem_of_union. split.
        * intros [[H|H]|(i & ls & Hl & Hin)]; [tauto| |].
          -- right. exists 0, links. split; [reflexivity|exact H].
          -- right. exists (S i), ls. split; [exact Hl|exact Hin].
        * intros [H|(i & ls & Hl & Hin)]; [tauto|].
          destruct i as [|i]; [injection Hl as <-; tauto|]. right. eauto.
      + destruct (Nat.ltb_spec (n + 0) currentTimeIndex) as [Hlt|Hge].
        * rewrite elem_of_union. split.
          -- intros [[H|H]|(i & ls & Hi & Hl & Hin)]; [tauto| |].
             ++ right. exists 0, links. split; [exact Hlt|]. split; [reflexivity|exact H].
             ++ right. exists (S i), ls. split; [lia|]. split; [exact Hl|exact Hin].
          -- intros [H|(i & ls & Hi & Hl & Hin)]; [tauto|].
             destruct i as [|i]; [injection Hl as <-; tauto|].
             right. exists i, ls. split; [lia|]. split; [exact Hl|exact Hin].
        * split.
          -- intros [H|(i & ls & Hi & Hl & Hin)]; [tauto|].
             right. exists (S i), ls. split; [lia|]. split; [exact Hl|exact Hin].
          -- intros [H|(i & ls & Hi & Hl & Hin)]; [tauto|].
             destruct i as [|i]; [lia|].
             right. exists i, ls. split; [lia|]. split; [exact Hl|exact Hin]. }
  specialize (H activeLinksLog 0 {| everConnectedOverall := ∅; connectedBeforeCurrentTime := ∅ |}).
  cbn zeta in H. cbn [Nat.add] in H.
  rewrite (imap_ext (fun i => pair (0 + i)) pair) in H by reflexivity.
  destruct H as [He Hb]. rewrite He, Hb.
  cbn [everConnectedOverall connectedBeforeCurrentTime].
  split; (split; [intros [H|H]; [exfalso; exact (not_elem_of_empty _ H)|exact H]|tauto]).
Qed.

Lemma elem_of_sort (satId : string) (ids : list string) : satId ∈ sort ids <-> satId ∈ ids.
Proof. unfold sort. rewrite merge_sort_Permutation. reflexivity. Qed.

Lemma elem_of_allIridiumIds (satId : string) (r : SimulationResults) :
  satId ∈ allIridiumIds r <-> is_Some (r.(iridiumTracks) !! satId).
Proof. unfold allIridiumIds. rewrite elem_of_elements, elem_of_dom. reflexivity. Qed.

Lemma NoDup_sorted_filter (P : string -> Prop) `{!forall satId, Decision (P satId)}
    (r : SimulationResults) :
  NoDup (sort (filter P (allIridiumIds r))) /\ Sorted stringLe (sort (filter P (allIridiumIds r))).
Proof.
  split; [|apply Sorted_merge_sort, _].
  unfold sort. rewrite merge_sort_Permutation. apply NoDup_filter.
  unfold allIridiumIds. apply NoDup_elements.
Qed.

(** The panel's two computed lists, for any results and index.  "Previously
    connected" holds the ids of the Iridium tracks that are not in the current
    set of active links and are in the set of some earlier index; "never
    connected" holds those in the set of no index at all, whatever the current
    index.  Both are sorted, without duplicates, and no id is in both, nor in
    one of them and in the current set.  An id of the tracks that is in none
    of the three is one whose first link comes after the current index. *)
Theorem connectionsPanel_lists (r : SimulationResults) (currentTimeIndex : nat) :
  let current := activeLinksAtCurrentTime (Some r) currentTimeIndex in
  let previously := previouslyConnectedIds (Some r) currentTimeIndex in
  let never := neverConnectedIds (Some r) currentTimeIndex in
  (forall satId,
     satId ∈ previously
     <-> is_Some (r.(iridiumTracks) !! satId) /\ (satId ∉ current)
         /\ exists i links, i < currentTimeIndex /\ r.(activeLinksLog) !! i = Some links
                            /\ satId ∈ links)
  /\ (forall satId,
        satId ∈ never
        <-> is_Some (r.(iridiumTracks) !! satId)
            /\ forall i links, r.(activeLinksLog) !! i = Some links -> satId ∉ links)
  /\ (forall otherIndex, neverConnectedIds (Some r) otherIndex = never)
  /\ NoDup previously /\ Sorted stringLe previously
  /\ NoDup never /\ Sorted stringLe never
  /\ (forall satId, satId ∈ previously -> satId ∉ never)
  /\ (forall satId, satId ∈ current -> (satId ∉ previously) /\ (satId ∉ never))
  /\ (forall satId,
        is_Some (r.(iridiumTracks) !! satId) ->
        satId ∉ current -> satId ∉ previously -> satId ∉ never ->
        exists i links, currentTimeIndex < i /\ r.(activeLinksLog) !! i = Some links
                        /\ satId ∈ links)
  /\ previouslyConnectedIds None currentTimeIndex = []
  /\ neverConnectedIds None currentTimeIndex = [].
Proof.
  intros current previously never.
  assert (Hprev : forall satId,
     satId ∈ previously
     <-> is_Some (r.(iridiumTracks) !! satId) /\ (satId ∉ current)
         /\ exists i links, i < currentTimeIndex /\ r.(activeLinksLog) !! i = Some links
                            /\ satId ∈ links).
  { intros satId. unfold previously, previouslyConnectedIds. cbv zeta.
    rewrite elem_of_sort, list_elem_of_filter, elem_of_allIridiumIds.
    rewrite (proj2 (scanActiveLinksLog_spec currentTimeIndex r.(activeLinksLog) satId)).
    fold current. tauto. }
  assert (Hnever : forall otherIndex satId,
     satId ∈ neverConnectedIds (Some r) otherIndex
     <-> is_Some (r.(iridiumTracks) !! satId)
         /\ forall i links, r.(activeLinksLog) !! i = Some links -> satId ∉ links).
  { intros otherIndex satId. unfold neverConnectedIds. cbv zeta.
    rewrite elem_of_sort, list_elem_of_filter, elem_of_allIridiumIds.
    rewrite (proj1 (scanActiveLinksLog_spec otherIndex r.(activeLinksLog) satId)).
    split.
    - intros [Hno Hkey]. split; [exact Hkey|]. intros i links Hl Hin. apply Hno. eauto.
    - intros [Hkey Hno]. split; [|exact Hkey]. intros (i & links & Hl & Hin).
      exact (Hno i links Hl Hin). }
  assert (Hcur : forall satId, satId ∈ current ->
            exists links, r.(activeLinksLog) !! currentTimeIndex = Some links /\ satId ∈ links).
  { intros satId. unfold current, activeLinksAtCurrentTime.
    destruct (r.(activeLinksLog) !! currentTimeIndex) as [links|]; cbn; [eauto|].
    intros H. exfalso. exact (not_elem_of_empty _ H). }
  split; [exact Hprev|]. split; [exact (Hnever currentTimeIndex)|].
  split.
  { intros otherIndex. unfold never, neverConnectedIds. cbv zeta.
    f_equal. apply list_filter_iff. intros satId.
    rewrite (proj1 (scanActiveLinksLog_spec otherIndex r.(activeLinksLog) satId)).
    rewrite (proj1 (scanActiveLinksLog_spec currentTimeIndex r.(activeLinksLog) satId)).
    reflexivity. }
  split; [apply NoDup_sorted_filter|]. split; [apply NoDup_sorted_filter|].
  split; [apply NoDup_sorted_filter|]. split; [apply NoDup_sorted_filter|].
  split; [|split; [|split; [|split; reflexivity]]].
  - intros satId Hp Hn. apply Hprev in Hp as (_ & _ & (i & links & _ & Hl & Hin)).
    apply (Hnever currentTimeIndex) in Hn as [_ Hno]. exact (Hno i links Hl Hin).
  - intros satId Hc. split.
    + intros Hp. apply Hprev in Hp. tauto.
    + intros Hn. apply (Hnever currentTimeIndex) in Hn as [_ Hno].
      destruct (Hcur _ Hc) as (links & Hl & Hin). exact (Hno _ links Hl Hin).
  - intros satId Hkey Hc Hp Hn.
    assert (Hex : exists i links, r.(activeLinksLog) !! i = Some links /\ satId ∈ links).
    { destruct (decide (satId ∈ everConnectedOverall
                          (scanActiveLinksLog currentTimeIndex r.(activeLinksLog))))
        as [Hin|Hnin].
      - apply scanActiveLinksLog_spec in Hin. exact Hin.
      - exfalso. apply Hn. apply (Hnever currentTimeIndex). split; [exact Hkey|].
        intros i links Hl Hin. apply Hnin. apply scanActiveLinksLog_spec. eauto. }
    destruct Hex as (i & links & Hl & Hin).
    destruct (lt_eq_lt_dec i currentTimeIndex) as [[Hlt|Heq]|Hgt].
    + exfalso. apply Hp. apply Hprev. split; [exact Hkey|]. split; [exact Hc|]. eauto.
    + exfalso. apply Hc. subst i. unfold current, activeLinksAtCurrentTime.
      rewrite Hl. exact Hin.
    + eauto.
Qed.

End PanelProperties.

(** ** The log buffer *)

Section LogProperties.
Import LogContext.
Variable Any : Type.

Lemma addLog_take (maxLogs : nat) (newLog : LogEntry Any) (prevLogs : list (LogEntry Any)) :
  addLog maxLogs newLog prevLogs = take maxLogs (newLog :: prevLogs).
Proof.
  unfold addLog, slice0. cbv zeta.
  destruct (Nat.ltb_spec maxLogs (length (newLog :: prevLogs))) as [_|Hle]; [reflexivity|].
  symmetry. apply take_ge. exact Hle.
Qed.

Lemma fold_addLog (maxLogs : nat) (entries : list (LogEntry Any)) (logs : list (LogEntry Any)) :
  fold_left (fun logs newLog => addLog maxLogs newLog logs) entries (take maxLogs logs)
  = take maxLogs (rev entries ++ logs).
Proof.
  revert logs. induction entries as [|e entries IH]; intros logs; [reflexivity|].
  cbn [fold_left rev]. rewrite addLog_take.
  assert (Ht : take maxLogs (e :: take maxLogs logs) = take maxLogs (e :: logs)).
  { destruct maxLogs as [|m]; [reflexivity|]. cbn [take]. f_equal.
    rewrite take_take. f_equal. lia. }
  rewrite Ht, IH, <- app_assoc. reflexivity.
Qed.

(** The log buffer holds the most recent entries, newest first, and never
    more than [maxLogs] of them: after any number of [addLog] calls since the
    last [clearLogs], it is the first [maxLogs] of the entries added, taken in
    reverse order.  The console panel shows the first [maxDisplayedLogs] of
    those, so never more than the smaller of the two bounds. *)
Theorem addLog_keeps_most_recent (maxLogs maxDisplayedLogs : nat)
    (entries : list (LogEntry Any)) :
  let logs := fold_left (fun logs newLog => addLog maxLogs newLog logs) entries
                (clearLogs Any) in
  logs = take maxLogs (rev entries)
  /\ length logs = Nat.min maxLogs (length entries)
  /\ displayedLogs maxDisplayedLogs logs = take (Nat.min maxDisplayedLogs maxLogs) (rev entries)
  /\ length (displayedLogs maxDisplayedLogs logs)
     = Nat.min (Nat.min maxDisplayedLogs maxLogs) (length entries).
Proof.
  intros logs.
  assert (Hlogs : logs = take maxLogs (rev entries)).
  { pose proof (fold_addLog maxLogs entries []) as H.
    rewrite take_nil, app_nil_r in H. exact H. }
  rewrite Hlogs. unfold displayedLogs, slice0.
  rewrite take_take, !length_take, length_rev. repeat split; reflexivity.
Qed.

End LogProperties.

(** ** Handshake markers of the map *)

Section MarkerProperties.
Context {math : MathHost} {dates : DateHost} {consts : Constants} {sat : SatelliteJs}
        {tles : TleService}.
Variable config : SimulationConfig.

Lemma filter_all {A : Type} (P : A -> Prop) `{!forall a, Decision (P a)} (l : list A) :
  Forall P l -> filter P l = l.
Proof.
  induction 1 as [|a l Ha _ IH]; [reflexivity|].
  rewrite filter_cons, decide_True by exact Ha. f_equal. exact IH.
Qed.

(** With the time range [App] selects after a run, the whole track, and
    markers switched on, the map draws a marker for every handshake of a run
    with a positive time step: none falls outside the timestamps of the first
    and the last entry of the Beacon track.  (A run with a negative time step
    goes back in time until its clock is an Invalid Date, and returns too: its
    track ends before it starts, and markers are lost.) *)
Theorem handshakeMarkers_full_range (runStart : Z) (r : SimulationResults)
    (currentTimeIndex : nat) :
  runSimulation config runStart = Returned r ->
  (0 < config.(simulationTimeStepSec))%Z ->
  0 < length r.(beaconTrack) ->
  SatVisualization.handshakeMarkers true r currentTimeIndex (fullTimeRange r)
  = r.(handshakeLog).
Proof.
  intros Hrun Hsec Hlen.
  assert (Hpos : (0 < timeStepMs config)%Z) by (unfold timeStepMs; lia).
  unfold SatVisualization.handshakeMarkers, fullTimeRange. cbv zeta.
  cbn [SatVisualization.range_start SatVisualization.range_end andb].
  destruct (Nat.ltb_spec 0 (length r.(beaconTrack))) as [_|]; [|lia].
  destruct (r.(beaconTrack) !! 0) as [first|] eqn:Hfirst;
    [|apply lookup_ge_None in Hfirst; lia].
  destruct (r.(beaconTrack) !! (length r.(beaconTrack) - 1)) as [lastEntry|] eqn:Hlast;
    [|apply lookup_ge_None in Hlast; lia].
  cbn. apply filter_all.
  pose proof (run_handshake_entries config _ Hrun) as Hentries.
  pose proof (run_track_sorted config _ Hrun Hpos) as Hsorted.
  eapply Forall_impl; [exact Hentries|]. cbn beta.
  intros h (entry & Hin & Hts & _). rewrite <- Hts.
  apply (sorted_head_last timestamp Hsorted (first := first) (lastOne := lastEntry)).
  - rewrite <- head_lookup in Hfirst. exact Hfirst.
  - rewrite last_lookup. replace (Init.Nat.pred (length r.(beaconTrack)))
      with (length r.(beaconTrack) - 1) by lia. exact Hlast.
  - exact Hin.
Qed.

End MarkerProperties.

(** ** The further properties on concrete inputs *)

(** Two records as CelesTrak serves them. *)
Definition exampleTles : list TLE :=
  [ {| name := "ISS (ZARYA)";
       line1 := "1 25544U 98067A   08264.51782528 -.00002182  00000-0 -11606-4 0  2927";
       line2 := "2 25544  51.6416 247.4627 0006703 130.5360 325.0288 15.72125391563537" |};
    {| name := "IRIDIUM 106";
       line1 := "1 41917U 17003A   24150.50000000  .00000000  00000-0  00000-0 0  9999";
       line2 := "2 41917  86.4000   0.0000 0001000   0.0000   0.0000 14.34160000 00006" |} ].

Lemma parseTleFile_reads_back_records_witness :
  tleService.parseTleFile (joinLines lineFeed (linesOf exampleTles)) = exampleTles.
Proof.
  refine (proj1 (parseTleFile_reads_back_records (tles := exampleTles) _ _)).
  - repeat constructor; try discriminate; vm_compute; reflexivity.
  - repeat constructor; discriminate.
Defined.

(** A Non-Polar Beacon at 550 km, inclined by 53 degrees. *)
Lemma generated_lines_are_wellFormed_witness :
  exists r,
    createTLEStringsFromBeaconParams
      (math := exampleMath) (dates := exampleDates) (consts := exampleConstants)
      (sat := gapSat)
      (NonPolar {| np_altitude := 550; inclination := 53; raan := None |}) exampleStart = Some r
    /\ wellFormedTle {| name := "BEACON"; line1 := r.(tle1); line2 := r.(tle2) |}.
Proof.
  eexists. split; [vm_compute; reflexivity|].
  refine (proj1 (generated_lines_are_wellFormed
                   (math := exampleMath) (dates := exampleDates) (consts := exampleConstants)
                   (sat := gapSat)
                   (NonPolar {| np_altitude := 550; inclination := 53; raan := None |})
                   exampleStart _) "BEACON" _ _).
  - vm_compute. reflexivity.
  - repeat split; discriminate.
  - reflexivity.
Defined.

(** An altitude of 0 km is refused. *)
Lemma createTLEStrings_refuses_exactly_tested_params_witness :
  createTLEStringsFromBeaconParams
    (math := exampleMath) (dates := exampleDates) (consts := exampleConstants) (sat := gapSat)
    (NonPolar {| np_altitude := 0; inclination := 53; raan := None |}) exampleStart = None.
Proof.
  refine (proj2 (proj1 (createTLEStrings_refuses_exactly_tested_params
                          (math := exampleMath) (dates := exampleDates)
                          (consts := exampleConstants) (sat := gapSat)
                          (NonPolar {| np_altitude := 0; inclination := 53; raan := None |})
                          exampleStart _)) (or_introl _)).
  - unfold eccentricityFits. vm_compute. lia.
  - vm_compute. reflexivity.
Defined.

(** The run of scenario "gap" steps by 1800 s, that is 30 minutes. *)
Lemma beaconTrack_is_orbit_track_witness :
  exists beaconSatRec,
    initializeBeacon (math := exampleMath) (dates := exampleDates) (consts := exampleConstants)
      (sat := gapSat) gapConfig exampleStart = Some beaconSatRec
    /\ getOrbitTrack (sat := gapSat) beaconSatRec exampleStart 1 30
       = Some gapResults.(beaconTrack).
Proof.
  destruct (beaconTrack_is_orbit_track
              (math := exampleMath) (dates := exampleDates) (consts := exampleConstants)
              (sat := gapSat) (tles := gapTles) gapConfig exampleStart (r := gapResults))
    as (b & Hb & _ & _ & _ & Htrack).
  - vm_cast_no_check (@eq_refl Outcome (Returned gapResults)).
  - exists b. split; [exact Hb|]. apply Htrack. reflexivity.
Defined.

(** Every handshake of scenario "gap" is with one of its two satellites. *)
Lemma handshakes_record_active_links_witness :
  Forall (fun h => exists isat : @IridiumSatRec gapSat,
                     isat ∈ gapSatRecs /\ isat.(id) = h.(iridiumSatelliteId))
         gapResults.(handshakeLog).
Proof.
  destruct (handshakes_record_active_links
              (math := exampleMath) (dates := exampleDates) (consts := exampleConstants)
              (sat := gapSat) (tles := gapTles) gapConfig exampleStart (r := gapResults))
    as (b & _ & Hall).
  - vm_cast_no_check (@eq_refl Outcome (Returned gapResults)).
  - eapply Forall_impl; [exact Hall|].
    intros h (bp & isat & ip & Hin & Hid & _). exists isat. split; [exact Hin|exact Hid].
Defined.

Lemma handshakes_are_chronological_witness :
  StronglySorted (fun h1 h2 => (h1.(hs_timestamp) <= h2.(hs_timestamp))%Z)
    gapResults.(handshakeLog).
Proof.
  refine (proj1 (handshakes_are_chronological
                   (math := exampleMath) (dates := exampleDates) (consts := exampleConstants)
                   (sat := gapSat) (tles := gapTles) gapConfig exampleStart
                   (r := gapResults) _ _)).
  - vm_cast_no_check (@eq_refl Outcome (Returned gapResults)).
  - reflexivity.
Defined.

Lemma blackoutPeriods_are_chronological_witness :
  Forall (fun p =>
        (exampleStart <= p.(startTime) <= runEndTime (exampleConfig 1 60) exampleStart)%Z
        /\ match p.(endTime) with
           | Some e => (p.(startTime) < e <= runEndTime (exampleConfig 1 60) exampleStart
                                             + timeStepMs (exampleConfig 1 60))%Z
           | None => validTime (runExitTime (exampleConfig 1 60) exampleStart) = false
           end
        /\ exists entry, entry ∈ farSideResults.(beaconTrack)
                         /\ entry.(timestamp) = p.(startTime))
       farSideResults.(blackoutPeriods).
Proof.
  refine (proj2 (blackoutPeriods_are_chronological
                   (math := exampleMath) (dates := exampleDates) (consts := exampleConstants)
                   (sat := scenarioSat beaconTrajectory farSideIridium)
                   (tles := scenarioTles farSideIridium) (exampleConfig 1 60) exampleStart
                   (r := farSideResults) _ _)).
  - vm_cast_no_check (@eq_refl Outcome (Returned farSideResults)).
  - reflexivity.
Defined.

(** The first step of scenario "far side" has no link: it lies in a blackout
    period. *)
Lemma blackoutPeriods_cover_linkless_steps_witness :
  exists entry,
    farSideResults.(beaconTrack) !! 0 = Some entry
    /\ exists p, p ∈ farSideResults.(blackoutPeriods)
                 /\ (p.(startTime) <= entry.(timestamp))%Z
                 /\ match p.(endTime) with
                    | Some e => (entry.(timestamp) < e)%Z
                    | None => True
                    end.
Proof.
  eexists. split; [vm_compute; reflexivity|].
  refine (proj1 (blackoutPeriods_cover_linkless_steps
                   (math := exampleMath) (dates := exampleDates) (consts := exampleConstants)
                   (sat := scenarioSat beaconTrajectory farSideIridium)
                   (tles := scenarioTles farSideIridium) (exampleConfig 1 60) exampleStart
                   (r := farSideResults) _ _ 0 (links := ∅) _ _) _).
  - vm_cast_no_check (@eq_refl Outcome (Returned farSideResults)).
  - reflexivity.
  - vm_compute. reflexivity.
  - vm_compute. reflexivity.
  - reflexivity.
Defined.

(** IRIDIUM 7 propagates whenever the Beacon does. *)
Lemma iridiumTracks_follow_beaconTrack_witness :
  exists track,
    gapResults.(iridiumTracks) !! "IRIDIUM 7" = Some track
    /\ length track <= length gapResults.(beaconTrack).
Proof.
  destruct (iridiumTracks_follow_beaconTrack
              (math := exampleMath) (dates := exampleDates) (consts := exampleConstants)
              (sat := gapSat) (tles := gapTles) gapConfig exampleStart (r := gapResults))
    as (b & _ & _ & Hsat).
  - vm_cast_no_check (@eq_refl Outcome (Returned gapResults)).
  - destruct (Hsat) with (isat := @Build_IridiumSatRec gapSat "IRIDIUM 7" iridium7)
      as (track & Htrack & _ & Hlen & _).
    + change (NoDup ["IRIDIUM 7"; "IRIDIUM 9"]).
      repeat constructor; intros H; repeat (apply elem_of_cons in H as [H|H]; [discriminate H|]);
        inversion H.
    + change (@Build_IridiumSatRec gapSat "IRIDIUM 7" iridium7 ∈ gapSatRecs). left.
    + exists track. split; [exact Htrack|exact Hlen].
Defined.

(** The form as it opens, with the fields it shows filled in. *)
Definition exampleParsing : OrbitInputForm.NumberParsing :=
  {| OrbitInputForm.parseFloat := fun s =>
       if String.eqb s "550" then 550%float
       else if String.eqb s "10.5" then 10.5%float
       else if String.eqb s "62" then 62%float
       else if String.eqb s "24" then 24%float
       else if String.eqb s "60" then 60%float
       else if String.eqb s "98" then 98%float
       else nan |}.

Lemma handleSubmit_submits_valid_configs_witness :
  exists fullConfig,
    OrbitInputForm.handleSubmit (parsing := exampleParsing)
      OrbitInputForm.OrbitType_SunSynchronous "550" "98" "10.5" "62" "62" "24" "60" ""
      ["IRIDIUM"; "IRIDIUM-NEXT"] BiDirectional = OrbitInputForm.Submit fullConfig
    /\ rejectsParams fullConfig.(OrbitInputForm.beaconParams) = false.
Proof.
  eexists. split; [vm_compute; reflexivity|].
  destruct (handleSubmit_submits_valid_configs
              (math := exampleMath) (dates := exampleDates) (consts := exampleConstants)
              (sat := gapSat) (parsing := exampleParsing)
              OrbitInputForm.OrbitType_SunSynchronous "550" "98" "10.5" "62" "62" "24" "60" ""
              ["IRIDIUM"; "IRIDIUM-NEXT"] BiDirectional
              (fullConfig := _) ltac:(vm_compute; reflexivity))
    as (_ & _ & _ & _ & _ & _ & _ & _ & _ & _ & Hrej & _).
  exact Hrej.
Defined.

(** Scenario "gap" run backwards, two instants 8.64e15 ms apart: the run
    returns, and its track ends before it starts. *)
Definition backwardConfig : SimulationConfig := exampleConfig 0 (-8640000000000).

Definition backwardRun : Outcome :=
  runSimulation (math := exampleMath) (dates := exampleDates) (consts := exampleConstants)
    (sat := gapSat) (tles := gapTles) backwardConfig exampleStart.

Definition backwardResults : SimulationResults := Eval vm_compute in resultsOf backwardRun.

Example backward_run :
  backwardRun = Returned backwardResults
  /\ map timestamp backwardResults.(beaconTrack)
     = [exampleStart; (exampleStart - 8640000000000000)%Z]
  /\ map (fun h => (h.(hs_timestamp), h.(iridiumSatelliteId))) backwardResults.(handshakeLog)
     = [(exampleStart, "IRIDIUM 7")].
Proof.
  split; [vm_cast_no_check (@eq_refl Outcome (Returned backwardResults))|].
  split; vm_compute; reflexivity.
Qed.

(** Scenario "gap" has a marker for each of its handshakes; run backwards, it
    has none for the handshake of its first instant. *)
Lemma handshakeMarkers_full_range_witness :
  SatVisualization.handshakeMarkers true gapResults 0 (fullTimeRange gapResults)
  = gapResults.(handshakeLog)
  /\ SatVisualization.handshakeMarkers true backwardResults 0 (fullTimeRange backwardResults)
     = [].
Proof.
  split; [|vm_compute; reflexivity].
  refine (handshakeMarkers_full_range
            (math := exampleMath) (dates := exampleDates) (consts := exampleConstants)
            (sat := gapSat) (tles := gapTles) gapConfig exampleStart (r := gapResults) 0 _ _ _).
  - vm_cast_no_check (@eq_refl Outcome (Returned gapResults)).
  - reflexivity.
  - vm_compute. lia.
Defined.

(** IRIDIUM 9 comes into view at the third instant of scenario "gap", the
    second entry of the track. *)
Lemma handshakes_are_rising_edges_witness :
  exists h, h ∈ gapResults.(handshakeLog)
            /\ h.(hs_timestamp) = (exampleStart + 3600000)%Z
            /\ h.(iridiumSatelliteId) = "IRIDIUM 9".
Proof.
  refine (proj2 (handshakes_are_rising_edges
                   (math := exampleMath) (dates := exampleDates) (consts := exampleConstants)
                   (sat := gapSat) (tles := gapTles) gapConfig exampleStart
                   (r := gapResults) _ (exampleStart + 3600000)%Z "IRIDIUM 9") _).
  - vm_cast_no_check (@eq_refl Outcome (Returned gapResults)).
  - destruct gap_run as (_ & _ & _ & Hlog & _).
    exists 1. unfold risingEdge. rewrite Hlog.
    eexists. exists {[ "IRIDIUM 7"; "IRIDIUM 9" ]}.
    split; [vm_compute; reflexivity|]. split; [reflexivity|].
    split; [reflexivity|].
    change (linksBefore [{["IRIDIUM 7"]}; {["IRIDIUM 7"; "IRIDIUM 9"]}] 1)
      with ({["IRIDIUM 7"]} : gset string).
    split.
    + set_solver.
    + intros H. apply elem_of_singleton in H. discriminate H.
Defined.
(** Scenario "far side" never has a link: its blackout starts with the first
    entry of the track. *)
Lemma blackoutPeriods_are_linkless_runs_witness :
  exists p, p ∈ farSideResults.(blackoutPeriods) /\ p.(startTime) = exampleStart.
Proof.
  refine (proj2 (proj1 (blackoutPeriods_are_linkless_runs
                   (math := exampleMath) (dates := exampleDates) (consts := exampleConstants)
                   (sat := scenarioSat beaconTrajectory farSideIridium)
                   (tles := scenarioTles farSideIridium) (exampleConfig 1 60) exampleStart
                   (r := farSideResults) _) exampleStart) _).
  - vm_cast_no_check (@eq_refl Outcome (Returned farSideResults)).
  - exists 0. eexists. split; [vm_compute; reflexivity|]. split; [reflexivity|].
    split; [vm_compute; reflexivity|intros []].
Defined.
Lemma tracks_hold_no_NaN_position_witness :
  Forall positionIsNumber gapResults.(beaconTrack).
Proof.
  refine (proj1 (tracks_hold_no_NaN_position
                   (math := exampleMath) (dates := exampleDates) (consts := exampleConstants)
                   (sat := gapSat) (tles := gapTles) gapConfig exampleStart
                   (r := gapResults) _)).
  vm_cast_no_check (@eq_refl Outcome (Returned gapResults)).
Defined.
